(** * WSRPC: a shallow embedding of [src/wsrpc.es6.js]

    The JavaScript client keeps all of its session state in one object
    ([self]) and mutates it from the public operations and from the
    handlers of the WebSocket it owns.  The embedding is a state monad
    with exceptions over a record [WSRPC] that has one field per member
    of [self], plus the heap of [Deferred] objects (they are shared by
    reference between the store, the one-shot event queues and the
    caller) and the traces of what the code hands to its environment
    (frames given to [socket.send], listener invocations, console
    output).  What the environment does to the session (the transport
    changing state and firing its events, timers and promise jobs
    running, the user calling the public object) is an [op]; a session is
    a list of them, run from the state the constructor leaves. *)

From stdpp Require Import gmap strings list pretty.

Open Scope Z_scope.

Set Warnings "-register-all".

(** ** JavaScript values *)

(** The data that crosses the API: what [JSON.parse] produces, what a
    caller passes as [args]/[params], what a handler returns or throws.
    Numbers are the integral ones (a call id is an integer below 2^53,
    where the arithmetic of doubles is exact). [VError m] is an [Error]
    object whose [message] is [m]. *)
Inductive value :=
| VUndef
| VNull
| VBool (b : bool)
| VNum (z : Z)
| VStr (s : string)
| VArr (items : list value)
| VObj (fields : list (string * value))
| VError (message : string).

Fixpoint assoc {A : Type} (k : string) (l : list (string * A)) : option A :=
  match l with
  | [] => None
  | (k', v) :: l' => if String.eqb k k' then Some v else assoc k l'
  end.

(** ToBoolean. *)
Definition truthy (v : value) : bool :=
  match v with
  | VUndef | VNull => false
  | VBool b => b
  | VNum z => negb (Z.eqb z 0)
  | VStr s => negb (String.eqb s "")
  | VArr _ | VObj _ | VError _ => true
  end.

(** ToString, which is also how a value becomes a property name in
    [o[v]] and [o.hasOwnProperty(v)]. *)
Fixpoint to_string (v : value) : string :=
  match v with
  | VUndef => "undefined"
  | VNull => "null"
  | VBool true => "true"
  | VBool false => "false"
  | VNum z => pretty z
  | VStr s => s
  | VArr items =>
      String.concat ","
        (map (fun x => match x with
                       | VUndef | VNull => ""
                       | _ => to_string x
                       end) items)
  | VObj _ => "[object Object]"
  | VError m => "Error: " +:+ m
  end.

(** [v.k] for the member names the client reads ([id], [method],
    [params], [error], [result], [noWait], [message]): an own field of an
    object, the message of an [Error], [undefined] otherwise (none of
    these names is inherited from a prototype).  Reading a member of
    [null] or [undefined] is a TypeError; the callers below only read
    from values they have tested. *)
Definition member (v : value) (k : string) : value :=
  match v with
  | VObj fields => default VUndef (assoc k fields)
  | VError m => if String.eqb k "message" then VStr m else VUndef
  | _ => VUndef
  end.

(** Strict equality with [null]. *)
Definition is_null (v : value) : bool :=
  match v with VNull => true | _ => false end.

(** ** Results and exceptions *)

Inductive result (A : Type) :=
| Ok (a : A)
| Throw (e : value).
Arguments Ok {A} a.
Arguments Throw {A} e.

Definition TypeError (m : string) : value := VError m.

(** [v.hasOwnProperty(k)]: a TypeError on [null] and [undefined], and on
    an object whose own field [hasOwnProperty] shadows the method (JSON
    can carry one, and then the member is not callable); for the names
    the dispatcher asks about, strings, numbers, booleans and arrays own
    none. *)
Definition hasOwnProperty (v : value) (k : string) : result bool :=
  match v with
  | VUndef | VNull => Throw (TypeError "Cannot read properties of null")
  | VObj fields =>
      match assoc "hasOwnProperty" fields with
      | Some _ => Throw (TypeError "data.hasOwnProperty is not a function")
      | None => Ok (bool_decide (is_Some (assoc k fields)))
      end
  | _ => Ok false
  end.

(** [k in v]. *)
Definition has_in (k : string) (v : value) : result bool :=
  match v with
  | VObj fields => Ok (bool_decide (is_Some (assoc k fields)))
  | VArr _ | VError _ => Ok false
  | _ => Throw (TypeError "Cannot use 'in' operator")
  end.

(** Whether ToPrimitive succeeds on [v].  An object is converted by its
    [toString]; an own field of that name, which in these values is never
    callable, hides the method of [Object.prototype], and [valueOf] then
    gives back the object: a TypeError.  An array is joined, which
    converts every element other than [null] and [undefined]. *)
Fixpoint convertible (v : value) : bool :=
  match v with
  | VObj fields => negb (bool_decide (is_Some (assoc "toString" fields)))
  | VArr items => forallb convertible items
  | _ => true
  end.

(** ToPropertyKey: the name under which [o[v]], [delete o[v]] and
    [o.hasOwnProperty(v)] look [v] up. *)
Definition ToPropertyKey (v : value) : result string :=
  if convertible v then Ok (to_string v)
  else Throw (TypeError "Cannot convert object to primitive value").

(** ** Deferred: the Single-Result Future (lines 1-27) *)

(** The state of the native promise. *)
Inductive settlement :=
| Pending
| Fulfilled (v : value)
| Rejected (reason : value).

(** The native resolving functions of a promise act once; later calls
    are ignored. *)
Definition native_resolve (v : value) (p : settlement) : settlement :=
  match p with Pending => Fulfilled v | _ => p end.

Definition native_reject (r : value) (p : settlement) : settlement :=
  match p with Pending => Rejected r | _ => p end.

Record Deferred := {
  done : bool;
  promise : settlement
}.

Definition new_Deferred : Deferred :=
  {| done := false; promise := Pending |}.

(** [wrapper(func)]: throws when [self.done], otherwise sets it and
    calls [func]. *)
Definition wrapper (func : value -> settlement -> settlement)
    (arg : value) (d : Deferred) : result unit * Deferred :=
  if done d then (Throw (VError "Promise already done"), d)
  else (Ok tt, {| done := true; promise := func arg (promise d) |}).

Definition resolve : value -> Deferred -> result unit * Deferred :=
  wrapper native_resolve.
Definition reject : value -> Deferred -> result unit * Deferred :=
  wrapper native_reject.

(** [self.promise.isPending()]. *)
Definition isPending (d : Deferred) : bool := negb (done d).

(** One invocation of either settling member. *)
Inductive settle :=
| Resolve (v : value)
| Reject (reason : value).

Definition apply_settle (c : settle) : Deferred -> result unit * Deferred :=
  match c with
  | Resolve v => resolve v
  | Reject r => reject r
  end.

(** A sequence of invocations on one Deferred: the outcome of each, and
    the Deferred at the end. *)
Fixpoint settle_all (cs : list settle) (d : Deferred)
    : list (result unit) * Deferred :=
  match cs with
  | [] => ([], d)
  | c :: cs' =>
      let '(r, d') := apply_settle c d in
      let '(rs, d'') := settle_all cs' d' in
      (r :: rs, d'')
  end.

(** ** The session state *)

Definition loc := nat.

(** A function supplied by the user as a listener: its identity, for
    the traces, and what one call of it on an event does, return a value
    (which the client discards) or throw one.  The listeners of the
    model do nothing else: they do not call the client back.  A number
    stands for the listener of that identity that returns. *)
Record fn := {
  fn_id : nat;
  fn_call : value -> result value
}.

Definition quiet_listener (n : nat) : fn :=
  {| fn_id := n; fn_call := fun _ => Ok VUndef |}.
Coercion quiet_listener : nat >-> fn.

(** A route handler, by what one invocation on [data.params] does:
    return a value or throw one. *)
Definition callback := value -> result value.

(** The four lifecycle event names, the keys of [eventStore] and
    [oneTimeEventStore]. *)
Inductive evName := onconnect | onerror | onclose | onchange.

Record EventTable (A : Type) := {
  t_onconnect : A;
  t_onerror : A;
  t_onclose : A;
  t_onchange : A
}.
Arguments t_onconnect {A} _.
Arguments t_onerror {A} _.
Arguments t_onclose {A} _.
Arguments t_onchange {A} _.

Definition tget {A} (e : evName) (t : EventTable A) : A :=
  match e with
  | onconnect => t_onconnect t
  | onerror => t_onerror t
  | onclose => t_onclose t
  | onchange => t_onchange t
  end.

Definition tset {A} (e : evName) (a : A) (t : EventTable A) : EventTable A :=
  match e with
  | onconnect => {| t_onconnect := a; t_onerror := t_onerror t;
                    t_onclose := t_onclose t; t_onchange := t_onchange t |}
  | onerror => {| t_onconnect := t_onconnect t; t_onerror := a;
                  t_onclose := t_onclose t; t_onchange := t_onchange t |}
  | onclose => {| t_onconnect := t_onconnect t; t_onerror := t_onerror t;
                  t_onclose := a; t_onchange := t_onchange t |}
  | onchange => {| t_onconnect := t_onconnect t; t_onerror := t_onerror t;
                   t_onclose := t_onclose t; t_onchange := a |}
  end.

(** [readyState] of a WebSocket, lines 61-66. *)
Inductive ReadyState := CONNECTING | OPEN | CLOSING | CLOSED.

Definition readyState_code (r : ReadyState) : Z :=
  match r with
  | CONNECTING => 0
  | OPEN => 1
  | CLOSING => 2
  | CLOSED => 3
  end.

Record WebSocket := { readyState : ReadyState }.

(** The frozen object built by [makeCall]. *)
Record CallObj := {
  co_id : Z;
  co_method : value;
  co_params : value
}.

Definition CallObj_value (c : CallObj) : value :=
  VObj [("id", VNum (co_id c)); ("method", co_method c);
        ("params", co_params c)].

(** [JSON.stringify(v, 0, space)]: the text handed to the transport,
    kept as the value it encodes and the indentation asked for. *)
Record text := {
  json : value;
  space : Z
}.

Definition JSON_stringify (v : value) (sp : Z) : text :=
  {| json := v; space := sp |}.

(** A reaction of the promise of an inbound call (the two functions
    given to [then] in [handleCall]), ready to run: the connection number
    and the inbound id it captured, and how the promise settled. *)
Record job := {
  j_connectionNumber : Z;
  j_id : value;
  j_outcome : settlement
}.

(** A line of the console.  [CListener func e] is the line [log] gets
    from [tryCallEvent] about what the listener [func] threw: [e.stack]
    where [e] owns one, ['Event function', func, 'raised unknown error:',
    e] otherwise. *)
Inductive console_entry :=
| CDebug (args : list value)
| CListener (func : fn) (e : value)
| CTrace (payload : value)
| CError (e : value)
| CGroup (label : string)
| CGroupEnd.

(** The members of [self] (lines 74-91 and 357-360), the two static
    flags, and the environment: the heap of Deferred objects, the
    reactions registered on them, the Deferreds handed to asynchronous
    handlers, the promise jobs and reconnect timers waiting to run, and
    the traces of frames transmitted, listeners invoked, settlements made
    and console lines written.  [store], like [eventStore], has integer
    property names only and is kept in the order [for ... in] enumerates
    them (ascending). *)
Record WSRPC := {
  id : Z;
  eventId : Z;
  socketStarted : bool;
  eventStore : EventTable (list (Z * fn));
  connectionNumber : Z;
  oneTimeEventStore : EventTable (list loc);
  callQueue : list CallObj;
  socketEventsListeners : list fn;
  asyncRoutes : gmap string value;
  routes : gmap string callback;
  store : list (Z * loc);
  socket : option WebSocket;
  DEBUG : bool;
  TRACE : bool;
  heap : list Deferred;
  thens : list (loc * (Z * value));
  handed : list loc;
  jobs : list job;
  timers : nat;
  sent : list text;
  invoked : list (fn * value);
  settled : list (loc * settle);
  console : list console_entry
}.

Definition set_id (x : Z) (s : WSRPC) : WSRPC :=
  {| id := x; eventId := eventId s; socketStarted := socketStarted s;
     eventStore := eventStore s; connectionNumber := connectionNumber s;
     oneTimeEventStore := oneTimeEventStore s; callQueue := callQueue s;
     socketEventsListeners := socketEventsListeners s; asyncRoutes :=
     asyncRoutes s; routes := routes s; store := store s; socket :=
     socket s; DEBUG := DEBUG s; TRACE := TRACE s; heap := heap s; thens
     := thens s; handed := handed s; jobs := jobs s; timers := timers s;
     sent := sent s; invoked := invoked s; settled := settled s; console
     := console s |}.

Definition set_eventId (x : Z) (s : WSRPC) : WSRPC :=
  {| id := id s; eventId := x; socketStarted := socketStarted s;
     eventStore := eventStore s; connectionNumber := connectionNumber s;
     oneTimeEventStore := oneTimeEventStore s; callQueue := callQueue s;
     socketEventsListeners := socketEventsListeners s; asyncRoutes :=
     asyncRoutes s; routes := routes s; store := store s; socket :=
     socket s; DEBUG := DEBUG s; TRACE := TRACE s; heap := heap s; thens
     := thens s; handed := handed s; jobs := jobs s; timers := timers s;
     sent := sent s; invoked := invoked s; settled := settled s; console
     := console s |}.

Definition set_socketStarted (x : bool) (s : WSRPC) : WSRPC :=
  {| id := id s; eventId := eventId s; socketStarted := x; eventStore :=
     eventStore s; connectionNumber := connectionNumber s;
     oneTimeEventStore := oneTimeEventStore s; callQueue := callQueue s;
     socketEventsListeners := socketEventsListeners s; asyncRoutes :=
     asyncRoutes s; routes := routes s; store := store s; socket :=
     socket s; DEBUG := DEBUG s; TRACE := TRACE s; heap := heap s; thens
     := thens s; handed := handed s; jobs := jobs s; timers := timers s;
     sent := sent s; invoked := invoked s; settled := settled s; console
     := console s |}.

Definition set_eventStore (x : EventTable (list (Z * fn))) (s : WSRPC) : WSRPC :=
  {| id := id s; eventId := eventId s; socketStarted := socketStarted s;
     eventStore := x; connectionNumber := connectionNumber s;
     oneTimeEventStore := oneTimeEventStore s; callQueue := callQueue s;
     socketEventsListeners := socketEventsListeners s; asyncRoutes :=
     asyncRoutes s; routes := routes s; store := store s; socket :=
     socket s; DEBUG := DEBUG s; TRACE := TRACE s; heap := heap s; thens
     := thens s; handed := handed s; jobs := jobs s; timers := timers s;
     sent := sent s; invoked := invoked s; settled := settled s; console
     := console s |}.

Definition set_connectionNumber (x : Z) (s : WSRPC) : WSRPC :=
  {| id := id s; eventId := eventId s; socketStarted := socketStarted s;
     eventStore := eventStore s; connectionNumber := x;
     oneTimeEventStore := oneTimeEventStore s; callQueue := callQueue s;
     socketEventsListeners := socketEventsListeners s; asyncRoutes :=
     asyncRoutes s; routes := routes s; store := store s; socket :=
     socket s; DEBUG := DEBUG s; TRACE := TRACE s; heap := heap s; thens
     := thens s; handed := handed s; jobs := jobs s; timers := timers s;
     sent := sent s; invoked := invoked s; settled := settled s; console
     := console s |}.

Definition set_oneTimeEventStore (x : EventTable (list loc)) (s : WSRPC) : WSRPC :=
  {| id := id s; eventId := eventId s; socketStarted := socketStarted s;
     eventStore := eventStore s; connectionNumber := connectionNumber s;
     oneTimeEventStore := x; callQueue := callQueue s;
     socketEventsListeners := socketEventsListeners s; asyncRoutes :=
     asyncRoutes s; routes := routes s; store := store s; socket :=
     socket s; DEBUG := DEBUG s; TRACE := TRACE s; heap := heap s; thens
     := thens s; handed := handed s; jobs := jobs s; timers := timers s;
     sent := sent s; invoked := invoked s; settled := settled s; console
     := console s |}.

Definition set_callQueue (x : list CallObj) (s : WSRPC) : WSRPC :=
  {| id := id s; eventId := eventId s; socketStarted := socketStarted s;
     eventStore := eventStore s; connectionNumber := connectionNumber s;
     oneTimeEventStore := oneTimeEventStore s; callQueue := x;
     socketEventsListeners := socketEventsListeners s; asyncRoutes :=
     asyncRoutes s; routes := routes s; store := store s; socket :=
     socket s; DEBUG := DEBUG s; TRACE := TRACE s; heap := heap s; thens
     := thens s; handed := handed s; jobs := jobs s; timers := timers s;
     sent := sent s; invoked := invoked s; settled := settled s; console
     := console s |}.

Definition set_socketEventsListeners (x : list fn) (s : WSRPC) : WSRPC :=
  {| id := id s; eventId := eventId s; socketStarted := socketStarted s;
     eventStore := eventStore s; connectionNumber := connectionNumber s;
     oneTimeEventStore := oneTimeEventStore s; callQueue := callQueue s;
     socketEventsListeners := x; asyncRoutes := asyncRoutes s; routes :=
     routes s; store := store s; socket := socket s; DEBUG := DEBUG s;
     TRACE := TRACE s; heap := heap s; thens := thens s; handed :=
     handed s; jobs := jobs s; timers := timers s; sent := sent s;
     invoked := invoked s; settled := settled s; console := console s |}.

Definition set_asyncRoutes (x : gmap string value) (s : WSRPC) : WSRPC :=
  {| id := id s; eventId := eventId s; socketStarted := socketStarted s;
     eventStore := eventStore s; connectionNumber := connectionNumber s;
     oneTimeEventStore := oneTimeEventStore s; callQueue := callQueue s;
     socketEventsListeners := socketEventsListeners s; asyncRoutes := x;
     routes := routes s; store := store s; socket := socket s; DEBUG :=
     DEBUG s; TRACE := TRACE s; heap := heap s; thens := thens s; handed
     := handed s; jobs := jobs s; timers := timers s; sent := sent s;
     invoked := invoked s; settled := settled s; console := console s |}.

Definition set_routes (x : gmap string callback) (s : WSRPC) : WSRPC :=
  {| id := id s; eventId := eventId s; socketStarted := socketStarted s;
     eventStore := eventStore s; connectionNumber := connectionNumber s;
     oneTimeEventStore := oneTimeEventStore s; callQueue := callQueue s;
     socketEventsListeners := socketEventsListeners s; asyncRoutes :=
     asyncRoutes s; routes := x; store := store s; socket := socket s;
     DEBUG := DEBUG s; TRACE := TRACE s; heap := heap s; thens := thens
     s; handed := handed s; jobs := jobs s; timers := timers s; sent :=
     sent s; invoked := invoked s; settled := settled s; console :=
     console s |}.

Definition set_store (x : list (Z * loc)) (s : WSRPC) : WSRPC :=
  {| id := id s; eventId := eventId s; socketStarted := socketStarted s;
     eventStore := eventStore s; connectionNumber := connectionNumber s;
     oneTimeEventStore := oneTimeEventStore s; callQueue := callQueue s;
     socketEventsListeners := socketEventsListeners s; asyncRoutes :=
     asyncRoutes s; routes := routes s; store := x; socket := socket s;
     DEBUG := DEBUG s; TRACE := TRACE s; heap := heap s; thens := thens
     s; handed := handed s; jobs := jobs s; timers := timers s; sent :=
     sent s; invoked := invoked s; settled := settled s; console :=
     console s |}.

Definition set_socket (x : option WebSocket) (s : WSRPC) : WSRPC :=
  {| id := id s; eventId := eventId s; socketStarted := socketStarted s;
     eventStore := eventStore s; connectionNumber := connectionNumber s;
     oneTimeEventStore := oneTimeEventStore s; callQueue := callQueue s;
     socketEventsListeners := socketEventsListeners s; asyncRoutes :=
     asyncRoutes s; routes := routes s; store := store s; socket := x;
     DEBUG := DEBUG s; TRACE := TRACE s; heap := heap s; thens := thens
     s; handed := handed s; jobs := jobs s; timers := timers s; sent :=
     sent s; invoked := invoked s; settled := settled s; console :=
     console s |}.

Definition set_DEBUG (x : bool) (s : WSRPC) : WSRPC :=
  {| id := id s; eventId := eventId s; socketStarted := socketStarted s;
     eventStore := eventStore s; connectionNumber := connectionNumber s;
     oneTimeEventStore := oneTimeEventStore s; callQueue := callQueue s;
     socketEventsListeners := socketEventsListeners s; asyncRoutes :=
     asyncRoutes s; routes := routes s; store := store s; socket :=
     socket s; DEBUG := x; TRACE := TRACE s; heap := heap s; thens :=
     thens s; handed := handed s; jobs := jobs s; timers := timers s;
     sent := sent s; invoked := invoked s; settled := settled s; console
     := console s |}.

Definition set_TRACE (x : bool) (s : WSRPC) : WSRPC :=
  {| id := id s; eventId := eventId s; socketStarted := socketStarted s;
     eventStore := eventStore s; connectionNumber := connectionNumber s;
     oneTimeEventStore := oneTimeEventStore s; callQueue := callQueue s;
     socketEventsListeners := socketEventsListeners s; asyncRoutes :=
     asyncRoutes s; routes := routes s; store := store s; socket :=
     socket s; DEBUG := DEBUG s; TRACE := x; heap := heap s; thens :=
     thens s; handed := handed s; jobs := jobs s; timers := timers s;
     sent := sent s; invoked := invoked s; settled := settled s; console
     := console s |}.

Definition set_heap (x : list Deferred) (s : WSRPC) : WSRPC :=
  {| id := id s; eventId := eventId s; socketStarted := socketStarted s;
     eventStore := eventStore s; connectionNumber := connectionNumber s;
     oneTimeEventStore := oneTimeEventStore s; callQueue := callQueue s;
     socketEventsListeners := socketEventsListeners s; asyncRoutes :=
     asyncRoutes s; routes := routes s; store := store s; socket :=
     socket s; DEBUG := DEBUG s; TRACE := TRACE s; heap := x; thens :=
     thens s; handed := handed s; jobs := jobs s; timers := timers s;
     sent := sent s; invoked := invoked s; settled := settled s; console
     := console s |}.

Definition set_thens (x : list (loc * (Z * value))) (s : WSRPC) : WSRPC :=
  {| id := id s; eventId := eventId s; socketStarted := socketStarted s;
     eventStore := eventStore s; connectionNumber := connectionNumber s;
     oneTimeEventStore := oneTimeEventStore s; callQueue := callQueue s;
     socketEventsListeners := socketEventsListeners s; asyncRoutes :=
     asyncRoutes s; routes := routes s; store := store s; socket :=
     socket s; DEBUG := DEBUG s; TRACE := TRACE s; heap := heap s; thens
     := x; handed := handed s; jobs := jobs s; timers := timers s; sent
     := sent s; invoked := invoked s; settled := settled s; console :=
     console s |}.

Definition set_handed (x : list loc) (s : WSRPC) : WSRPC :=
  {| id := id s; eventId := eventId s; socketStarted := socketStarted s;
     eventStore := eventStore s; connectionNumber := connectionNumber s;
     oneTimeEventStore := oneTimeEventStore s; callQueue := callQueue s;
     socketEventsListeners := socketEventsListeners s; asyncRoutes :=
     asyncRoutes s; routes := routes s; store := store s; socket :=
     socket s; DEBUG := DEBUG s; TRACE := TRACE s; heap := heap s; thens
     := thens s; handed := x; jobs := jobs s; timers := timers s; sent
     := sent s; invoked := invoked s; settled := settled s; console :=
     console s |}.

Definition set_jobs (x : list job) (s : WSRPC) : WSRPC :=
  {| id := id s; eventId := eventId s; socketStarted := socketStarted s;
     eventStore := eventStore s; connectionNumber := connectionNumber s;
     oneTimeEventStore := oneTimeEventStore s; callQueue := callQueue s;
     socketEventsListeners := socketEventsListeners s; asyncRoutes :=
     asyncRoutes s; routes := routes s; store := store s; socket :=
     socket s; DEBUG := DEBUG s; TRACE := TRACE s; heap := heap s; thens
     := thens s; handed := handed s; jobs := x; timers := timers s; sent
     := sent s; invoked := invoked s; settled := settled s; console :=
     console s |}.

Definition set_timers (x : nat) (s : WSRPC) : WSRPC :=
  {| id := id s; eventId := eventId s; socketStarted := socketStarted s;
     eventStore := eventStore s; connectionNumber := connectionNumber s;
     oneTimeEventStore := oneTimeEventStore s; callQueue := callQueue s;
     socketEventsListeners := socketEventsListeners s; asyncRoutes :=
     asyncRoutes s; routes := routes s; store := store s; socket :=
     socket s; DEBUG := DEBUG s; TRACE := TRACE s; heap := heap s; thens
     := thens s; handed := handed s; jobs := jobs s; timers := x; sent
     := sent s; invoked := invoked s; settled := settled s; console :=
     console s |}.

Definition set_sent (x : list text) (s : WSRPC) : WSRPC :=
  {| id := id s; eventId := eventId s; socketStarted := socketStarted s;
     eventStore := eventStore s; connectionNumber := connectionNumber s;
     oneTimeEventStore := oneTimeEventStore s; callQueue := callQueue s;
     socketEventsListeners := socketEventsListeners s; asyncRoutes :=
     asyncRoutes s; routes := routes s; store := store s; socket :=
     socket s; DEBUG := DEBUG s; TRACE := TRACE s; heap := heap s; thens
     := thens s; handed := handed s; jobs := jobs s; timers := timers s;
     sent := x; invoked := invoked s; settled := settled s; console :=
     console s |}.

Definition set_invoked (x : list (fn * value)) (s : WSRPC) : WSRPC :=
  {| id := id s; eventId := eventId s; socketStarted := socketStarted s;
     eventStore := eventStore s; connectionNumber := connectionNumber s;
     oneTimeEventStore := oneTimeEventStore s; callQueue := callQueue s;
     socketEventsListeners := socketEventsListeners s; asyncRoutes :=
     asyncRoutes s; routes := routes s; store := store s; socket :=
     socket s; DEBUG := DEBUG s; TRACE := TRACE s; heap := heap s; thens
     := thens s; handed := handed s; jobs := jobs s; timers := timers s;
     sent := sent s; invoked := x; settled := settled s; console :=
     console s |}.

Definition set_settled (x : list (loc * settle)) (s : WSRPC) : WSRPC :=
  {| id := id s; eventId := eventId s; socketStarted := socketStarted s;
     eventStore := eventStore s; connectionNumber := connectionNumber s;
     oneTimeEventStore := oneTimeEventStore s; callQueue := callQueue s;
     socketEventsListeners := socketEventsListeners s; asyncRoutes :=
     asyncRoutes s; routes := routes s; store := store s; socket :=
     socket s; DEBUG := DEBUG s; TRACE := TRACE s; heap := heap s; thens
     := thens s; handed := handed s; jobs := jobs s; timers := timers s;
     sent := sent s; invoked := invoked s; settled := x; console :=
     console s |}.

Definition set_console (x : list console_entry) (s : WSRPC) : WSRPC :=
  {| id := id s; eventId := eventId s; socketStarted := socketStarted s;
     eventStore := eventStore s; connectionNumber := connectionNumber s;
     oneTimeEventStore := oneTimeEventStore s; callQueue := callQueue s;
     socketEventsListeners := socketEventsListeners s; asyncRoutes :=
     asyncRoutes s; routes := routes s; store := store s; socket :=
     socket s; DEBUG := DEBUG s; TRACE := TRACE s; heap := heap s; thens
     := thens s; handed := handed s; jobs := jobs s; timers := timers s;
     sent := sent s; invoked := invoked s; settled := settled s; console
     := x |}.

(** ** The monad of the handlers: state and exceptions *)

(** A computation runs on the session state and either returns or
    throws; what it wrote before throwing stays written. *)
Definition M (A : Type) : Type := WSRPC -> result A * WSRPC.

Definition ret {A} (a : A) : M A := fun s => (Ok a, s).

Definition bind {A B} (m : M A) (k : A -> M B) : M B :=
  fun s =>
    match m s with
    | (Ok a, s') => k a s'
    | (Throw e, s') => (Throw e, s')
    end.

Definition throw {A} (e : value) : M A := fun s => (Throw e, s).

Definition try_catch {A} (m : M A) (handler : value -> M A) : M A :=
  fun s =>
    match m s with
    | (Ok a, s') => (Ok a, s')
    | (Throw e, s') => handler e s'
    end.

Definition gets {A} (f : WSRPC -> A) : M A := fun s => (Ok (f s), s).

Definition modify (f : WSRPC -> WSRPC) : M unit := fun s => (Ok tt, f s).

Definition lift {A} (r : result A) : M A := fun s => (r, s).

Declare Scope js_scope.
Delimit Scope js_scope with js.
Notation "x <- c1 ;; c2" := (bind c1 (fun x => c2))
  (at level 100, c1 at next level, right associativity) : js_scope.
Notation "c1 ;; c2" := (bind c1 (fun _ => c2))
  (at level 100, right associativity) : js_scope.
Open Scope js_scope.

(** The state after a computation, and what it returned. *)
Definition exec {A} (m : M A) (s : WSRPC) : WSRPC := snd (m s).
Definition eval {A} (m : M A) (s : WSRPC) : result A := fst (m s).

(** ** Objects with integer property names *)

(** [o[name]] restricted to own properties, [o.hasOwnProperty(name)],
    [delete o[name]] and [o[k] = v] on an object whose property names are
    integers: the name of the property with key [k] is [pretty k]. *)
Fixpoint obj_get {A} (name : string) (o : list (Z * A)) : option A :=
  match o with
  | [] => None
  | (k, v) :: o' => if String.eqb (pretty k) name then Some v else obj_get name o'
  end.

Definition obj_has {A} (name : string) (o : list (Z * A)) : bool :=
  bool_decide (is_Some (obj_get name o)).

Fixpoint obj_delete {A} (name : string) (o : list (Z * A)) : list (Z * A) :=
  match o with
  | [] => []
  | (k, v) :: o' =>
      if String.eqb (pretty k) name then obj_delete name o'
      else (k, v) :: obj_delete name o'
  end.

Fixpoint obj_set {A} (k : Z) (v : A) (o : list (Z * A)) : list (Z * A) :=
  match o with
  | [] => [(k, v)]
  | (k', v') :: o' =>
      if Z.ltb k k' then (k, v) :: o
      else if Z.eqb k k' then (k, v) :: o'
      else (k', v') :: obj_set k v o'
  end.

(** The names [for (key in o)] goes through. *)
Definition obj_keys {A} (o : list (Z * A)) : list string :=
  map (fun kv => pretty (fst kv)) o.

(** The members every plain object inherits from [Object.prototype]:
    [o[name]] is defined for them even when [o] has no own property of
    that name. *)
Definition Object_prototype : list string :=
  ["constructor"; "__defineGetter__"; "__defineSetter__"; "hasOwnProperty";
   "__lookupGetter__"; "__lookupSetter__"; "isPrototypeOf";
   "propertyIsEnumerable"; "toString"; "valueOf"; "__proto__";
   "toLocaleString"].

Definition inherited (name : string) : bool :=
  existsb (String.eqb name) Object_prototype.

(** ** Deferreds on the heap *)

(** [new Deferred()]. *)
Definition Deferred_new : M loc :=
  fun s => (Ok (length (heap s)), set_heap (heap s ++ [new_Deferred]) s).

(** [deferred.promise.isPending()]. *)
Definition Deferred_isPending (l : loc) : M bool :=
  gets (fun s => match heap s !! l with
                 | Some d => isPending d
                 | None => false
                 end).

(** The settlement a call of [resolve] or [reject] leaves in the promise. *)
Definition outcome_of (c : settle) : settlement :=
  match c with
  | Resolve v => Fulfilled v
  | Reject r => Rejected r
  end.

(** The reactions registered on [l], as jobs for the outcome [o]. *)
Definition reactions (l : loc) (o : settlement) (ts : list (loc * (Z * value)))
    : list job :=
  map (fun t => {| j_connectionNumber := fst (snd t); j_id := snd (snd t);
                   j_outcome := o |})
      (filter (fun t => fst t = l) ts).

(** [deferred.resolve(v)] and [deferred.reject(r)] on the Deferred at
    [l]: the wrapper of lines 9-15, then the native function, which
    settles the promise and queues its reactions as jobs. *)
Definition Deferred_settle (l : loc) (c : settle) : M unit :=
  fun s =>
    match heap s !! l with
    | None => (Throw (TypeError "Cannot read properties of undefined"), s)
    | Some d =>
        match apply_settle c d with
        | (Throw e, _) => (Throw e, s)
        | (Ok _, d') =>
            (Ok tt,
             set_jobs (jobs s ++ reactions l (promise d') (thens s))
               (set_settled (settled s ++ [(l, c)])
                  (set_heap (<[l := d']> (heap s)) s)))
        end
    end.

Definition Deferred_resolve (l : loc) (v : value) : M unit :=
  Deferred_settle l (Resolve v).
Definition Deferred_reject (l : loc) (r : value) : M unit :=
  Deferred_settle l (Reject r).

(** ** Diagnostics (lines 29-46) *)

(** A lifecycle event object ([open], [close], [error]) as the
    transport delivers it; it has no [data] member. *)
Record Event := { e_type : string }.

Definition Event_value (e : Event) : value :=
  VObj [("type", VStr (e_type e))].

(** A message event; [data] stands for what [JSON.parse(message.data)]
    evaluates to, a value or the SyntaxError it throws. *)
Record MessageEvent := {
  type : string;
  data : result value
}.

Definition logGroup (group : string) (entry : console_entry) : M unit :=
  modify (fun s => set_console (console s ++ [CGroup group; entry; CGroupEnd]) s).

Definition log (args : list value) : M unit :=
  debug <- gets DEBUG ;;
  if negb debug then ret tt
  else logGroup "WSRPC.DEBUG" (CDebug args).

(** [trace(msg)] on a lifecycle event: ['data' in msg] is false. *)
Definition trace_event (msg : Event) : M unit :=
  tr <- gets TRACE ;;
  if negb tr then ret tt
  else logGroup "WSRPC.TRACE" (CTrace (Event_value msg)).

(** [trace(msg)] on a message event: ['data' in msg] holds and the
    payload is parsed, which may throw. *)
Definition trace_message (msg : MessageEvent) : M unit :=
  tr <- gets TRACE ;;
  if negb tr then ret tt
  else payload <- lift (data msg) ;;
       logGroup "WSRPC.TRACE" (CTrace payload).

Definition console_error (e : value) : M unit :=
  modify (fun s => set_console (console s ++ [CError e]) s).

(** ** The transport *)

(** [stateCode()] and [state()], lines 394-401. *)
Definition stateCode (s : WSRPC) : Z :=
  match socketStarted s, socket s with
  | true, Some ws => readyState_code (readyState ws)
  | _, _ => 3
  end.

Definition readyState_table (code : Z) : string :=
  if Z.eqb code 0 then "CONNECTING"
  else if Z.eqb code 1 then "OPEN"
  else if Z.eqb code 2 then "CLOSING"
  else if Z.eqb code 3 then "CLOSED"
  else "undefined".

Definition state (s : WSRPC) : string := readyState_table (stateCode s).

(** [self.socket.send(t)].  The WebSocket is the browser's: [send]
    throws an InvalidStateError while CONNECTING, transmits while OPEN,
    and drops the data once CLOSING or CLOSED.  Without a socket the
    member access is a TypeError. *)
Definition socket_send (t : text) : M unit :=
  fun s =>
    match socket s with
    | None => (Throw (TypeError "Cannot read properties of undefined"), s)
    | Some ws =>
        match readyState ws with
        | CONNECTING => (Throw (VError "InvalidStateError"), s)
        | OPEN => (Ok tt, set_sent (sent s ++ [t]) s)
        | CLOSING | CLOSED => (Ok tt, s)
        end
    end.

(** [self.socket.close()]: starts the closing handshake unless the
    socket is already CLOSING or CLOSED. *)
Definition socket_close : M unit :=
  fun s =>
    match socket s with
    | None => (Throw (TypeError "Cannot read properties of undefined"), s)
    | Some ws =>
        match readyState ws with
        | CONNECTING | OPEN =>
            (Ok tt, set_socket (Some {| readyState := CLOSING |}) s)
        | CLOSING | CLOSED => (Ok tt, s)
        end
    end.

(** [createSocket()], lines 93-323: [new WebSocket(URL)] returns a
    socket that is CONNECTING, or throws [e] when [ctor = Some e]; the
    handlers it installs are the definitions below. *)
Definition createSocket (ctor : option value) : M WebSocket :=
  match ctor with
  | None => ret {| readyState := CONNECTING |}
  | Some e => throw e
  end.

(** ** rejectQueue (lines 96-120) *)

Definition reject_if_pending (deferred : option loc) (reason : value) : M unit :=
  match deferred with
  | Some l =>
      p <- Deferred_isPending l ;;
      if p then Deferred_reject l reason else ret tt
  | None => ret tt
  end.

(** The [while] loop: each round shifts the head of [callQueue]; the
    body adds nothing to the queue, so the rounds are those of the queue
    found on entry. *)
Fixpoint rejectQueue_calls (q : list CallObj) : M unit :=
  match q with
  | [] => ret tt
  | callObj :: q' =>
      modify (set_callQueue q') ;;
      deferred <- gets (fun s => obj_get (pretty (co_id callObj)) (store s)) ;;
      modify (fun s => set_store (obj_delete (pretty (co_id callObj)) (store s)) s) ;;
      reject_if_pending deferred (VStr "WebSocket error occurred") ;;
      rejectQueue_calls q'
  end.

(** The [for ... in] loop over the store, which the body leaves as it
    is. *)
Fixpoint rejectQueue_store (keys : list string) : M unit :=
  match keys with
  | [] => ret tt
  | key :: keys' =>
      deferred <- gets (fun s => obj_get key (store s)) ;;
      reject_if_pending deferred (VStr "WebSocket error occurred") ;;
      rejectQueue_store keys'
  end.

Definition rejectQueue : M unit :=
  modify (fun s => set_connectionNumber (connectionNumber s + 1) s) ;;
  q <- gets callQueue ;;
  rejectQueue_calls q ;;
  keys <- gets (fun s => obj_keys (store s)) ;;
  rejectQueue_store keys.

(** ** callEvents (lines 163-188) *)

(** The [while] loop over the one-shot Deferreds of [evName]. *)
Fixpoint callEvents_oneTime (evName : evName) (q : list loc) : M unit :=
  match q with
  | [] => ret tt
  | deferred :: q' =>
      modify (fun s => set_oneTimeEventStore
                         (tset evName q' (oneTimeEventStore s)) s) ;;
      p <- Deferred_isPending deferred ;;
      (if p then Deferred_resolve deferred VUndef else ret tt) ;;
      callEvents_oneTime evName q'
  end.

(** [tryCallEvent(func, event)]: the call is recorded.  What [func]
    throws is caught, but the [catch] starts by asking
    [e.hasOwnProperty('stack')]: where [e] is [null] or [undefined], or
    owns a [hasOwnProperty] that cannot be called, that is a TypeError,
    which leaves [tryCallEvent].  Otherwise [log] gets a line (the stack
    where the exception owns one, the function and the exception where
    it does not: one entry [CListener] here) and [console.error] the
    exception. *)
Definition tryCallEvent (func : fn) (event : value) : M unit :=
  modify (fun s => set_invoked (invoked s ++ [(func, event)]) s) ;;
  match fn_call func event with
  | Ok _ => ret tt
  | Throw e =>
      _ <- lift (hasOwnProperty e "stack") ;;
      debug <- gets DEBUG ;;
      (if negb debug then ret tt
       else logGroup "WSRPC.DEBUG" (CListener func e)) ;;
      console_error e
  end.

Fixpoint callEvents_durable (listeners : list (Z * fn)) (event : value) : M unit :=
  match listeners with
  | [] => ret tt
  | (_, cur) :: listeners' =>
      tryCallEvent cur event ;;
      callEvents_durable listeners' event
  end.

Definition callEvents (evName : evName) (event : value) : M unit :=
  q <- gets (fun s => tget evName (oneTimeEventStore s)) ;;
  callEvents_oneTime evName q ;;
  listeners <- gets (fun s => tget evName (eventStore s)) ;;
  callEvents_durable listeners event.

(** ** reconnect, onclose, onerror, onopen (lines 122-201) *)

(** [reconnect(callEvents)] only arms a timer. *)
Definition reconnect : M unit :=
  modify (fun s => set_timers (S (timers s)) s).

(** The function the timer runs, lines 124-131. *)
Definition reconnect_timeout (ctor : option value) : M unit :=
  try_catch
    (ws <- createSocket ctor ;;
     modify (set_socket (Some ws)) ;;
     modify (set_id 1))
    (fun exc =>
       callEvents onerror exc ;;
       modify (set_socket None) ;;
       console_error exc).

(** The loop of lines 139-144: every Deferred in the store owns a
    [reject] member, and it is called without asking [isPending]. *)
Fixpoint onclose_store (keys : list string) : M unit :=
  match keys with
  | [] => ret tt
  | serial :: keys' =>
      deferred <- gets (fun s => obj_get serial (store s)) ;;
      match deferred with
      | Some l => Deferred_reject l (VStr "Connection closed")
      | None => throw (TypeError "Cannot read properties of undefined")
      end ;;
      onclose_store keys'
  end.

(** Lines 136-144 of [ws.onclose], up to the call of [rejectQueue]. *)
Definition onclose_rejects (err : Event) : M unit :=
  st <- gets state ;;
  log [VStr "ONCLOSE CALLED"; VStr "STATE"; VStr st] ;;
  trace_event err ;;
  keys <- gets (fun s => obj_keys (store s)) ;;
  onclose_store keys.

Definition ws_onclose (err : Event) : M unit :=
  onclose_rejects err ;;
  rejectQueue ;;
  callEvents onclose (Event_value err) ;;
  callEvents onchange (Event_value err) ;;
  reconnect.

Definition ws_onerror (err : Event) : M unit :=
  st <- gets state ;;
  log [VStr "ONERROR CALLED"; VStr "STATE"; VStr st] ;;
  trace_event err ;;
  rejectQueue ;;
  callEvents onerror (Event_value err) ;;
  callEvents onchange (Event_value err) ;;
  log [VStr "WebSocket has been closed by error: "; Event_value err].

(** The [while] loop of lines 194-197: shift, then send. *)
Fixpoint onopen_flush (q : list CallObj) : M unit :=
  match q with
  | [] => ret tt
  | callObj :: q' =>
      modify (set_callQueue q') ;;
      socket_send (JSON_stringify (CallObj_value callObj) 1) ;;
      onopen_flush q'
  end.

Definition ws_onopen (ev : Event) : M unit :=
  st <- gets state ;;
  log [VStr "ONOPEN CALLED"; VStr "STATE"; VStr st] ;;
  trace_event ev ;;
  q <- gets callQueue ;;
  onopen_flush q ;;
  callEvents onconnect (Event_value ev) ;;
  callEvents onchange (Event_value ev).

(** ** The dispatcher (lines 203-320) *)

(** [self.asyncRoutes[name]] as a condition: the own flag, otherwise
    whatever the name inherits. *)
Definition asyncRoutes_flag (name : string) (s : WSRPC) : bool :=
  match asyncRoutes s !! name with
  | Some v => truthy v
  | None => inherited name
  end.

(** [self.routes.hasOwnProperty(data.method)].  The route table is a
    finite map from names to handlers, the own properties of
    [self.routes].  [hasOwnProperty] is looked up on the table itself: a
    route registered under that name is what gets called, on
    [data.method], and the truth of what it returns is the answer;
    otherwise the method of [Object.prototype] tests the own
    properties. *)
Definition routes_hasOwnProperty (method : value) : M bool :=
  shadow <- gets (fun s => routes s !! "hasOwnProperty") ;;
  match shadow with
  | Some h => r <- lift (h method) ;; ret (truthy r)
  | None =>
      name <- lift (ToPropertyKey method) ;;
      gets (fun s => bool_decide (is_Some (routes s !! name)))
  end.

(** [func.apply(promiseMock, [params])] where [func = self.routes[name]]
    is no own property of the table, which takes a route named
    [hasOwnProperty] that answered for [name]: [func] is [undefined], or
    a member of [Object.prototype].  [__proto__] is that object, which
    has no [apply]; [__defineGetter__] and [__defineSetter__] want a
    function as their second argument; the members that look a property
    up convert [params] to a name first; the others return.  The value
    returned is given as [JSON.stringify] renders it. *)
Definition inherited_apply (name : string) (params : value) : result value :=
  if negb (inherited name)
  then Throw (TypeError "Cannot read properties of undefined")
  else if String.eqb name "__proto__"
  then Throw (TypeError "func.apply is not a function")
  else if String.eqb name "__defineGetter__"
          || String.eqb name "__defineSetter__"
  then Throw (TypeError "Getter must be a function")
  else if String.eqb name "hasOwnProperty"
          || String.eqb name "propertyIsEnumerable"
  then match ToPropertyKey params with
       | Ok k => Ok (VBool (String.eqb k "resolve" || String.eqb k "reject"))
       | Throw e => Throw e
       end
  else if String.eqb name "__lookupGetter__"
          || String.eqb name "__lookupSetter__"
  then match ToPropertyKey params with
       | Ok _ => Ok VUndef
       | Throw e => Throw e
       end
  else if String.eqb name "isPrototypeOf" then Ok (VBool false)
  else if String.eqb name "toString" || String.eqb name "toLocaleString"
  then Ok (VStr "[object Object]")
  else if String.eqb name "valueOf" then Ok (VObj [])
  else match params with
       | VUndef | VNull => Ok (VObj [])
       | _ => Ok params
       end.

(** [handleCall(self, data)].  The synchronous branch settles the fresh
    Deferred at once; the asynchronous one hands it to the handler as
    [this] and returns.  In a session the two tables have the same own
    names, so where [func] is inherited the flag is too, and the
    asynchronous branch drops what the member returns. *)
Definition handleCall (data : value) : M unit :=
  found <- routes_hasOwnProperty (member data "method") ;;
  if negb found then throw (VError "Route not found")
  else
    connectionNumber <- gets connectionNumber ;;
    deferred <- Deferred_new ;;
    modify (fun s => set_thens
              (thens s ++ [(deferred, (connectionNumber, member data "id"))]) s) ;;
    method <- lift (ToPropertyKey (member data "method")) ;;
    func <- gets (fun s => routes s !! method) ;;
    isAsync <- gets (asyncRoutes_flag method) ;;
    match func with
    | None =>
        if isAsync then
          _ <- lift (inherited_apply method (member data "params")) ;;
          ret tt
        else
          try_catch
            (r <- lift (inherited_apply method (member data "params")) ;;
             Deferred_resolve deferred r)
            (fun e =>
               Deferred_reject deferred e ;;
               console_error e)
    | Some func =>
        if isAsync then
          modify (fun s => set_handed (handed s ++ [deferred]) s) ;;
          _ <- lift (func (member data "params")) ;;
          ret tt
        else
          try_catch
            (r <- lift (func (member data "params")) ;;
             Deferred_resolve deferred r)
            (fun e =>
               Deferred_reject deferred e ;;
               console_error e)
    end.

(** The reaction of lines 210-225, run as a promise job. *)
Definition run_job (j : job) : M unit :=
  current <- gets connectionNumber ;;
  if negb (Z.eqb (j_connectionNumber j) current) then ret tt
  else
    match j_outcome j with
    | Fulfilled r =>
        socket_send (JSON_stringify (VObj [("id", j_id j); ("result", r)]) 0)
    | Rejected e =>
        socket_send (JSON_stringify (VObj [("id", j_id j); ("error", e)]) 0)
    | Pending => ret tt
    end.

Definition store_delete (name : string) : M unit :=
  modify (fun s => set_store (obj_delete name (store s)) s).

Definition handleError (data : value) : M unit :=
  name <- lift (ToPropertyKey (member data "id")) ;;
  has <- gets (fun s => obj_has name (store s)) ;;
  if negb has then log [VStr "Unknown callback"]
  else
    deferred <- gets (fun s => obj_get name (store s)) ;;
    match deferred with
    | None => log [VStr "Confirmation without handler"]
    | Some l =>
        store_delete name ;;
        log [VStr "REJECTING"; member data "error"] ;;
        Deferred_reject l (member data "error")
    end.

(** [handleResult] reads [self.store[data.id]] without asking
    [hasOwnProperty]: for a name inherited from [Object.prototype] the
    value read is not [undefined], [delete] removes nothing, and the
    value has no [resolve] or [reject] member to call. *)
Definition handleResult (data : value) : M unit :=
  name <- lift (ToPropertyKey (member data "id")) ;;
  deferred <- gets (fun s => obj_get name (store s)) ;;
  match deferred with
  | None =>
      if inherited name then
        has_result <- lift (hasOwnProperty data "result") ;;
        if has_result : bool
        then throw (TypeError "deferred.resolve is not a function")
        else throw (TypeError "deferred.reject is not a function")
      else log [VStr "Confirmation without handler"]
  | Some l =>
      store_delete name ;;
      has_result <- lift (hasOwnProperty data "result") ;;
      if has_result : bool
      then Deferred_resolve l (member data "result")
      else Deferred_reject l (member data "error")
  end.

(** The loop of lines 294-301 over the server-event listeners; what a
    listener throws is caught and handed to [console.error] as it is. *)
Fixpoint onmessage_listeners (listeners : list fn) (data : value) : M unit :=
  match listeners with
  | [] => ret tt
  | current :: listeners' =>
      modify (fun s => set_invoked (invoked s ++ [(current, data)]) s) ;;
      match fn_call current data with
      | Ok _ => ret tt
      | Throw e => console_error e
      end ;;
      onmessage_listeners listeners' data
  end.

(** The body of the [try], from [log(data)] on. *)
Definition onmessage_try (data : value) : M unit :=
  log [data] ;;
  has_id <- lift (hasOwnProperty data "id") ;;
  if negb has_id then
    modify (fun s => set_console (console s ++ [CGroup "Event received"]) s) ;;
    listeners <- gets socketEventsListeners ;;
    onmessage_listeners listeners data ;;
    modify (fun s => set_console (console s ++ [CGroupEnd]) s)
  else
    has_method <- lift (hasOwnProperty data "method") ;;
    if has_method : bool then handleCall data
    else
      has_error <- lift (hasOwnProperty data "error") ;;
      if has_error && is_null (member data "error") then handleError data
      else handleResult data.

(** [exception.message]. *)
Definition exception_message (exception : value) : result value :=
  match exception with
  | VUndef | VNull => Throw (TypeError "Cannot read properties of null")
  | _ => Ok (member exception "message")
  end.

(** The [catch] of lines 310-319; [data] is [undefined] when
    [JSON.parse] threw. *)
Definition onmessage_catch (data : value) (exception : value) : M unit :=
  message <- lift (exception_message exception) ;;
  let err := VObj [("error", message); ("result", VNull);
                   ("id", if truthy data then member data "id" else VNull)] in
  socket_send (JSON_stringify err 0) ;;
  console_error exception.

Definition ws_onmessage (message : MessageEvent) : M unit :=
  st <- gets state ;;
  log [VStr "ONMESSAGE CALLED"; VStr "STATE"; VStr st] ;;
  trace_message message ;;
  if negb (String.eqb (type message) "message") then ret tt
  else
    match data message with
    | Throw exception => onmessage_catch VUndef exception
    | Ok data => try_catch (onmessage_try data) (onmessage_catch data)
    end.

(** ** makeCall (lines 325-355) *)

Definition store_put (deferred : loc) : M unit :=
  modify (fun s => set_store (obj_set (id s) deferred (store s)) s).

(** [self.id += 2] is an addition of doubles: it is the sum of the
    integers as long as the counter is a safe integer, which is what the
    statements about the ids of a whole run ask for ([safe_integer]). *)
Definition makeCall (func args params : value) : M loc :=
  modify (fun s => set_id (id s + 2) s) ;;
  deferred <- Deferred_new ;;
  callObj <- gets (fun s => {| co_id := id s; co_method := func;
                               co_params := args |}) ;;
  state <- gets state ;;
  (if String.eqb state "OPEN" then
     store_put deferred ;;
     socket_send (JSON_stringify (CallObj_value callObj) 0)
   else if String.eqb state "CONNECTING" then
     log [VStr "SOCKET IS"; VStr state] ;;
     store_put deferred ;;
     modify (fun s => set_callQueue (callQueue s ++ [callObj]) s)
   else
     log [VStr "SOCKET IS"; VStr state] ;;
     if truthy params && truthy (member params "noWait") then
       Deferred_reject deferred (VStr ("Socket is: " +:+ state))
     else
       store_put deferred ;;
       modify (fun s => set_callQueue (callQueue s ++ [callObj]) s)) ;;
  ret deferred.

(** ** The public object (lines 361-412) *)

Definition call (func args params : value) : M loc :=
  makeCall func args params.

(** [self.asyncRoutes[route] = isAsync || false; self.routes[route] =
    callback].  An assignment to [__proto__] adds no property: it calls
    the setter of [Object.prototype], which replaces the prototype of the
    table where the value is an object, as a callback is, and does
    nothing otherwise.  The members such a prototype brings are not
    looked up by the model: the inherited names are those of
    [Object.prototype]. *)
Definition addRoute (route : value) (cb : callback) (isAsync : value) : M unit :=
  name <- lift (ToPropertyKey route) ;;
  if String.eqb name "__proto__" then ret tt
  else
    modify (fun s => set_asyncRoutes
              (<[name := if truthy isAsync then isAsync else VBool false]>
                 (asyncRoutes s)) s) ;;
    modify (fun s => set_routes (<[name := cb]> (routes s)) s).

(** [delete o[name]] evaluates to [true] for every property of a plain
    object, own or absent. *)
Definition deleteRoute (route : value) : M bool :=
  name <- lift (ToPropertyKey route) ;;
  modify (fun s => set_asyncRoutes (delete name (asyncRoutes s)) s) ;;
  modify (fun s => set_routes (delete name (routes s)) s) ;;
  ret true.

Definition addEventListener (event : evName) (func : fn) : M Z :=
  eventId0 <- gets eventId ;;
  modify (fun s => set_eventId (eventId s + 1) s) ;;
  modify (fun s => set_eventStore
            (tset event (obj_set eventId0 func (tget event (eventStore s)))
               (eventStore s)) s) ;;
  ret eventId0.

Definition removeEventListener (event : evName) (index : value) : M bool :=
  name <- lift (ToPropertyKey index) ;;
  has <- gets (fun s => obj_has name (tget event (eventStore s))) ;;
  if has : bool then
    modify (fun s => set_eventStore
              (tset event (obj_delete name (tget event (eventStore s)))
                 (eventStore s)) s) ;;
    ret true
  else ret false.

Definition onEvent (event : evName) : M loc :=
  deferred <- Deferred_new ;;
  modify (fun s => set_oneTimeEventStore
            (tset event (tget event (oneTimeEventStore s) ++ [deferred])
               (oneTimeEventStore s)) s) ;;
  ret deferred.

Definition destroy : M unit := socket_close.

Definition connect (ctor : option value) : M unit :=
  modify (set_socketStarted true) ;;
  ws <- createSocket ctor ;;
  modify (set_socket (Some ws)).

(** [push] returns the new length. *)
Definition addServerEventListener (callable : fn) : M Z :=
  modify (fun s => set_socketEventsListeners
            (socketEventsListeners s ++ [callable]) s) ;;
  len <- gets (fun s => Z.of_nat (length (socketEventsListeners s))) ;;
  ret (len - 1).

(** [a.splice(start, 1)] for an integer [start]: a negative one counts
    from the end, the position is clamped to the array, and the element
    there, if any, is removed; the removed elements are returned. *)
Definition splice1 {A} (start : Z) (a : list A) : list A * list A :=
  let len := Z.of_nat (length a) in
  let actualStart := if Z.ltb start 0 then Z.max (len + start) 0
                     else Z.min start len in
  let deleteCount := Z.min 1 (len - actualStart) in
  let i := Z.to_nat actualStart in
  let n := Z.to_nat deleteCount in
  (take n (drop i a), take i a ++ drop (i + n) a).

Definition removeServerEventListener (index : Z) : M Z :=
  removed <- gets (fun s => fst (splice1 index (socketEventsListeners s))) ;;
  modify (fun s => set_socketEventsListeners
            (snd (splice1 index (socketEventsListeners s))) s) ;;
  ret (Z.of_nat (length removed)).

(** ** The constructor (lines 69-91, 357-360, 414-420) *)

(** The URL (made absolute by [getAbsoluteWsUrl]) and the reconnect
    delay are fixed at construction and are not part of the state: the
    socket is identified by the session, and the timer by the operation
    that fires it. *)

(** The built-in server-event listener, [function (event)
    {console.log(event);}]. *)
Definition console_log_listener : fn := 0%nat.

(** The built-in routes: [log] returns nothing (the line it prints with
    [console.info] is not recorded), [ping] returns its argument. *)
Definition log_route : callback := fun _ => Ok VUndef.
Definition ping_route : callback := fun data => Ok data.

Definition empty_table {A} : EventTable (list A) :=
  {| t_onconnect := []; t_onerror := []; t_onclose := []; t_onchange := [] |}.

Definition WSRPC_fields : WSRPC :=
  {| id := 1; eventId := 0; socketStarted := false;
     eventStore := empty_table; connectionNumber := 0;
     oneTimeEventStore := empty_table; callQueue := [];
     socketEventsListeners := [console_log_listener];
     asyncRoutes := ∅; routes := ∅; store := []; socket := None;
     DEBUG := false; TRACE := false; heap := []; thens := []; handed := [];
     jobs := []; timers := 0%nat; sent := []; invoked := []; settled := [];
     console := [] |}.

Definition WSRPC_new : WSRPC :=
  exec (addRoute (VStr "log") log_route VUndef ;;
        addRoute (VStr "ping") ping_route VUndef) WSRPC_fields.

(** ** Everything that can happen to a session *)

(** The public operations, the four handlers of the socket, and what
    the environment does on its own: the transport changing
    [readyState], a reconnect timer firing, a promise job running, an
    asynchronous handler settling the Deferred it was given, and the
    user setting a diagnostic flag. *)
Inductive op :=
| Call (func args params : value)
| AddRoute (route : value) (cb : callback) (isAsync : value)
| DeleteRoute (route : value)
| AddEventListener (event : evName) (func : fn)
| RemoveEventListener (event : evName) (index : value)
| OnEvent (event : evName)
| Destroy
| Connect (ctor : option value)
| AddServerEventListener (callable : fn)
| RemoveServerEventListener (index : Z)
| WsOpen (ev : Event)
| WsClose (err : Event)
| WsError (err : Event)
| WsMessage (message : MessageEvent)
| Transport (r : ReadyState)
| ReconnectTimeout (ctor : option value)
| PromiseJob
| HandlerSettles (l : loc) (c : settle)
| SetDEBUG (b : bool)
| SetTRACE (b : bool).

Definition transport (r : ReadyState) : M unit :=
  modify (fun s => match socket s with
                   | Some _ => set_socket (Some {| readyState := r |}) s
                   | None => s
                   end).

Definition timer_fires (ctor : option value) : M unit :=
  n <- gets timers ;;
  match n with
  | O => ret tt
  | S n' => modify (set_timers n') ;; reconnect_timeout ctor
  end.

Definition promise_job : M unit :=
  js <- gets jobs ;;
  match js with
  | [] => ret tt
  | j :: js' => modify (set_jobs js') ;; run_job j
  end.

Definition handler_settles (l : loc) (c : settle) : M unit :=
  given <- gets (fun s => bool_decide (l ∈ handed s)) ;;
  if given : bool then Deferred_settle l c else ret tt.

Definition discard {A} (m : M A) : M unit := _ <- m ;; ret tt.

Definition step (o : op) : M unit :=
  match o with
  | Call func args params => discard (call func args params)
  | AddRoute route cb isAsync => addRoute route cb isAsync
  | DeleteRoute route => discard (deleteRoute route)
  | AddEventListener event func => discard (addEventListener event func)
  | RemoveEventListener event index => discard (removeEventListener event index)
  | OnEvent event => discard (onEvent event)
  | Destroy => destroy
  | Connect ctor => connect ctor
  | AddServerEventListener callable => discard (addServerEventListener callable)
  | RemoveServerEventListener index => discard (removeServerEventListener index)
  | WsOpen ev => ws_onopen ev
  | WsClose err => ws_onclose err
  | WsError err => ws_onerror err
  | WsMessage message => ws_onmessage message
  | Transport r => transport r
  | ReconnectTimeout ctor => timer_fires ctor
  | PromiseJob => promise_job
  | HandlerSettles l c => handler_settles l c
  | SetDEBUG b => modify (set_DEBUG b)
  | SetTRACE b => modify (set_TRACE b)
  end.

(** A run: each operation starts from the state the previous one left,
    whether it returned or threw. *)
Fixpoint run (os : list op) (s : WSRPC) : WSRPC :=
  match os with
  | [] => s
  | o :: os' => run os' (exec (step o) s)
  end.

(** The ids [makeCall] assigns along a run, in order: [self.id] right
    after each [Call]. *)
Fixpoint call_ids (os : list op) (s : WSRPC) : list Z :=
  match os with
  | [] => []
  | o :: os' =>
      let s' := exec (step o) s in
      match o with
      | Call _ _ _ => id s' :: call_ids os' s'
      | _ => call_ids os' s'
      end
  end.

(** ** Observations used in the statements *)

(** [keeps f m]: running [m] does not change the observation [f] of the
    state, whether [m] returns or throws. *)
Definition keeps {A B} (f : WSRPC -> B) (m : M A) : Prop :=
  forall s, f (snd (m s)) = f s.

(** The operation whose success resets [self.id] (line 126). *)
Definition resets_id (o : op) : bool :=
  match o with
  | ReconnectTimeout _ => true
  | _ => false
  end.

Definition is_call (o : op) : bool :=
  match o with
  | Call _ _ _ => true
  | _ => false
  end.

(** The ids [i + 2], [i + 4], ... of [n] successive calls. *)
Fixpoint ids_from (i : Z) (n : nat) : list Z :=
  match n with
  | O => []
  | S n' => (i + 2) :: ids_from (i + 2) n'
  end.

(** A request of the caller: [call(func, args, params)]. *)
Definition call_op (c : value * value * value) : op :=
  Call (fst (fst c)) (snd (fst c)) (snd c).

(** The envelopes [makeCall] builds for successive requests when the
    counter stands at [i]. *)
Fixpoint envelopes (i : Z) (cs : list (value * value * value)) : list CallObj :=
  match cs with
  | [] => []
  | c :: cs' =>
      {| co_id := i + 2; co_method := fst (fst c); co_params := snd (fst c) |}
      :: envelopes (i + 2) cs'
  end.

(** [returns m]: [m] never throws. *)
Definition returns {A} (m : M A) : Prop :=
  forall s, exists a, fst (m s) = Ok a.

(** The Deferred at [l], if there is one, is no longer pending. *)
Definition settled_at (h : list Deferred) (l : loc) : Prop :=
  match h !! l with
  | Some d => isPending d = false
  | None => True
  end.

(** [preserves P m]: [m] takes a state where [P] holds to one where it
    holds, whether it returns or throws. *)
Definition preserves {A} (P : WSRPC -> Prop) (m : M A) : Prop :=
  forall s, P s -> P (snd (m s)).

(** A session: the states a freshly constructed client can be in. *)
Definition reachable (s : WSRPC) : Prop :=
  exists os, s = run os WSRPC_new.

(** The heap is what the settlements made so far say: no Deferred was
    settled twice, a Deferred that was settled holds the outcome of that
    one settlement, and every other Deferred is as [new Deferred()] left
    it. *)
Definition settled_once (s : WSRPC) : Prop :=
  NoDup (map fst (settled s))
  /\ (forall l, l ∈ map fst (settled s) -> (l < length (heap s))%nat)
  /\ (forall l d, heap s !! l = Some d ->
        (d = new_Deferred /\ l ∉ map fst (settled s))
        \/ (exists c, (l, c) ∈ settled s
                      /\ d = {| done := true; promise := outcome_of c |})).

(** The counter of call ids is odd and positive. *)
Definition odd_id (s : WSRPC) : Prop :=
  Z.odd (id s) = true /\ 1 <= id s.

(** The reply frame a peer sends for the call [i]: [{id, result}] or
    [{id, error}]. *)
Definition reply_frame (i : Z) (c : settle) : value :=
  match c with
  | Resolve r => VObj [("id", VNum i); ("result", r)]
  | Reject e => VObj [("id", VNum i); ("error", e)]
  end.

Definition message_of (frame : value) : MessageEvent :=
  {| type := "message"; data := Ok frame |}.

(** What [handleResult] does with a frame: resolve with its result if
    it has one, reject with its error otherwise. *)
Definition frame_settle (frame : value) (has_result : bool) : settle :=
  if has_result then Resolve (member frame "result")
  else Reject (member frame "error").

(** The reactions of inbound calls are registered on Deferreds that
    exist, and neither a reaction nor a job waiting to run captured a
    connection number ahead of the current one. *)
Definition reactions_ok (s : WSRPC) : Prop :=
  Forall (fun t => (fst t < length (heap s))%nat
                   /\ fst (snd t) <= connectionNumber s) (thens s)
  /\ Forall (fun j => j_connectionNumber j <= connectionNumber s) (jobs s).

(** Every reaction and every waiting job captured a connection number
    below [n]. *)
Definition stale_below (n : Z) (s : WSRPC) : Prop :=
  Forall (fun t => fst (snd t) < n) (thens s)
  /\ Forall (fun j => j_connectionNumber j < n) (jobs s).

(** The reply [handleCall] arranges for the inbound call [frame] when
    its Deferred settles as [c]. *)
Definition inbound_reply (frame : value) (c : settle) : text :=
  JSON_stringify
    (VObj [("id", member frame "id");
           match c with
           | Resolve r => ("result", r)
           | Reject e => ("error", e)
           end]) 0.

(** How a synchronous handler's outcome settles the Deferred of the
    call. *)
Definition handler_settle (r : result value) : settle :=
  match r with
  | Ok v => Resolve v
  | Throw e => Reject e
  end.

(** The operations by which replies to inbound calls get out: a handler
    settling the Deferred it was given, and a promise job running. *)
Definition settles_or_job (o : op) : bool :=
  match o with
  | HandlerSettles _ _ | PromiseJob => true
  | _ => false
  end.

(** The ids of the durable listeners registered so far lie below the
    counter that hands them out. *)
Definition listeners_ok (s : WSRPC) : Prop :=
  forall e, Forall (fun kv => fst kv < eventId s) (tget e (eventStore s)).

#[global] Instance evName_eq_dec : EqDecision evName.
Proof. solve_decision. Defined.

(** What the close and error handlers leave alone while they reject:
    the timers, the frames transmitted, the listeners called, the
    listener tables and the socket. *)
Definition quiet_obs (s : WSRPC)
    : nat * list text * list (fn * value) * EventTable (list (Z * fn))
      * option WebSocket :=
  (timers s, sent s, invoked s, eventStore s, socket s).

(** What firing an event leaves alone. *)
Definition firing_obs (s : WSRPC)
    : nat * list text * list CallObj * Z * list (Z * loc)
      * EventTable (list (Z * fn)) * option WebSocket :=
  (timers s, sent s, callQueue s, connectionNumber s, store s, eventStore s,
   socket s).

(** The future at [l] is pending, or it was rejected with [r]. *)
Definition rejects_only (r : value) (l : loc) (s : WSRPC) : Prop :=
  heap s !! l = Some new_Deferred
  \/ heap s !! l = Some {| done := true; promise := Rejected r |}.

(** ** getAbsoluteWsUrl (lines 48-59) *)

(** The URL is a JavaScript string, a sequence of UTF-16 code units:
    the two regular expressions of the function classify code units
    ([\w], line terminators), so the URL is modelled as the list of its
    units. *)
Definition jsstring := list Z.

(** The units of an ASCII literal of the source. *)
Definition units (s : string) : jsstring :=
  map (fun a => Z.of_N (Ascii.N_of_ascii a)) (String.list_ascii_of_string s).

(** [\w] without the [u] and [i] flags: [A-Za-z0-9_]. *)
Definition is_word (c : Z) : bool :=
  (48 <=? c) && (c <=? 57) || (65 <=? c) && (c <=? 90)
  || (97 <=? c) && (c <=? 122) || (c =? 95).

(** LineTerminator: LF, CR, LS and PS. *)
Definition is_line_terminator (c : Z) : bool :=
  (c =? 10) || (c =? 13) || (c =? 8232) || (c =? 8233).

Fixpoint skip_word (u : jsstring) : jsstring :=
  match u with
  | c :: u' => if is_word c then skip_word u' else u
  | [] => []
  end.

(** [(/^\w+:\/\//).test(url)]: a colon is no word character, so only
    the longest run of word characters can be followed by [://]. *)
Definition test_scheme (url : jsstring) : bool :=
  match url with
  | c :: u' =>
      is_word c
      && match skip_word u' with
         | a :: b :: d :: _ => (a =? 58) && (b =? 47) && (d =? 47)
         | _ => false
         end
  | [] => false
  end.

(** [url.replace(/^\/+/gm, '')]: with the [m] flag [^] holds at the
    start of the input and after every line terminator, and the [g] flag
    removes the run of slashes found at each of these places. *)
Fixpoint strip_slashes (at_line_start : bool) (u : jsstring) : jsstring :=
  match u with
  | [] => []
  | c :: u' =>
      if at_line_start && (c =? 47) then strip_slashes true u'
      else c :: strip_slashes (is_line_terminator c) u'
  end.

(** [window.location], where there is a [window]. *)
Record Location := {
  protocol : jsstring;
  host : jsstring;
  port : jsstring
}.

(** [window] is [None] where the global is not declared: [typeof window]
    is then ['undefined'] and the second operand of [&&] reads
    [window.location], which is a ReferenceError; with a [window] the
    first operand is false and the [throw] of lines 51-53 is skipped. *)
Definition getAbsoluteWsUrl (window : option Location) (url : jsstring)
    : result jsstring :=
  if test_scheme url then Ok url
  else
    match window with
    | None => Throw (VError "window is not defined")
    | Some location =>
        let scheme := if bool_decide (protocol location = units "https:")
                      then units "wss:" else units "ws:" in
        let port := if bool_decide (port location = [])
                    then units ":" ++ port location else [] in
        let host := host location in
        let path := strip_slashes true url in
        Ok (scheme ++ units "//" ++ host ++ port ++ units "/" ++ path)
    end.

(** A string without the slashes it starts with. *)
Fixpoint drop_slashes (u : jsstring) : jsstring :=
  match u with
  | c :: u' => if c =? 47 then drop_slashes u' else u
  | [] => []
  end.

(** A call of the listener [f] on [v] that [tryCallEvent] takes care
    of: [f] returns, or what it throws can be asked
    [hasOwnProperty('stack')]. *)
Definition handled (v : value) (f : fn) : bool :=
  match fn_call f v with
  | Ok _ => true
  | Throw e =>
      match hasOwnProperty e "stack" with
      | Ok _ => true
      | Throw _ => false
      end
  end.

Definition all_handled (v : value) (listeners : list (Z * fn)) : bool :=
  forallb (fun kv => handled v (snd kv)) listeners.

(** The listeners a firing gets to call: those up to the first whose
    exception leaves [tryCallEvent], that one included. *)
Fixpoint called (v : value) (listeners : list (Z * fn)) : list (Z * fn) :=
  match listeners with
  | [] => []
  | kv :: listeners' =>
      if handled v (snd kv) then kv :: called v listeners' else [kv]
  end.

(** Whether a name has an opening bracket in it: the name of an own
    property of the store and the names [Object.prototype] has do not,
    the name a value that cannot be converted would have had does. *)
Fixpoint has_bracket (s : string) : bool :=
  match s with
  | EmptyString => false
  | String c s' => Ascii.eqb c (Ascii.ascii_of_nat 91) || has_bracket s'
  end.

(** [data.method] of [frame] names the route [f]: it converts to the
    property name [name], the table has [f] under it, and no route is
    registered under the name [hasOwnProperty], which would answer the
    test of line 204 in place of the table. *)
Definition routed (frame : value) (name : string) (f : callback) (s : WSRPC)
    : Prop :=
  routes s !! "hasOwnProperty" = None
  /\ ToPropertyKey (member frame "method") = Ok name
  /\ routes s !! name = Some f.

(** What calling the durable listeners leaves alone: everything but the
    record of the calls and the console. *)
Definition durable_obs (s : WSRPC)
    : EventTable (list loc) * list Deferred * list (loc * settle) * list text :=
  (oneTimeEventStore s, heap s, settled s, sent s).

(** The integers a double holds exactly, with their neighbours: the
    counters of the client ([self.id], [self.eventId]) are doubles, and
    [+= 2] and [++] are the sums of integers as long as they stay in
    this range. *)
Definition safe_integer (z : Z) : Prop := - 2 ^ 53 < z < 2 ^ 53.

(** * Properties *)

(** ** The Single-Result Future *)

Lemma settle_done (c : settle) (d : Deferred) :
  done d = true ->
  apply_settle c d = (Throw (VError "Promise already done"), d).
Proof.
  intros Hd. destruct c; unfold apply_settle, resolve, reject, wrapper;
    rewrite Hd; reflexivity.
Qed.

Lemma settle_fresh (c : settle) :
  apply_settle c new_Deferred
  = (Ok tt, {| done := true; promise := outcome_of c |}).
Proof. destruct c; reflexivity. Qed.

Lemma settle_all_done (cs : list settle) (d : Deferred) :
  done d = true ->
  settle_all cs d
  = (repeat (Throw (VError "Promise already done")) (length cs), d).
Proof.
  intros Hd. induction cs as [|c cs IH]; simpl.
  - reflexivity.
  - rewrite settle_done by assumption. rewrite IH. reflexivity.
Qed.

(** C9. A Deferred is created pending; the first call of [resolve] or
    [reject] returns and settles it with the outcome of that call; every
    later call of either raises 'Promise already done' and changes
    nothing; [isPending] is true exactly as long as no call was made. *)
Theorem Deferred_settles_exactly_once :
  isPending new_Deferred = true /\
  (forall (c : settle) (cs : list settle),
      settle_all (c :: cs) new_Deferred
      = (Ok tt :: repeat (Throw (VError "Promise already done")) (length cs),
         {| done := true; promise := outcome_of c |})
      /\ isPending (snd (settle_all (c :: cs) new_Deferred)) = false) /\
  (forall cs : list settle,
      isPending (snd (settle_all cs new_Deferred)) = true <-> cs = []).
Proof.
  split; [reflexivity|]. split.
  - intros c cs. cbn [settle_all]. rewrite settle_fresh.
    rewrite settle_all_done by reflexivity. split; reflexivity.
  - intros [|c cs]; split; intros H; try reflexivity; try discriminate.
    exfalso. revert H. cbn [settle_all]. rewrite settle_fresh.
    rewrite settle_all_done by reflexivity. discriminate.
Qed.

(** ** The route table *)

Lemma deleteRoute_returns_true (route : value) (name : string) (s : WSRPC) :
  ToPropertyKey route = Ok name ->
  eval (deleteRoute route) s = Ok true
  /\ routes (exec (deleteRoute route) s) = delete name (routes s).
Proof.
  intros H. unfold eval, exec, deleteRoute, bind, lift. rewrite H.
  split; reflexivity.
Qed.

(** C4, at the failing input. No route named doStuff is registered in a
    fresh session, and [deleteRoute] answers [true] all the same, where
    the specification asks for [false]. *)
Theorem deleteRoute_absent_route_true :
  routes WSRPC_new !! "doStuff" = None
  /\ eval (deleteRoute (VStr "doStuff")) WSRPC_new = Ok true.
Proof. split; [vm_compute; reflexivity | reflexivity]. Qed.

(** ** The server-event listeners *)

Lemma splice1_in_range {A} (i : nat) (a : list A) :
  (i < length a)%nat ->
  splice1 (Z.of_nat i) a = (take 1 (drop i a), take i a ++ drop (S i) a).
Proof.
  intros Hi. unfold splice1.
  assert ((Z.of_nat i <? 0) = false) as -> by lia.
  replace (Z.min (Z.of_nat i) (Z.of_nat (length a))) with (Z.of_nat i) by lia.
  replace (Z.min 1 (Z.of_nat (length a) - Z.of_nat i)) with 1 by lia.
  rewrite Nat2Z.id. change (Z.to_nat 1) with 1%nat.
  replace (i + 1)%nat with (S i) by lia. reflexivity.
Qed.

Lemma lookup_remove_before {A} (i j : nat) (a : list A) :
  (j < i)%nat -> (i < length a)%nat ->
  (take i a ++ drop (S i) a) !! j = a !! j.
Proof.
  intros Hj Hi. rewrite lookup_app_l by (rewrite length_take; lia).
  apply lookup_take_lt. lia.
Qed.

Lemma lookup_remove_after {A} (i j : nat) (a : list A) :
  (i <= j)%nat -> (i < length a)%nat ->
  (take i a ++ drop (S i) a) !! j = a !! S j.
Proof.
  intros Hj Hi. rewrite lookup_app_r by (rewrite length_take; lia).
  rewrite length_take, lookup_drop. f_equal. lia.
Qed.

Lemma removeServerEventListener_run (index : Z) (s : WSRPC) :
  removeServerEventListener index s
  = (Ok (Z.of_nat (length (fst (splice1 index (socketEventsListeners s))))),
     set_socketEventsListeners
       (snd (splice1 index (socketEventsListeners s))) s).
Proof. reflexivity. Qed.

(** C10. A fresh session holds the built-in logging listener at position
    0, so the first [addServerEventListener] returns 1.  Removing an
    occupied position [i] returns 1 and deletes that element: earlier
    positions keep their listener and every later listener moves down by
    one, so the position [j > i] that [addServerEventListener] returned
    for a listener now holds the next one (a different one, when no
    function is registered twice), and the listener is found at
    [j - 1]. *)
Theorem removeServerEventListener_shifts
    (s : WSRPC) (i : nat) (callable : fn)
    (Hi : (i < length (socketEventsListeners s))%nat) :
  let before := socketEventsListeners s in
  let after := socketEventsListeners
                 (exec (removeServerEventListener (Z.of_nat i)) s) in
  socketEventsListeners WSRPC_new = [console_log_listener]
  /\ eval (addServerEventListener callable) WSRPC_new = Ok 1
  /\ eval (removeServerEventListener (Z.of_nat i)) s = Ok 1
  /\ after = take i before ++ drop (S i) before
  /\ (forall j, (j < i)%nat -> after !! j = before !! j)
  /\ (forall j, (i <= j)%nat -> after !! j = before !! S j)
  /\ (forall j f, (i < j)%nat -> before !! j = Some f ->
        after !! (j - 1)%nat = Some f
        /\ (NoDup before -> after !! j <> Some f)).
Proof.
  intros before after.
  assert (Hafter : after = take i before ++ drop (S i) before).
  { unfold after, exec. rewrite removeServerEventListener_run.
    rewrite splice1_in_range by assumption. reflexivity. }
  split; [reflexivity|]. split; [reflexivity|]. split.
  { unfold eval. rewrite removeServerEventListener_run.
    rewrite splice1_in_range by assumption. cbn [fst].
    rewrite length_take, length_drop. f_equal. lia. }
  split; [exact Hafter|]. rewrite Hafter.
  split; [intros j Hj; apply lookup_remove_before; assumption|].
  split; [intros j Hj; apply lookup_remove_after; assumption|].
  intros j f Hj Hf. split.
  - rewrite lookup_remove_after by (assumption || lia).
    replace (S (j - 1)) with j by lia. exact Hf.
  - intros Hnd Habs. rewrite lookup_remove_after in Habs by (assumption || lia).
    pose proof (NoDup_lookup _ _ _ _ Hnd Hf Habs). lia.
Qed.

Lemma removeServerEventListener_shifts_witness :
  let s := exec (addServerEventListener 7%nat ;; addServerEventListener 8%nat)
             WSRPC_new in
  (1 < length (socketEventsListeners s))%nat
  /\ socketEventsListeners (exec (removeServerEventListener 1) s)
     = [console_log_listener; quiet_listener 8].
Proof.
  intros s. split; [vm_compute; lia|].
  pose proof (removeServerEventListener_shifts s 1 7%nat) as H.
  destruct H as (_ & _ & _ & H & _); [vm_compute; lia|].
  exact H.
Defined.

(** ** Frame reasoning: what a computation leaves alone *)

Section Keeps.
Context {B : Type} (f : WSRPC -> B).

Lemma keeps_ret {A} (a : A) : keeps f (ret a).
Proof. intros s. reflexivity. Qed.

Lemma keeps_throw {A} (e : value) : keeps f (@throw A e).
Proof. intros s. reflexivity. Qed.

Lemma keeps_gets {A} (g : WSRPC -> A) : keeps f (gets g).
Proof. intros s. reflexivity. Qed.

Lemma keeps_lift {A} (r : result A) : keeps f (lift r).
Proof. intros s. reflexivity. Qed.

Lemma keeps_modify (g : WSRPC -> WSRPC) :
  (forall s, f (g s) = f s) -> keeps f (modify g).
Proof. intros Hg s. apply Hg. Qed.

Lemma keeps_bind {A C} (m : M A) (k : A -> M C) :
  keeps f m -> (forall a, keeps f (k a)) -> keeps f (bind m k).
Proof.
  intros Hm Hk s. unfold bind. specialize (Hm s).
  destruct (m s) as [[a|e] s']; simpl in *.
  - rewrite Hk. exact Hm.
  - exact Hm.
Qed.

Lemma keeps_try_catch {A} (m : M A) (h : value -> M A) :
  keeps f m -> (forall e, keeps f (h e)) -> keeps f (try_catch m h).
Proof.
  intros Hm Hh s. unfold try_catch. specialize (Hm s).
  destruct (m s) as [[a|e] s']; simpl in *.
  - exact Hm.
  - rewrite Hh. exact Hm.
Qed.
End Keeps.

Create HintDb keeps discriminated.

Ltac head_of t :=
  lazymatch t with
  | ?g _ => head_of g
  | _ => t
  end.

(** The loops are handled by their own lemmas, never unfolded. *)
Ltac is_loop h :=
  lazymatch h with
  | @rejectQueue_calls => idtac
  | @rejectQueue_store => idtac
  | @callEvents_oneTime => idtac
  | @callEvents_durable => idtac
  | @onclose_store => idtac
  | @onopen_flush => idtac
  | @onmessage_listeners => idtac
  end.

(** A state transformer written out as a function of the state. *)
Ltac frame_prim :=
  let s := fresh "s" in
  intros s;
  cbv beta delta [Deferred_new Deferred_settle socket_send socket_close
                    modify gets ret throw lift];
  repeat case_match; reflexivity.

Ltac frame :=
  lazymatch goal with
  | |- keeps _ (bind _ _) => apply keeps_bind; [frame | intros ?; frame]
  | |- keeps _ (try_catch _ _) =>
      apply keeps_try_catch; [frame | intros ?; frame]
  | |- keeps _ (ret _) => apply keeps_ret
  | |- keeps _ (throw _) => apply keeps_throw
  | |- keeps _ (gets _) => apply keeps_gets
  | |- keeps _ (lift _) => apply keeps_lift
  | |- keeps _ (if ?b then _ else _) => destruct b; frame
  | |- keeps _ (match ?x with _ => _ end) => destruct x; frame
  | |- keeps _ ?m =>
      let h := head_of m in
      first
        [ is_loop h; solve [auto with keeps]
        | assumption
        | frame_prim
        | progress (unfold h; cbv zeta); frame ]
  end.

Ltac frame_loop :=
  let q := fresh "q" in
  let IH := fresh "IH" in
  intros q; induction q as [|? q IH]; intros; cbn [rejectQueue_calls
    rejectQueue_store callEvents_oneTime callEvents_durable onclose_store
    onopen_flush onmessage_listeners]; frame.

(** *** The call id *)

Lemma keeps_id_rejectQueue_calls : forall q, keeps id (rejectQueue_calls q).
Proof. frame_loop. Qed.
Lemma keeps_id_rejectQueue_store : forall q, keeps id (rejectQueue_store q).
Proof. frame_loop. Qed.
Lemma keeps_id_callEvents_oneTime :
  forall q e, keeps id (callEvents_oneTime e q).
Proof. frame_loop. Qed.
Lemma keeps_id_callEvents_durable :
  forall q v, keeps id (callEvents_durable q v).
Proof. frame_loop. Qed.
Lemma keeps_id_onclose_store : forall q, keeps id (onclose_store q).
Proof. frame_loop. Qed.
Lemma keeps_id_onopen_flush : forall q, keeps id (onopen_flush q).
Proof. frame_loop. Qed.
Lemma keeps_id_onmessage_listeners :
  forall q v, keeps id (onmessage_listeners q v).
Proof. frame_loop. Qed.

#[export] Hint Resolve keeps_id_rejectQueue_calls keeps_id_rejectQueue_store
  keeps_id_callEvents_oneTime keeps_id_callEvents_durable
  keeps_id_onclose_store keeps_id_onopen_flush keeps_id_onmessage_listeners
  : keeps.

Lemma step_id (o : op) (s : WSRPC) :
  resets_id o = false ->
  id (exec (step o) s) = if is_call o then id s + 2 else id s.
Proof.
  intros Ho. destruct o; try discriminate Ho; unfold exec, step, is_call;
    try (match goal with |- id (snd (?m s)) = id s =>
           assert (keeps id m) as Hk by frame; apply Hk end).
  unfold discard, call, makeCall.
  match goal with
  | |- id (snd (bind (bind (modify ?g) ?k) ?k' s)) = _ =>
      change (id (snd (bind (k tt) k' (g s))) = id (g s));
      assert (keeps id (bind (k tt) k')) as Hk by frame; apply Hk
  end.
Qed.

Lemma ids_from_lt (i : Z) (n : nat) (x : Z) : x ∈ ids_from i n -> i < x.
Proof.
  revert i. induction n as [|n IH]; intros i Hx; simpl in Hx.
  - inversion Hx.
  - apply elem_of_cons in Hx as [->|Hx]; [lia|]. apply IH in Hx. lia.
Qed.

Lemma ids_from_NoDup (i : Z) (n : nat) : NoDup (ids_from i n).
Proof.
  revert i. induction n as [|n IH]; intros i; simpl; constructor.
  - intros Hin. apply ids_from_lt in Hin. lia.
  - apply IH.
Qed.

Lemma ids_from_safe (i : Z) (n : nat) :
  safe_integer i -> safe_integer (i + 2 * Z.of_nat n) ->
  Forall safe_integer (ids_from i n).
Proof.
  revert i. induction n as [|n IH]; intros i Hi Hn; cbn [ids_from];
    constructor.
  - unfold safe_integer in *. lia.
  - apply IH.
    + unfold safe_integer in *. lia.
    + replace (i + 2 + 2 * Z.of_nat n) with (i + 2 * Z.of_nat (S n)) by lia.
      exact Hn.
Qed.

(** C1, as the code has it. Along any run in which the reconnect timer
    does not fire, and as long as the counter stays a safe integer (it is
    one before the run, and so is the value that many additions of 2 take
    it to), the calls receive the ids [id + 2], [id + 4], ... in the
    order they are issued, whatever else happens in between (transport
    events included), so they increase by 2 from one call to the next and
    no two calls receive the same id; each id is a safe integer. *)
Theorem call_ids_between_reconnects (os : list op) (s : WSRPC) :
  forallb (fun o => negb (resets_id o)) os = true ->
  let n := length (filter (fun o => is_call o = true) os) in
  safe_integer (id s) ->
  safe_integer (id s + 2 * Z.of_nat n) ->
  call_ids os s = ids_from (id s) n
  /\ NoDup (call_ids os s)
  /\ Forall safe_integer (call_ids os s).
Proof.
  intros Hos n Hlo Hhi. subst n.
  assert (Heq : call_ids os s
                = ids_from (id s) (length (filter (fun o => is_call o = true) os))).
  { clear Hlo Hhi. revert s.
    induction os as [|o os IH]; intros s; [reflexivity|].
    simpl in Hos. apply andb_prop in Hos as [Ho Hos].
    apply negb_true_iff in Ho. specialize (IH Hos).
    pose proof (step_id o s Ho) as Hid.
    cbn [call_ids]. rewrite filter_cons.
    destruct o; cbn [is_call] in *; rewrite IH, Hid;
      repeat case_decide; try discriminate; try congruence; reflexivity. }
  split; [exact Heq|]. rewrite Heq.
  split; [apply ids_from_NoDup|apply ids_from_safe; assumption].
Qed.

(** C1 as the specification states it fails across a reconnection: the
    timer armed by a close event resets [self.id] to 1, and the next call
    receives the id 3 that the first call of the session already had. *)
Lemma call_ids_reused_after_reconnect :
  let ping := Call (VStr "ping") (VStr "hi") VUndef in
  let ev := {| e_type := "close" |} in
  let os := [Connect None; Transport OPEN; ping; ping; Transport CLOSED;
             WsClose ev; ReconnectTimeout None; Transport OPEN; ping] in
  call_ids os WSRPC_new = [3; 5; 3] /\ ~ NoDup (call_ids os WSRPC_new).
Proof.
  intros ping ev os.
  assert (H : call_ids os WSRPC_new = [3; 5; 3]) by (vm_compute; reflexivity).
  split; [exact H|]. rewrite H. intros Hnd.
  apply NoDup_cons in Hnd as [Hnotin _]. apply Hnotin.
  apply elem_of_cons. right. apply elem_of_cons. left. reflexivity.
Qed.

Lemma call_ids_between_reconnects_witness :
  let ping := Call (VStr "ping") (VStr "hi") VUndef in
  let os := [Connect None; ping; Transport OPEN;
             WsOpen {| e_type := "open" |}; ping; ping] in
  forallb (fun o => negb (resets_id o)) os = true
  /\ call_ids os WSRPC_new = [3; 5; 7]
  /\ NoDup (call_ids os WSRPC_new).
Proof.
  intros ping os.
  assert (Hlo : safe_integer (id WSRPC_new))
    by (vm_compute; split; reflexivity).
  assert (Hhi : safe_integer
                  (id WSRPC_new
                   + 2 * Z.of_nat
                           (length (filter (fun o => is_call o = true) os))))
    by (vm_compute; split; reflexivity).
  pose proof (call_ids_between_reconnects os WSRPC_new eq_refl Hlo Hhi)
    as (H1 & H2 & _).
  split; [reflexivity|]. split; [|exact H2].
  rewrite H1. vm_compute. reflexivity.
Defined.

(** *** The connection number *)

Lemma keeps_cn_rejectQueue_calls :
  forall q, keeps connectionNumber (rejectQueue_calls q).
Proof. frame_loop. Qed.
Lemma keeps_cn_rejectQueue_store :
  forall q, keeps connectionNumber (rejectQueue_store q).
Proof. frame_loop. Qed.
Lemma keeps_cn_callEvents_oneTime :
  forall q e, keeps connectionNumber (callEvents_oneTime e q).
Proof. frame_loop. Qed.
Lemma keeps_cn_callEvents_durable :
  forall q v, keeps connectionNumber (callEvents_durable q v).
Proof. frame_loop. Qed.
Lemma keeps_cn_onclose_store :
  forall q, keeps connectionNumber (onclose_store q).
Proof. frame_loop. Qed.
Lemma keeps_cn_onopen_flush :
  forall q, keeps connectionNumber (onopen_flush q).
Proof. frame_loop. Qed.
Lemma keeps_cn_onmessage_listeners :
  forall q v, keeps connectionNumber (onmessage_listeners q v).
Proof. frame_loop. Qed.

#[export] Hint Resolve keeps_cn_rejectQueue_calls keeps_cn_rejectQueue_store
  keeps_cn_callEvents_oneTime keeps_cn_callEvents_durable
  keeps_cn_onclose_store keeps_cn_onopen_flush keeps_cn_onmessage_listeners
  : keeps.

(** Whatever follows a computation that sets the observation [f] to a
    known value, and keeps it, leaves that value. *)
Lemma bind_keeps_after {A C B} (f : WSRPC -> B) (g : WSRPC -> B)
    (m : M A) (k : A -> M C) :
  (forall s, f (snd (m s)) = g s) ->
  (forall a, keeps f (k a)) ->
  forall s, f (snd (bind m k s)) = g s.
Proof.
  intros Hm Hk s. unfold bind. specialize (Hm s).
  destruct (m s) as [[a|e] s']; simpl in *.
  - rewrite Hk. exact Hm.
  - exact Hm.
Qed.

Lemma rejectQueue_increments (s : WSRPC) :
  connectionNumber (snd (rejectQueue s)) = connectionNumber s + 1.
Proof.
  unfold rejectQueue.
  match goal with
  | |- connectionNumber (snd (bind (modify ?g) ?k s)) = _ =>
      change (connectionNumber (snd (k tt (g s))) = connectionNumber (g s));
      assert (keeps connectionNumber (k tt)) as Hk by frame; apply Hk
  end.
Qed.

(** [log] and [trace] on a lifecycle event return, and write to the
    console only. *)
Lemma set_console_same (s : WSRPC) : set_console (console s) s = s.
Proof. destruct s; reflexivity. Qed.

Lemma log_runs (args : list value) (s : WSRPC) :
  exists c, log args s = (Ok tt, set_console c s).
Proof.
  unfold log, logGroup, bind, gets, modify, ret.
  destruct (DEBUG s); simpl; eexists; [reflexivity|].
  rewrite set_console_same. reflexivity.
Qed.

Lemma trace_event_runs (msg : Event) (s : WSRPC) :
  exists c, trace_event msg s = (Ok tt, set_console c s).
Proof.
  unfold trace_event, logGroup, bind, gets, modify, ret.
  destruct (TRACE s); simpl; eexists; [reflexivity|].
  rewrite set_console_same. reflexivity.
Qed.

Lemma ws_onerror_increments (err : Event) (s : WSRPC) :
  connectionNumber (snd (ws_onerror err s)) = connectionNumber s + 1.
Proof.
  unfold ws_onerror.
  change (bind (gets state) ?k s) with (k (state s) s). cbv beta.
  destruct (log_runs [VStr "ONERROR CALLED"; VStr "STATE"; VStr (state s)] s)
    as [c1 H1].
  unfold bind at 1. rewrite H1.
  destruct (trace_event_runs err (set_console c1 s)) as [c2 H2].
  unfold bind at 1. rewrite H2.
  rewrite (bind_keeps_after connectionNumber
             (fun s => connectionNumber s + 1)).
  - reflexivity.
  - apply rejectQueue_increments.
  - intros a. frame.
Qed.

Lemma ws_onclose_increments (err : Event) (s : WSRPC) :
  connectionNumber (snd (ws_onclose err s))
  = connectionNumber s
    + match eval (onclose_rejects err) s with
      | Ok _ => 1
      | Throw _ => 0
      end.
Proof.
  assert (Hpre : keeps connectionNumber (onclose_rejects err)) by frame.
  unfold ws_onclose, eval. unfold bind at 1. specialize (Hpre s).
  destruct (onclose_rejects err s) as [[a|e] s']; simpl in *.
  - rewrite (bind_keeps_after connectionNumber
               (fun s => connectionNumber s + 1)).
    + rewrite Hpre. reflexivity.
    + apply rejectQueue_increments.
    + intros ?. frame.
  - rewrite Hpre. lia.
Qed.

(** C3, as the code has it. The connection number is incremented by
    [rejectQueue] and by nothing else: once by every error event, once by
    every close event whose handler gets as far as [rejectQueue], and not
    at all by [connect], by the reconnect timer (the two places that
    construct a transport) or by any other operation. *)
Theorem connectionNumber_incremented_by_rejectQueue (o : op) (s : WSRPC) :
  connectionNumber (exec (step o) s)
  = connectionNumber s
    + match o with
      | WsError _ => 1
      | WsClose err =>
          match eval (onclose_rejects err) s with
          | Ok _ => 1
          | Throw _ => 0
          end
      | _ => 0
      end.
Proof.
  destruct o; unfold exec, step;
    try (rewrite Z.add_0_r;
         match goal with |- connectionNumber (snd (?m s)) = connectionNumber s =>
           assert (keeps connectionNumber m) as Hk by frame; apply Hk end).
  - apply ws_onclose_increments.
  - apply ws_onerror_increments.
Qed.

(** C3 as the specification states it fails: [connect] on a fresh
    session constructs the transport and the connection number stays 0,
    and the error event that follows increments it while no transport is
    constructed. *)
Lemma connect_leaves_connectionNumber :
  let s1 := exec (step (Connect None)) WSRPC_new in
  let s2 := exec (step (WsError {| e_type := "error" |})) s1 in
  socket WSRPC_new = None
  /\ socket s1 = Some {| readyState := CONNECTING |}
  /\ connectionNumber s1 = connectionNumber WSRPC_new
  /\ connectionNumber s1 <> connectionNumber WSRPC_new + 1
  /\ socket s2 = socket s1
  /\ connectionNumber s2 = connectionNumber s1 + 1.
Proof. vm_compute. repeat split; congruence. Qed.

(** ** Handlers that cannot throw *)

Lemma bind_run {A C} (m : M A) (k : A -> M C) (s s' : WSRPC) (a : A) :
  m s = (Ok a, s') -> bind m k s = k a s'.
Proof. intros H. unfold bind. rewrite H. reflexivity. Qed.

Lemma bind_throws {A C} (m : M A) (k : A -> M C) (s s' : WSRPC) (e : value) :
  m s = (Throw e, s') -> bind m k s = (Throw e, s').
Proof. intros H. unfold bind. rewrite H. reflexivity. Qed.

Lemma returns_ret {A} (a : A) : returns (ret a).
Proof. intros s. exists a. reflexivity. Qed.

Lemma returns_gets {A} (g : WSRPC -> A) : returns (gets g).
Proof. intros s. exists (g s). reflexivity. Qed.

Lemma returns_modify (g : WSRPC -> WSRPC) : returns (modify g).
Proof. intros s. exists tt. reflexivity. Qed.

Lemma returns_bind {A C} (m : M A) (k : A -> M C) :
  returns m -> (forall a, returns (k a)) -> returns (bind m k).
Proof.
  intros Hm Hk s. unfold bind. destruct (Hm s) as [a Ha].
  destruct (m s) as [r s']. cbn [fst] in Ha. subst r. apply Hk.
Qed.

Lemma returns_unit (m : M unit) (s : WSRPC) : returns m -> fst (m s) = Ok tt.
Proof. intros H. destruct (H s) as [[] Ha]. exact Ha. Qed.

Lemma bind_returns_run {C} (m : M unit) (k : unit -> M C) (s : WSRPC) :
  returns m -> bind m k s = k tt (snd (m s)).
Proof.
  intros H. pose proof (returns_unit m s H) as Hr. unfold bind.
  destruct (m s) as [r s']. cbn [fst snd] in *. subst r. reflexivity.
Qed.

(** A settlement guarded by [isPending] goes through. *)
Lemma settle_if_pending_returns (l : loc) (c : settle) :
  returns (p <- Deferred_isPending l ;;
           if p then Deferred_settle l c else ret tt).
Proof.
  intros s. exists tt.
  unfold Deferred_isPending, Deferred_settle, bind, gets, ret. cbn [fst snd].
  destruct (heap s !! l) as [d|] eqn:Hl; [|reflexivity].
  destruct (isPending d) eqn:Hp; [|reflexivity].
  rewrite Hl. unfold isPending in Hp. apply negb_true_iff in Hp.
  destruct c; unfold apply_settle, resolve, reject, wrapper; rewrite Hp;
    reflexivity.
Qed.

Lemma reject_if_pending_returns (deferred : option loc) (reason : value) :
  returns (reject_if_pending deferred reason).
Proof.
  destruct deferred as [l|]; [|apply returns_ret].
  apply settle_if_pending_returns.
Qed.

Lemma log_returns (args : list value) : returns (log args).
Proof.
  intros s. destruct (log_runs args s) as [c H]. rewrite H. eauto.
Qed.

Lemma trace_event_returns (msg : Event) : returns (trace_event msg).
Proof.
  intros s. destruct (trace_event_runs msg s) as [c H]. rewrite H. eauto.
Qed.

Ltac returns_binds :=
  repeat lazymatch goal with
    | |- returns (bind _ _) => apply returns_bind; [|intros ?]
    end.

Lemma rejectQueue_calls_returns (q : list CallObj) :
  returns (rejectQueue_calls q).
Proof.
  induction q as [|c q IH]; cbn [rejectQueue_calls]; [apply returns_ret|].
  returns_binds;
    auto using returns_modify, returns_gets, reject_if_pending_returns.
Qed.

Lemma rejectQueue_store_returns (keys : list string) :
  returns (rejectQueue_store keys).
Proof.
  induction keys as [|k keys IH]; cbn [rejectQueue_store]; [apply returns_ret|].
  returns_binds;
    auto using returns_gets, reject_if_pending_returns.
Qed.

Lemma rejectQueue_returns : returns rejectQueue.
Proof.
  unfold rejectQueue.
  returns_binds;
    auto using returns_modify, returns_gets, rejectQueue_calls_returns,
      rejectQueue_store_returns.
Qed.

Lemma callEvents_oneTime_returns (e : evName) (q : list loc) :
  returns (callEvents_oneTime e q).
Proof.
  induction q as [|l q IH]; cbn [callEvents_oneTime]; [apply returns_ret|].
  apply returns_bind; [apply returns_modify|intros _].
  change (returns ((p <- Deferred_isPending l ;;
                    if p then Deferred_settle l (Resolve VUndef) else ret tt) ;;
                   callEvents_oneTime e q)).
  apply returns_bind; [apply settle_if_pending_returns|intros _; exact IH].
Qed.

Lemma keeps_eventStore_callEvents_oneTime :
  forall q e, keeps eventStore (callEvents_oneTime e q).
Proof. frame_loop. Qed.
Lemma keeps_invoked_callEvents_oneTime :
  forall q e, keeps invoked (callEvents_oneTime e q).
Proof. frame_loop. Qed.

(** A listener that returns, or throws what the [catch] can look at. *)
Lemma tryCallEvent_handled (f : fn) (v : value) (s : WSRPC) :
  handled v f = true ->
  exists c,
    tryCallEvent f v s
    = (Ok tt, set_console c (set_invoked (invoked s ++ [(f, v)]) s)).
Proof.
  intros H. unfold handled in H.
  unfold tryCallEvent, bind, modify, lift, gets, logGroup, console_error, ret.
  destruct (fn_call f v) as [r|e].
  - eexists. rewrite set_console_same. reflexivity.
  - destruct (hasOwnProperty e "stack") as [b|e']; [|discriminate H].
    cbn [DEBUG set_invoked]. destruct (DEBUG s); eexists; reflexivity.
Qed.

(** A listener whose exception leaves the [catch]. *)
Lemma tryCallEvent_unhandled (f : fn) (v : value) (s : WSRPC) :
  handled v f = false ->
  exists e,
    tryCallEvent f v s
    = (Throw e, set_invoked (invoked s ++ [(f, v)]) s).
Proof.
  intros H. unfold handled in H.
  unfold tryCallEvent, bind, modify, lift.
  destruct (fn_call f v) as [r|e]; [discriminate H|].
  destruct (hasOwnProperty e "stack") as [b|e']; [discriminate H|].
  eexists. reflexivity.
Qed.

Lemma called_all (v : value) (listeners : list (Z * fn)) :
  all_handled v listeners = true -> called v listeners = listeners.
Proof.
  induction listeners as [|kv ls IH]; [reflexivity|].
  cbn [all_handled forallb called]. intros H.
  apply andb_true_iff in H as [H1 H2]. rewrite H1. f_equal. apply IH, H2.
Qed.

(** The loop over the durable listeners stops at the first exception
    that leaves [tryCallEvent]. *)
Lemma callEvents_durable_invoked
    (listeners : list (Z * fn)) (v : value) (s : WSRPC) :
  invoked (snd (callEvents_durable listeners v s))
  = invoked s ++ map (fun kv => (snd kv, v)) (called v listeners).
Proof.
  revert s. induction listeners as [|[k cur] ls IH]; intros s;
    cbn [callEvents_durable called map snd].
  - rewrite app_nil_r. reflexivity.
  - destruct (handled v cur) eqn:Hh.
    + destruct (tryCallEvent_handled cur v s Hh) as [c Hrun].
      rewrite (bind_run _ _ _ _ _ Hrun), IH.
      cbn [invoked set_console set_invoked map snd].
      rewrite <- app_assoc. reflexivity.
    + destruct (tryCallEvent_unhandled cur v s Hh) as [e Hrun].
      rewrite (bind_throws _ _ _ _ _ Hrun).
      cbn [snd invoked set_invoked map]. reflexivity.
Qed.

Lemma callEvents_durable_handled
    (listeners : list (Z * fn)) (v : value) (s : WSRPC) :
  all_handled v listeners = true ->
  fst (callEvents_durable listeners v s) = Ok tt.
Proof.
  revert s. induction listeners as [|[k cur] ls IH]; intros s H;
    cbn [callEvents_durable]; [reflexivity|].
  cbn [all_handled forallb snd] in H. apply andb_true_iff in H as [H1 H2].
  destruct (tryCallEvent_handled cur v s H1) as [c Hrun].
  rewrite (bind_run _ _ _ _ _ Hrun). apply IH, H2.
Qed.

Lemma callEvents_durable_unhandled
    (listeners : list (Z * fn)) (v : value) (s : WSRPC) :
  all_handled v listeners = false ->
  exists e, fst (callEvents_durable listeners v s) = Throw e.
Proof.
  revert s. induction listeners as [|[k cur] ls IH]; intros s H;
    cbn [callEvents_durable]; [discriminate H|].
  cbn [all_handled forallb snd] in H.
  destruct (handled v cur) eqn:Hh.
  - destruct (tryCallEvent_handled cur v s Hh) as [c Hrun].
    rewrite (bind_run _ _ _ _ _ Hrun). apply IH, H.
  - destruct (tryCallEvent_unhandled cur v s Hh) as [e Hrun].
    rewrite (bind_throws _ _ _ _ _ Hrun). exists e. reflexivity.
Qed.

(** [callEvents]: the one-shot futures first, which cannot throw, then
    the durable listeners of the event as the table has them. *)
Lemma callEvents_run (e : evName) (v : value) (s : WSRPC) :
  callEvents e v s
  = callEvents_durable (tget e (eventStore s)) v
      (snd (callEvents_oneTime e (tget e (oneTimeEventStore s)) s)).
Proof.
  unfold callEvents.
  change (bind (gets ?g) ?k s) with (k (g s) s). cbv beta.
  rewrite bind_returns_run by apply callEvents_oneTime_returns.
  change (bind (gets ?g) ?k ?st0) with (k (g st0) st0). cbv beta.
  rewrite keeps_eventStore_callEvents_oneTime. reflexivity.
Qed.

Lemma keeps_eventStore_callEvents_durable :
  forall q v, keeps eventStore (callEvents_durable q v).
Proof. frame_loop. Qed.

Lemma keeps_eventStore_callEvents (e : evName) (v : value) :
  keeps eventStore (callEvents e v).
Proof.
  intros s. rewrite callEvents_run, keeps_eventStore_callEvents_durable.
  apply keeps_eventStore_callEvents_oneTime.
Qed.

Lemma callEvents_handled (e : evName) (v : value) (s : WSRPC) :
  all_handled v (tget e (eventStore s)) = true ->
  fst (callEvents e v s) = Ok tt.
Proof. intros H. rewrite callEvents_run. apply callEvents_durable_handled, H. Qed.

Lemma callEvents_unhandled (e : evName) (v : value) (s : WSRPC) :
  all_handled v (tget e (eventStore s)) = false ->
  exists x, fst (callEvents e v s) = Throw x.
Proof.
  intros H. rewrite callEvents_run. apply callEvents_durable_unhandled, H.
Qed.

Lemma callEvents_invoked (e : evName) (v : value) (s : WSRPC) :
  invoked (snd (callEvents e v s))
  = invoked s
    ++ map (fun kv => (snd kv, v)) (called v (tget e (eventStore s))).
Proof.
  rewrite callEvents_run, callEvents_durable_invoked.
  rewrite keeps_invoked_callEvents_oneTime. reflexivity.
Qed.

(** ** Calls *)

Lemma heap_lookup_fresh (h : list Deferred) (d : Deferred) :
  (h ++ [d]) !! length h = Some d.
Proof. apply list_lookup_middle. reflexivity. Qed.

Lemma heap_insert_fresh (h : list Deferred) (d d' : Deferred) :
  <[length h := d']> (h ++ [d]) = h ++ [d'].
Proof.
  rewrite insert_app_r_alt by lia. rewrite Nat.sub_diag. reflexivity.
Qed.

(** C7. A call with a truthy [noWait] option issued while the state is
    CLOSED returns a promise that is already rejected with 'Socket is:
    CLOSED'; the pending-call store, the outbound queue, the socket and
    the frames transmitted are what they were. *)
Theorem noWait_call_rejected_when_closed
    (func args params : value) (s : WSRPC) :
  state s = "CLOSED" ->
  truthy params = true ->
  truthy (member params "noWait") = true ->
  let l := length (heap s) in
  let s' := exec (call func args params) s in
  eval (call func args params) s = Ok l
  /\ heap s' = heap s ++ [{| done := true;
                            promise := Rejected (VStr "Socket is: CLOSED") |}]
  /\ settled s' = settled s ++ [(l, Reject (VStr "Socket is: CLOSED"))]
  /\ store s' = store s
  /\ callQueue s' = callQueue s
  /\ sent s' = sent s
  /\ socket s' = socket s.
Proof.
  intros Hst Hp Hn l s'. subst l s'.
  unfold exec, eval, call, makeCall.
  unfold bind, modify, gets, Deferred_new, ret, log, logGroup.
  cbn -[state String.eqb obj_set pretty truthy member].
  change (state _) with (state s). rewrite Hst.
  cbn -[state obj_set pretty truthy member].
  rewrite Hp, Hn.
  unfold Deferred_reject, Deferred_settle.
  destruct (DEBUG s);
    cbn -[state obj_set pretty truthy member lookup insert];
    rewrite heap_lookup_fresh;
    cbn -[state obj_set pretty truthy member lookup insert];
    rewrite heap_insert_fresh; repeat split; reflexivity.
Qed.

Lemma noWait_call_rejected_when_closed_witness :
  let params := VObj [("noWait", VBool true)] in
  let s' := exec (call (VStr "ping") (VStr "hi") params) WSRPC_new in
  state WSRPC_new = "CLOSED"
  /\ heap s' = [{| done := true;
                   promise := Rejected (VStr "Socket is: CLOSED") |}]
  /\ store s' = [] /\ callQueue s' = [] /\ sent s' = [].
Proof.
  intros params s'.
  pose proof (noWait_call_rejected_when_closed (VStr "ping") (VStr "hi")
                params WSRPC_new eq_refl eq_refl eq_refl)
    as (_ & Hh & _ & Hs & Hq & Ht & _).
  split; [reflexivity|]. repeat split; assumption.
Defined.

(** *** Frames transmitted and the outbound queue *)

Lemma keeps_sent_callEvents_oneTime :
  forall q e, keeps sent (callEvents_oneTime e q).
Proof. frame_loop. Qed.
Lemma keeps_sent_callEvents_durable :
  forall q v, keeps sent (callEvents_durable q v).
Proof. frame_loop. Qed.
Lemma keeps_queue_callEvents_oneTime :
  forall q e, keeps callQueue (callEvents_oneTime e q).
Proof. frame_loop. Qed.
Lemma keeps_queue_callEvents_durable :
  forall q v, keeps callQueue (callEvents_durable q v).
Proof. frame_loop. Qed.

#[export] Hint Resolve keeps_sent_callEvents_oneTime
  keeps_sent_callEvents_durable keeps_queue_callEvents_oneTime
  keeps_queue_callEvents_durable : keeps.

Lemma state_CONNECTING (s : WSRPC) :
  state s = "CONNECTING" ->
  socketStarted s = true /\ socket s = Some {| readyState := CONNECTING |}.
Proof.
  unfold state, stateCode.
  destruct (socketStarted s), (socket s) as [[[]]|]; simpl;
    intros H; try discriminate H; split; reflexivity.
Qed.

Lemma call_while_connecting (func args params : value) (s : WSRPC) :
  state s = "CONNECTING" ->
  let s' := exec (call func args params) s in
  callQueue s'
  = callQueue s ++ [{| co_id := id s + 2; co_method := func;
                       co_params := args |}]
  /\ id s' = id s + 2
  /\ sent s' = sent s
  /\ state s' = "CONNECTING".
Proof.
  intros Hst s'. subst s'.
  unfold exec, call, makeCall.
  unfold bind, modify, gets, Deferred_new, ret, log, logGroup, store_put.
  cbn -[state String.eqb obj_set pretty truthy member].
  change (state (set_heap _ _)) with (state s). rewrite Hst.
  cbn -[state obj_set pretty truthy member].
  destruct (DEBUG s); cbn -[state obj_set pretty truthy member];
    repeat split; try reflexivity;
    match goal with |- state ?x = _ => change (state x) with (state s) end;
    exact Hst.
Qed.

Lemma exec_discard {A} (m : M A) (s : WSRPC) : exec (discard m) s = exec m s.
Proof.
  unfold exec, discard, bind. destruct (m s) as [[a|e] s']; reflexivity.
Qed.

Lemma calls_while_connecting (cs : list (value * value * value)) (s : WSRPC) :
  state s = "CONNECTING" ->
  let s' := run (map call_op cs) s in
  callQueue s' = callQueue s ++ envelopes (id s) cs
  /\ sent s' = sent s
  /\ state s' = "CONNECTING".
Proof.
  revert s. induction cs as [|c cs IH]; intros s Hst; cbv zeta;
    cbn [map run envelopes].
  - rewrite app_nil_r. repeat split; try reflexivity. exact Hst.
  - destruct (call_while_connecting (fst (fst c)) (snd (fst c)) (snd c) s Hst)
      as (Hq & Hid & Hsent & Hst').
    change (step (call_op c))
      with (discard (call (fst (fst c)) (snd (fst c)) (snd c))).
    rewrite exec_discard.
    destruct (IH _ Hst') as (IHq & IHsent & IHst). cbv zeta in *.
    rewrite IHq, IHsent, Hq, Hid, Hsent, <- app_assoc.
    repeat split; try reflexivity. exact IHst.
Qed.

(** The flush of [ws.onopen] while the socket is OPEN. *)
Lemma onopen_flush_open (q : list CallObj) (s : WSRPC) :
  socket s = Some {| readyState := OPEN |} ->
  fst (onopen_flush q s) = Ok tt
  /\ sent (snd (onopen_flush q s))
     = sent s ++ map (fun c => JSON_stringify (CallObj_value c) 1) q
  /\ callQueue (snd (onopen_flush q s))
     = match q with [] => callQueue s | _ => [] end.
Proof.
  revert s. induction q as [|c q IH]; intros s Hs; cbn [onopen_flush map].
  - rewrite app_nil_r. repeat split; reflexivity.
  - unfold bind, modify, socket_send. cbn [socket set_callQueue]. rewrite Hs.
    cbn [readyState].
    match goal with
    | |- context [onopen_flush q ?s1] =>
        destruct (IH s1) as (IH1 & IH2 & IH3); [exact Hs|];
        destruct (onopen_flush q s1) as [r s2] eqn:E
    end.
    cbn [fst snd] in *. subst r. cbn [fst snd].
    rewrite IH2, IH3. cbn [sent set_sent callQueue set_callQueue].
    rewrite <- app_assoc. repeat split; try reflexivity.
    destruct q; reflexivity.
Qed.

Lemma keeps_eventStore_onopen_flush :
  forall q, keeps eventStore (onopen_flush q).
Proof. frame_loop. Qed.

(** The open handler with the socket OPEN: the flush goes through
    whether the listeners called afterwards return or throw; the handler
    returns when the listeners it calls are taken care of. *)
Lemma ws_onopen_flushes (ev : Event) (s : WSRPC) :
  socket s = Some {| readyState := OPEN |} ->
  (all_handled (Event_value ev) (tget onconnect (eventStore s)) = true ->
   all_handled (Event_value ev) (tget onchange (eventStore s)) = true ->
   fst (ws_onopen ev s) = Ok tt)
  /\ sent (snd (ws_onopen ev s))
     = sent s ++ map (fun c => JSON_stringify (CallObj_value c) 1) (callQueue s)
  /\ callQueue (snd (ws_onopen ev s)) = [].
Proof.
  intros Hopen.
  remember (ws_onopen ev s) as R eqn:ER. unfold ws_onopen in ER.
  change (bind (gets state) ?k s) with (k (state s) s) in ER. cbv beta in ER.
  destruct (log_runs [VStr "ONOPEN CALLED"; VStr "STATE"; VStr (state s)] s)
    as [c1 H1].
  unfold bind at 1 in ER. rewrite H1 in ER.
  destruct (trace_event_runs ev (set_console c1 s)) as [c2 H2].
  unfold bind at 1 in ER. rewrite H2 in ER.
  set (s3 := set_console c2 (set_console c1 s)) in *.
  change (bind (gets callQueue) ?k s3) with (k (callQueue s) s3) in ER.
  cbv beta in ER.
  destruct (onopen_flush_open (callQueue s) s3 Hopen) as (F1 & F2 & F3).
  pose proof (keeps_eventStore_onopen_flush (callQueue s) s3) as F4.
  unfold bind at 1 in ER.
  destruct (onopen_flush (callQueue s) s3) as [r s4].
  cbn [fst snd] in F1, F2, F3, F4. subst r R.
  change (eventStore s3) with (eventStore s) in F4.
  assert (Hk : keeps sent (callEvents onconnect (Event_value ev) ;;
                           callEvents onchange (Event_value ev))) by frame.
  assert (Hk' : keeps callQueue (callEvents onconnect (Event_value ev) ;;
                                 callEvents onchange (Event_value ev))) by frame.
  split.
  { intros Hc Hg.
    rewrite <- F4 in Hc, Hg.
    pose proof (callEvents_handled onconnect (Event_value ev) s4 Hc) as R1.
    pose proof (keeps_eventStore_callEvents onconnect (Event_value ev) s4)
      as R2.
    unfold bind.
    destruct (callEvents onconnect (Event_value ev) s4) as [r s5].
    cbn [fst snd] in R1, R2. subst r. rewrite <- R2 in Hg.
    apply callEvents_handled, Hg. }
  rewrite Hk, Hk', F2, F3. change (sent s3) with (sent s).
  change (callQueue s3) with (callQueue s).
  split; [reflexivity|]. destruct (callQueue s); reflexivity.
Qed.

Lemma calls_keep_eventStore (cs : list (value * value * value)) (s : WSRPC) :
  eventStore (run (map call_op cs) s) = eventStore s.
Proof.
  revert s. induction cs as [|c cs IH]; intros s; cbn [map run];
    [reflexivity|].
  rewrite IH.
  change (step (call_op c))
    with (discard (call (fst (fst c)) (snd (fst c)) (snd c))).
  rewrite exec_discard.
  assert (K : keeps eventStore (call (fst (fst c)) (snd (fst c)) (snd c)))
    by frame.
  apply K.
Qed.

(** C8. Calls issued while the state is CONNECTING are appended to the
    outbound queue in the order they are issued and nothing is
    transmitted; when the transport opens, [ws.onopen] transmits the
    queued envelopes in queue order and leaves the queue empty, whether
    the listeners it calls afterwards return or throw; it runs to its
    end when every [onconnect] and [onchange] listener returns or throws
    something the [catch] of [tryCallEvent] can handle. *)
Theorem queued_calls_flushed_in_order
    (cs : list (value * value * value)) (ev : Event) (s : WSRPC) :
  state s = "CONNECTING" ->
  let s1 := run (map call_op cs) s in
  let s2 := run [Transport OPEN; WsOpen ev] s1 in
  callQueue s1 = callQueue s ++ envelopes (id s) cs
  /\ sent s1 = sent s
  /\ (all_handled (Event_value ev) (tget onconnect (eventStore s)) = true ->
      all_handled (Event_value ev) (tget onchange (eventStore s)) = true ->
      eval (step (WsOpen ev)) (exec (step (Transport OPEN)) s1) = Ok tt)
  /\ sent s2
     = sent s ++ map (fun c => JSON_stringify (CallObj_value c) 1)
                     (callQueue s ++ envelopes (id s) cs)
  /\ callQueue s2 = [].
Proof.
  intros Hst s1 s2.
  destruct (calls_while_connecting cs s Hst) as (Hq & Hsent & Hst1).
  pose proof (calls_keep_eventStore cs s) as Hev.
  fold s1 in Hq, Hsent, Hst1, Hev.
  split; [exact Hq|]. split; [exact Hsent|].
  apply state_CONNECTING in Hst1 as [_ Hsock].
  subst s2. cbn [run step]. unfold exec, eval. unfold transport, modify.
  cbn [snd]. rewrite Hsock.
  set (s1' := set_socket (Some {| readyState := OPEN |}) s1).
  destruct (ws_onopen_flushes ev s1' eq_refl) as (F0 & F1 & F2).
  change (eventStore s1') with (eventStore s1) in F0. rewrite Hev in F0.
  rewrite F1, F2. change (sent s1') with (sent s1).
  change (callQueue s1') with (callQueue s1).
  rewrite Hsent, Hq. split; [exact F0|]. split; reflexivity.
Qed.

Lemma queued_calls_flushed_in_order_witness :
  let s := exec (connect None) WSRPC_new in
  let cs := [(VStr "ping", VStr "a", VUndef); (VStr "log", VStr "b", VUndef)] in
  let s2 := run [Transport OPEN; WsOpen {| e_type := "open" |}]
              (run (map call_op cs) s) in
  state s = "CONNECTING"
  /\ map json (sent s2)
     = [VObj [("id", VNum 3); ("method", VStr "ping"); ("params", VStr "a")];
        VObj [("id", VNum 5); ("method", VStr "log"); ("params", VStr "b")]]
  /\ callQueue s2 = [].
Proof.
  intros s cs s2.
  pose proof (queued_calls_flushed_in_order cs {| e_type := "open" |} s eq_refl)
    as (_ & _ & _ & Hsent & Hq).
  split; [reflexivity|]. split; [|exact Hq].
  subst s2. rewrite Hsent. reflexivity.
Defined.

(** ** The dispatcher *)

Lemma trace_message_runs (msg : MessageEvent) (d : value) (s : WSRPC) :
  data msg = Ok d ->
  exists c, trace_message msg s = (Ok tt, set_console c s).
Proof.
  intros Hd. unfold trace_message, logGroup, bind, gets, modify, ret, lift.
  rewrite Hd. destruct (TRACE s); simpl; eexists; [reflexivity|].
  rewrite set_console_same. reflexivity.
Qed.

(** The handler up to the [try], for a message whose text parses. *)
Lemma ws_onmessage_parsed (message : MessageEvent) (d : value) (s : WSRPC) :
  type message = "message" ->
  data message = Ok d ->
  exists c,
    ws_onmessage message s
    = try_catch (onmessage_try d) (onmessage_catch d) (set_console c s).
Proof.
  intros Hty Hd. unfold ws_onmessage.
  change (bind (gets state) ?k s) with (k (state s) s). cbv beta.
  destruct (log_runs [VStr "ONMESSAGE CALLED"; VStr "STATE"; VStr (state s)] s)
    as [c1 H1].
  rewrite (bind_run _ _ _ _ _ H1).
  destruct (trace_message_runs message d (set_console c1 s) Hd) as [c2 H2].
  rewrite (bind_run _ _ _ _ _ H2).
  rewrite Hty, Hd. cbn [String.eqb Ascii.eqb Bool.eqb negb].
  exists c2. reflexivity.
Qed.

Lemma hasOwnProperty_true (d : value) (k : string) :
  hasOwnProperty d k = Ok true -> truthy d = true.
Proof. destruct d; simpl; intros H; try discriminate H; reflexivity. Qed.

(** The route test when no route is named [hasOwnProperty]. *)
Lemma routes_hasOwnProperty_own (v : value) (s : WSRPC) :
  routes s !! "hasOwnProperty" = None ->
  routes_hasOwnProperty v s
  = (match ToPropertyKey v with
     | Ok name => Ok (bool_decide (is_Some (routes s !! name)))
     | Throw e => Throw e
     end, s).
Proof.
  intros H. unfold routes_hasOwnProperty.
  change (bind (gets ?g) ?k s) with (k (g s) s). cbv beta.
  unfold callback in *. rewrite H.
  unfold bind, lift, gets. destruct (ToPropertyKey v); reflexivity.
Qed.

(** An inbound call whose method names no own property of the route
    table, with no route named [hasOwnProperty] in the way: [handleCall]
    throws 'Route not found', or the TypeError of a method that cannot be
    converted to a name, and the [catch] of [ws.onmessage] answers. *)
Lemma onmessage_route_missing
    (message : MessageEvent) (frame : value) (s : WSRPC) :
  type message = "message" ->
  data message = Ok frame ->
  hasOwnProperty frame "id" = Ok true ->
  hasOwnProperty frame "method" = Ok true ->
  routes s !! "hasOwnProperty" = None ->
  (forall name, ToPropertyKey (member frame "method") = Ok name ->
                routes s !! name = None) ->
  socket s = Some {| readyState := OPEN |} ->
  exists m c,
    ws_onmessage message s
    = (Ok tt,
       set_console c
         (set_sent (sent s ++ [JSON_stringify
                                 (VObj [("error", m); ("result", VNull);
                                        ("id", member frame "id")]) 0]) s))
    /\ (forall name, ToPropertyKey (member frame "method") = Ok name ->
                     m = VStr "Route not found").
Proof.
  intros Hty Hd Hid Hm Hshadow Hroute Hsock.
  destruct (ws_onmessage_parsed message frame s Hty Hd) as [c Hrun].
  rewrite Hrun. clear Hrun.
  set (s1 := set_console c s).
  assert (Htry : exists c' m,
             onmessage_try frame s1 = (Throw (VError m), set_console c' s1)
             /\ (forall name,
                   ToPropertyKey (member frame "method") = Ok name ->
                   m = "Route not found")).
  { unfold onmessage_try.
    destruct (log_runs [frame] s1) as [c1 H1].
    rewrite (bind_run _ _ _ _ _ H1).
    unfold lift at 1. unfold bind at 1. rewrite Hid. cbn [negb].
    unfold lift at 1. unfold bind at 1. rewrite Hm.
    unfold handleCall. unfold bind at 1.
    rewrite routes_hasOwnProperty_own by exact Hshadow.
    change (routes (set_console c1 s1)) with (routes s).
    destruct (ToPropertyKey (member frame "method")) as [name|e] eqn:Hkey.
    - rewrite (Hroute name eq_refl).
      rewrite bool_decide_eq_false_2 by (intros [x Hx]; discriminate Hx).
      exists c1, "Route not found". split; [reflexivity|]. reflexivity.
    - unfold ToPropertyKey in Hkey.
      destruct (convertible (member frame "method")); [discriminate Hkey|].
      injection Hkey as <-. eexists c1, _. split; [reflexivity|].
      intros name H. discriminate H. }
  destruct Htry as (c' & m & Htry & Hmsg). unfold try_catch. rewrite Htry.
  unfold onmessage_catch, exception_message, lift, bind, socket_send,
    console_error, modify.
  cbn -[member truthy]. rewrite Hsock.
  rewrite (hasOwnProperty_true _ _ Hid).
  cbn -[member]. exists (VStr m). eexists. split; [reflexivity|].
  intros name H. rewrite (Hmsg name H). reflexivity.
Qed.



(** ** Property names *)

Lemma has_bracket_app (a b : string) :
  has_bracket (a +:+ b) = has_bracket a || has_bracket b.
Proof.
  induction a as [|c a IH]; [reflexivity|].
  change (String c a +:+ b) with (String c (a +:+ b)).
  cbn [has_bracket]. rewrite IH, orb_assoc. reflexivity.
Qed.

Lemma has_bracket_concat_cons (a : string) (l : list string) :
  has_bracket (String.concat "," (a :: l))
  = has_bracket a || has_bracket (String.concat "," l).
Proof.
  destruct l as [|b l]; cbn [String.concat].
  - cbn [has_bracket]. rewrite orb_false_r. reflexivity.
  - rewrite !has_bracket_app. reflexivity.
Qed.

(** The name of a value that ToPrimitive refuses would have a bracket
    in it. *)
Lemma nonconvertible_bracket :
  forall v, convertible v = false -> has_bracket (to_string v) = true.
Proof.
  fix IH 1. intros [| |b|z|s|items|fields|m]; cbn [convertible];
    try discriminate.
  - intros H. cbn [to_string].
    induction items as [|x xs IHxs]; [discriminate H|].
    cbn [forallb] in H. cbn [map]. rewrite has_bracket_concat_cons.
    destruct (convertible x) eqn:Hx.
    + cbn [andb] in H. rewrite (IHxs H). apply orb_true_r.
    + pose proof (IH x Hx) as Hb.
      destruct x; try discriminate Hx; rewrite Hb; reflexivity.
  - intros _. reflexivity.
Qed.

Lemma pretty_N_go_bracket (x : N) (s : string) :
  has_bracket (pretty_N_go x s) = has_bracket s.
Proof.
  revert s. induction (N.lt_wf_0 x) as [x _ IH]; intros s.
  destruct (decide (x = 0%N)) as [->|Hx]; [reflexivity|].
  rewrite pretty_N_go_step by lia.
  rewrite IH by (apply N.div_lt; lia).
  cbn [has_bracket]. unfold pretty_N_char.
  repeat case_match; reflexivity.
Qed.

Lemma pretty_Z_bracket (k : Z) : has_bracket (pretty k) = false.
Proof.
  destruct k as [|p|p]; unfold pretty, pretty_Z; [reflexivity| |].
  - unfold pretty, pretty_positive, pretty, pretty_N.
    destruct (decide (N.pos p = 0%N)); [reflexivity|].
    apply pretty_N_go_bracket.
  - rewrite has_bracket_app.
    unfold pretty, pretty_positive, pretty, pretty_N.
    destruct (decide (N.pos p = 0%N)); [reflexivity|].
    rewrite pretty_N_go_bracket. reflexivity.
Qed.

Lemma obj_get_name {A} (name : string) (o : list (Z * A)) (v : A) :
  obj_get name o = Some v -> exists k : Z, name = pretty k.
Proof.
  induction o as [|[k w] o IH]; cbn [obj_get]; [discriminate|].
  destruct (String.eqb_spec (pretty k) name) as [<-|_]; [eauto|exact IH].
Qed.

(** A value under whose name the store has a call converts to that
    name. *)
Lemma key_of_stored {A} (v : value) (o : list (Z * A)) (x : A) :
  obj_get (to_string v) o = Some x -> ToPropertyKey v = Ok (to_string v).
Proof.
  intros H. unfold ToPropertyKey.
  destruct (convertible v) eqn:Hc; [reflexivity|].
  apply obj_get_name in H as [k Hk].
  pose proof (nonconvertible_bracket v Hc) as Hb.
  rewrite Hk, pretty_Z_bracket in Hb. discriminate Hb.
Qed.

(** So does a value whose name is one of [Object.prototype]. *)
Lemma key_of_inherited (v : value) :
  inherited (to_string v) = true -> ToPropertyKey v = Ok (to_string v).
Proof.
  intros H. unfold ToPropertyKey.
  destruct (convertible v) eqn:Hc; [reflexivity|].
  pose proof (nonconvertible_bracket v Hc) as Hb.
  unfold inherited in H. apply existsb_exists in H as (x & Hin & Heq).
  apply String.eqb_eq in Heq. subst x.
  cbn [Object_prototype In] in Hin.
  repeat (destruct Hin as [Hin|Hin];
          [rewrite <- Hin in Hb; discriminate Hb|]).
  destruct Hin.
Qed.


Lemma onmessage_try_handleError (frame : value) (s : WSRPC) :
  hasOwnProperty frame "id" = Ok true ->
  hasOwnProperty frame "method" = Ok false ->
  hasOwnProperty frame "error" = Ok true ->
  member frame "error" = VNull ->
  exists c, onmessage_try frame s = handleError frame (set_console c s).
Proof.
  intros Hid Hm He Hnull. unfold onmessage_try.
  destruct (log_runs [frame] s) as [c1 H1].
  rewrite (bind_run _ _ _ _ _ H1).
  unfold lift at 1. unfold bind at 1. rewrite Hid. cbn [negb].
  unfold lift at 1. unfold bind at 1. rewrite Hm.
  unfold lift at 1. unfold bind at 1. rewrite He, Hnull.
  exists c1. reflexivity.
Qed.
Lemma obj_has_get {A} (name : string) (o : list (Z * A)) :
  obj_has name o = bool_decide (is_Some (obj_get name o)).
Proof. reflexivity. Qed.

(** [handleError] once [data.id] is converted. *)
Lemma handleError_key (frame : value) (name : string) (s : WSRPC) :
  ToPropertyKey (member frame "id") = Ok name ->
  handleError frame s
  = match obj_get name (store s) with
    | None => log [VStr "Unknown callback"] s
    | Some l =>
        (log [VStr "REJECTING"; member frame "error"] ;;
         Deferred_reject l (member frame "error"))
          (set_store (obj_delete name (store s)) s)
    end.
Proof.
  intros Hkey. unfold handleError.
  unfold lift at 1. unfold bind at 1. rewrite Hkey.
  unfold gets at 1. unfold bind at 1. rewrite obj_has_get.
  destruct (obj_get name (store s)) as [l|] eqn:Hget.
  - rewrite bool_decide_eq_true_2 by eauto. cbn [negb].
    unfold gets at 1. unfold bind at 1. rewrite Hget.
    unfold store_delete, modify. unfold bind at 1. reflexivity.
  - rewrite bool_decide_eq_false_2 by (intros [? ?]; discriminate).
    reflexivity.
Qed.

Lemma handleError_found (frame : value) (s : WSRPC) (l : loc) :
  obj_get (to_string (member frame "id")) (store s) = Some l ->
  heap s !! l = Some new_Deferred ->
  exists s',
    handleError frame s = (Ok tt, s')
    /\ heap s' = <[l := {| done := true;
                          promise := Rejected (member frame "error") |}]> (heap s)
    /\ settled s' = settled s ++ [(l, Reject (member frame "error"))]
    /\ store s' = obj_delete (to_string (member frame "id")) (store s)
    /\ sent s' = sent s.
Proof.
  intros Hget Hl.
  rewrite (handleError_key frame _ s (key_of_stored _ _ _ Hget)), Hget.
  match goal with
  | |- context [bind (log ?args) _ ?st] =>
      destruct (log_runs args st) as [c2 H2]
  end.
  rewrite (bind_run _ _ _ _ _ H2).
  unfold Deferred_reject, Deferred_settle.
  cbn [heap set_console set_store]. rewrite Hl, settle_fresh.
  eexists. split; [reflexivity|].
  cbn -[lookup insert obj_delete member to_string].
  repeat split; reflexivity.
Qed.


Lemma handleError_unknown (frame : value) (name : string) (s : WSRPC) :
  ToPropertyKey (member frame "id") = Ok name ->
  obj_get name (store s) = None ->
  handleError frame s = log [VStr "Unknown callback"] s.
Proof.
  intros Hkey Hget. rewrite (handleError_key frame name s Hkey), Hget.
  reflexivity.
Qed.






(** ** Close after error *)

Lemma obj_get_head {A} (k : Z) (v : A) (o : list (Z * A)) :
  obj_get (pretty k) ((k, v) :: o) = Some v.
Proof. cbn [obj_get]. rewrite String.eqb_refl. reflexivity. Qed.

(** [ws.onclose] calls [reject] on every Deferred of the store without
    asking [isPending]: when the first call in the store is settled
    already, the handler throws before it reaches [rejectQueue], so no
    listener is told and no reconnection is scheduled. *)
Lemma ws_onclose_throws_on_settled
    (err : Event) (s : WSRPC) (k : Z) (l : loc) (d : Deferred)
    (rest : list (Z * loc)) :
  store s = (k, l) :: rest ->
  heap s !! l = Some d ->
  done d = true ->
  eval (ws_onclose err) s = Throw (VError "Promise already done")
  /\ timers (exec (ws_onclose err) s) = timers s
  /\ connectionNumber (exec (ws_onclose err) s) = connectionNumber s.
Proof.
  intros Hstore Hl Hdone.
  assert (Hpre : exists c, onclose_rejects err s
                           = (Throw (VError "Promise already done"),
                              set_console c s)).
  { unfold onclose_rejects.
    change (bind (gets state) ?k s) with (k (state s) s). cbv beta.
    destruct (log_runs [VStr "ONCLOSE CALLED"; VStr "STATE"; VStr (state s)] s)
      as [c1 H1].
    rewrite (bind_run _ _ _ _ _ H1).
    destruct (trace_event_runs err (set_console c1 s)) as [c2 H2].
    rewrite (bind_run _ _ _ _ _ H2).
    unfold gets at 1. unfold bind at 1. cbn [store set_console].
    rewrite Hstore. cbn [obj_keys map fst onclose_store].
    unfold gets at 1. unfold bind at 1. cbn [store set_console].
    rewrite Hstore, obj_get_head.
    unfold Deferred_reject, Deferred_settle. unfold bind at 1.
    cbn [heap set_console]. rewrite Hl.
    rewrite settle_done by assumption.
    exists c2. reflexivity. }
  destruct Hpre as [c Hpre]. unfold eval, exec, ws_onclose.
  rewrite (bind_throws _ _ _ _ _ Hpre). repeat split; reflexivity.
Qed.

(** C2, at the failing input. One call is sent while OPEN; the error
    event rejects its future and leaves it in the store; the close event
    that follows calls [reject] on it again and throws 'Promise already
    done': no listener is told about the close and no reconnection is
    scheduled. *)
Theorem close_after_error_throws :
  let s1 := run [Connect None; Transport OPEN;
                 Call (VStr "ping") (VStr "hi") VUndef] WSRPC_new in
  let s2 := exec (step (WsError {| e_type := "error" |})) s1 in
  let s3 := exec (step (WsClose {| e_type := "close" |})) s2 in
  (store s1 = [(3, 0%nat)] /\ heap s1 = [new_Deferred])
  /\ eval (step (WsError {| e_type := "error" |})) s1 = Ok tt
  /\ heap s2 = [{| done := true;
                   promise := Rejected (VStr "WebSocket error occurred") |}]
  /\ store s2 = [(3, 0%nat)]
  /\ eval (step (WsClose {| e_type := "close" |})) s2
     = Throw (VError "Promise already done")
  /\ timers s3 = 0%nat
  /\ settled s3 = [(0%nat, Reject (VStr "WebSocket error occurred"))].
Proof. vm_compute. repeat split; reflexivity. Qed.

(** ** The rejection path run twice *)

(** [rejectQueue], the path of the error event, asks [isPending] before
    every [reject]: it leaves no pending future behind in the store, and
    a second run in succession settles nothing. *)

Lemma reject_if_pending_effect (deferred : option loc) (reason : value)
    (s : WSRPC) :
  let s' := snd (reject_if_pending deferred reason s) in
  store s' = store s
  /\ callQueue s' = callQueue s
  /\ (forall l, settled_at (heap s) l -> settled_at (heap s') l)
  /\ (forall l, deferred = Some l -> settled_at (heap s') l).
Proof.
  destruct deferred as [l|]; cbn zeta.
  2: { cbn. repeat split; try reflexivity; [auto|discriminate]. }
  unfold reject_if_pending, Deferred_isPending, Deferred_reject,
    Deferred_settle, bind, gets, ret.
  cbn [fst snd]. unfold settled_at.
  destruct (heap s !! l) as [d|] eqn:Hl.
  2: { cbn [snd]. repeat split; try reflexivity; [auto|].
       intros l' [= <-]. rewrite Hl. exact I. }
  destruct (isPending d) eqn:Hp.
  2: { cbn [snd]. repeat split; try reflexivity; [auto|].
       intros l' [= <-]. rewrite Hl. exact Hp. }
  rewrite Hl. unfold isPending in Hp. apply negb_true_iff in Hp.
  unfold apply_settle, reject, wrapper. rewrite Hp.
  cbn [snd store callQueue heap set_jobs set_settled set_heap].
  assert (Hlt : (l < length (heap s))%nat) by (eapply lookup_lt_Some; eauto).
  repeat split; try reflexivity.
  - intros l' Hl'. destruct (decide (l = l')) as [<-|Hne].
    + rewrite list_lookup_insert_eq by assumption. reflexivity.
    + rewrite list_lookup_insert_ne by assumption. exact Hl'.
  - intros l' [= <-]. rewrite list_lookup_insert_eq by assumption. reflexivity.
Qed.

Lemma reject_if_pending_noop (deferred : option loc) (reason : value)
    (s : WSRPC) :
  (forall l, deferred = Some l -> settled_at (heap s) l) ->
  reject_if_pending deferred reason s = (Ok tt, s).
Proof.
  intros H. destruct deferred as [l|]; [|reflexivity].
  specialize (H l eq_refl). unfold settled_at in H.
  unfold reject_if_pending, Deferred_isPending, bind, gets.
  destruct (heap s !! l) as [d|]; [rewrite H|]; reflexivity.
Qed.

Lemma rejectQueue_store_cons (key : string) (keys : list string) (s : WSRPC) :
  rejectQueue_store (key :: keys) s
  = rejectQueue_store keys
      (snd (reject_if_pending (obj_get key (store s))
              (VStr "WebSocket error occurred") s)).
Proof.
  cbn [rejectQueue_store]. unfold gets at 1. unfold bind at 1.
  apply bind_returns_run, reject_if_pending_returns.
Qed.

Lemma rejectQueue_calls_cons (c : CallObj) (q : list CallObj) (s : WSRPC) :
  rejectQueue_calls (c :: q) s
  = rejectQueue_calls q
      (snd (reject_if_pending (obj_get (pretty (co_id c)) (store s))
              (VStr "WebSocket error occurred")
              (set_store (obj_delete (pretty (co_id c)) (store s))
                 (set_callQueue q s)))).
Proof.
  cbn [rejectQueue_calls].
  unfold modify at 1 2, gets at 1. unfold bind at 1 2 3.
  cbn [store set_callQueue].
  apply bind_returns_run, reject_if_pending_returns.
Qed.

Lemma rejectQueue_run (s : WSRPC) :
  let s0 := set_connectionNumber (connectionNumber s + 1) s in
  let s1 := snd (rejectQueue_calls (callQueue s) s0) in
  rejectQueue s = rejectQueue_store (obj_keys (store s1)) s1.
Proof.
  intros s0 s1. unfold rejectQueue.
  unfold modify at 1. unfold bind at 1. unfold gets at 1. unfold bind at 1.
  cbn [callQueue set_connectionNumber]. fold s0.
  rewrite bind_returns_run by apply rejectQueue_calls_returns.
  reflexivity.
Qed.

Lemma rejectQueue_store_effect (keys : list string) (s : WSRPC) :
  let s' := snd (rejectQueue_store keys s) in
  store s' = store s
  /\ callQueue s' = callQueue s
  /\ (forall l, settled_at (heap s) l -> settled_at (heap s') l)
  /\ (forall key l, key ∈ keys -> obj_get key (store s) = Some l ->
        settled_at (heap s') l).
Proof.
  revert s. induction keys as [|key keys IH]; intros s; cbn zeta.
  - cbn. repeat split; try reflexivity; [auto|].
    intros key l Hin. inversion Hin.
  - rewrite rejectQueue_store_cons.
    destruct (reject_if_pending_effect (obj_get key (store s))
                (VStr "WebSocket error occurred") s) as (E1 & E2 & E3 & E4).
    cbn zeta in *.
    set (s1 := snd (reject_if_pending (obj_get key (store s))
                      (VStr "WebSocket error occurred") s)) in *.
    destruct (IH s1) as (I1 & I2 & I3 & I4). cbn zeta in *.
    rewrite I1, I2, E1, E2. repeat split; try reflexivity.
    + intros l Hl. apply I3, E3, Hl.
    + intros key' l Hin Hget. apply elem_of_cons in Hin as [->|Hin].
      * apply I3, E4. exact Hget.
      * apply (I4 key' l Hin). rewrite E1. exact Hget.
Qed.

Lemma rejectQueue_store_noop (keys : list string) (s : WSRPC) :
  (forall key l, key ∈ keys -> obj_get key (store s) = Some l ->
     settled_at (heap s) l) ->
  rejectQueue_store keys s = (Ok tt, s).
Proof.
  induction keys as [|key keys IH]; intros H; [reflexivity|].
  rewrite rejectQueue_store_cons.
  rewrite reject_if_pending_noop.
  - apply IH. intros key' l Hin. apply H. apply elem_of_cons. right. exact Hin.
  - intros l Hl.
    apply (H key l); [apply elem_of_cons; left; reflexivity|exact Hl].
Qed.

Lemma rejectQueue_calls_queue (q : list CallObj) (s : WSRPC) :
  callQueue (snd (rejectQueue_calls q s))
  = match q with [] => callQueue s | _ => [] end.
Proof.
  revert s. induction q as [|c q IH]; intros s; [reflexivity|].
  rewrite rejectQueue_calls_cons, IH.
  match goal with
  | |- context [reject_if_pending ?d ?r ?st] =>
      destruct (reject_if_pending_effect d r st) as (_ & E2 & _)
  end.
  cbn zeta in E2. rewrite E2. destruct q; reflexivity.
Qed.

Lemma obj_get_in_keys {A} (name : string) (o : list (Z * A)) (v : A) :
  obj_get name o = Some v -> name ∈ obj_keys o.
Proof.
  induction o as [|[k w] o IH]; cbn [obj_get obj_keys map fst]; [discriminate|].
  destruct (String.eqb_spec (pretty k) name) as [->|Hne]; intros H.
  - apply elem_of_cons. left. reflexivity.
  - apply elem_of_cons. right. apply IH. exact H.
Qed.

(** After [rejectQueue] the queue is empty and no call in the store is
    pending; run again at once, it returns and leaves the futures, the
    settlements made, the store and the queue as they are. *)
Lemma rejectQueue_twice (s : WSRPC) :
  let s1 := exec rejectQueue s in
  let s2 := exec rejectQueue s1 in
  callQueue s1 = []
  /\ (forall key l, obj_get key (store s1) = Some l -> settled_at (heap s1) l)
  /\ eval rejectQueue s1 = Ok tt
  /\ heap s2 = heap s1
  /\ settled s2 = settled s1
  /\ store s2 = store s1
  /\ callQueue s2 = [].
Proof.
  intros s1 s2.
  assert (H1 : callQueue s1 = []
               /\ (forall key l, obj_get key (store s1) = Some l ->
                     settled_at (heap s1) l)).
  { subst s1. unfold exec. rewrite rejectQueue_run. cbn zeta.
    set (s0 := set_connectionNumber (connectionNumber s + 1) s).
    pose proof (rejectQueue_calls_queue (callQueue s) s0) as Hq.
    set (sa := snd (rejectQueue_calls (callQueue s) s0)) in *.
    destruct (rejectQueue_store_effect (obj_keys (store sa)) sa)
      as (E1 & E2 & _ & E4). cbn zeta in *.
    rewrite E2, Hq. split.
    - change (callQueue s0) with (callQueue s). destruct (callQueue s);
        reflexivity.
    - intros key l Hget. rewrite E1 in Hget.
      apply (E4 key l); [|exact Hget].
      eapply obj_get_in_keys. exact Hget. }
  destruct H1 as [Hq Hst]. split; [exact Hq|]. split; [exact Hst|].
  assert (Hrun : rejectQueue s1
                 = (Ok tt, set_connectionNumber (connectionNumber s1 + 1) s1)).
  { rewrite rejectQueue_run. cbn zeta. rewrite Hq. cbn [rejectQueue_calls].
    unfold ret. cbn [snd].
    apply rejectQueue_store_noop. intros key l _ Hget.
    exact (Hst key l Hget). }
  subst s2. unfold eval, exec. rewrite Hrun. cbn [fst snd].
  repeat split; try reflexivity. exact Hq.
Qed.

(** * Further properties of the client *)

(** ** Invariants of a session *)

Section Preserves.
Context (P : WSRPC -> Prop).

Lemma preserves_ret {A} (a : A) : preserves P (ret a).
Proof. intros s H. exact H. Qed.

Lemma preserves_throw {A} (e : value) : preserves P (@throw A e).
Proof. intros s H. exact H. Qed.

Lemma preserves_gets {A} (g : WSRPC -> A) : preserves P (gets g).
Proof. intros s H. exact H. Qed.

Lemma preserves_lift {A} (r : result A) : preserves P (lift r).
Proof. intros s H. exact H. Qed.

Lemma preserves_modify (g : WSRPC -> WSRPC) :
  (forall s, P s -> P (g s)) -> preserves P (modify g).
Proof. intros Hg s H. apply Hg, H. Qed.

Lemma preserves_bind {A C} (m : M A) (k : A -> M C) :
  preserves P m -> (forall a, preserves P (k a)) -> preserves P (bind m k).
Proof.
  intros Hm Hk s H. unfold bind. specialize (Hm s H).
  destruct (m s) as [[a|e] s']; cbn [snd] in *.
  - apply Hk, Hm.
  - exact Hm.
Qed.

Lemma preserves_try_catch {A} (m : M A) (h : value -> M A) :
  preserves P m -> (forall e, preserves P (h e)) ->
  preserves P (try_catch m h).
Proof.
  intros Hm Hh s H. unfold try_catch. specialize (Hm s H).
  destruct (m s) as [[a|e] s']; cbn [snd] in *.
  - exact Hm.
  - apply Hh, Hm.
Qed.

Lemma preserves_run (os : list op) :
  (forall o, preserves P (step o)) ->
  forall s, P s -> P (run os s).
Proof.
  intros Hstep. induction os as [|o os IH]; intros s H; cbn [run].
  - exact H.
  - apply IH. apply (Hstep o s H).
Qed.
End Preserves.

Create HintDb inv discriminated.

(** The changes of state that are not on the list of hints leave the
    invariant as it is by computation. *)
Ltac keep_inv :=
  lazymatch goal with
  | |- preserves _ (bind _ _) =>
      apply preserves_bind; [keep_inv | intros ?; keep_inv]
  | |- preserves _ (try_catch _ _) =>
      apply preserves_try_catch; [keep_inv | intros ?; keep_inv]
  | |- preserves _ (ret _) => apply preserves_ret
  | |- preserves _ (throw _) => apply preserves_throw
  | |- preserves _ (gets _) => apply preserves_gets
  | |- preserves _ (lift _) => apply preserves_lift
  | |- preserves _ (if ?b then _ else _) => destruct b; keep_inv
  | |- preserves _ (match ?x with _ => _ end) => destruct x; keep_inv
  | |- preserves _ ?m =>
      let h := head_of m in
      first
        [ solve [auto with inv nocore]
        | assumption
        | apply preserves_modify;
          let s := fresh "s" in let H := fresh "H" in
          intros s H; first [exact H | solve [auto with inv nocore]]
        | let s := fresh "s" in let H := fresh "H" in
          intros s H; cbv beta delta [socket_send socket_close];
          repeat case_match; exact H
        | is_loop h; fail 2 "loop without a lemma"
        | progress (unfold h; cbv zeta); keep_inv ]
  end.

Ltac keep_inv_loop :=
  let q := fresh "q" in
  let IH := fresh "IH" in
  intros q; induction q as [|? q IH]; intros; cbn [rejectQueue_calls
    rejectQueue_store callEvents_oneTime callEvents_durable onclose_store
    onopen_flush onmessage_listeners]; keep_inv.

(** *** A settled future is final *)

Lemma Deferred_new_keeps_lookup (l : loc) (d : Deferred) :
  preserves (fun s => heap s !! l = Some d) Deferred_new.
Proof.
  intros s H. cbn. apply lookup_app_l_Some. exact H.
Qed.

Lemma Deferred_settle_keeps_settled (l l' : loc) (c : settle) (d : Deferred) :
  done d = true ->
  preserves (fun s => heap s !! l = Some d) (Deferred_settle l' c).
Proof.
  intros Hd s H. unfold Deferred_settle.
  destruct (heap s !! l') as [d'|] eqn:Hl'; [|exact H].
  destruct (decide (l' = l)) as [->|Hne].
  - rewrite H in Hl'. injection Hl' as <-.
    rewrite settle_done by assumption. exact H.
  - destruct (apply_settle c d') as [[[]|e] d'']; [|exact H].
    cbn. rewrite list_lookup_insert_ne by assumption. exact H.
Qed.

#[export] Hint Resolve Deferred_new_keeps_lookup Deferred_settle_keeps_settled
  : inv.

Section SettledIsFinal.
Context (l : loc) (d : Deferred) (Hd : done d = true).

Let final (s : WSRPC) : Prop := heap s !! l = Some d.

Lemma final_Deferred_new : preserves final Deferred_new.
Proof. apply Deferred_new_keeps_lookup. Qed.

Lemma final_Deferred_settle (l' : loc) (c : settle) :
  preserves final (Deferred_settle l' c).
Proof. apply Deferred_settle_keeps_settled, Hd. Qed.

Hint Resolve final_Deferred_new final_Deferred_settle : inv.

Lemma final_rejectQueue_calls : forall q, preserves final (rejectQueue_calls q).
Proof. keep_inv_loop. Qed.
Lemma final_rejectQueue_store : forall q, preserves final (rejectQueue_store q).
Proof. keep_inv_loop. Qed.
Lemma final_callEvents_oneTime :
  forall q e, preserves final (callEvents_oneTime e q).
Proof. keep_inv_loop. Qed.
Lemma final_callEvents_durable :
  forall q v, preserves final (callEvents_durable q v).
Proof. keep_inv_loop. Qed.
Lemma final_onclose_store : forall q, preserves final (onclose_store q).
Proof. keep_inv_loop. Qed.
Lemma final_onopen_flush : forall q, preserves final (onopen_flush q).
Proof. keep_inv_loop. Qed.
Lemma final_onmessage_listeners :
  forall q v, preserves final (onmessage_listeners q v).
Proof. keep_inv_loop. Qed.

Hint Resolve final_rejectQueue_calls final_rejectQueue_store
  final_callEvents_oneTime final_callEvents_durable final_onclose_store
  final_onopen_flush final_onmessage_listeners : inv.

Lemma final_step (o : op) : preserves final (step o).
Proof. destruct o; cbn [step]; keep_inv. Qed.
End SettledIsFinal.

(** X1. A future that is settled stays as it is: whatever happens to the
    session afterwards (replies, events, reconnections, a second attempt
    to settle it), its outcome is the one of the first settlement. *)
Theorem settled_future_is_final
    (os : list op) (s : WSRPC) (l : loc) (d : Deferred) :
  heap s !! l = Some d ->
  done d = true ->
  heap (run os s) !! l = Some d.
Proof.
  intros Hl Hd.
  apply (preserves_run (fun s => heap s !! l = Some d)); [|exact Hl].
  intros o. apply final_step, Hd.
Qed.

Lemma settled_future_is_final_witness :
  let s := run [Connect None; Transport OPEN;
                Call (VStr "ping") (VStr "hi") VUndef;
                WsError {| e_type := "error" |}] WSRPC_new in
  let d := {| done := true;
              promise := Rejected (VStr "WebSocket error occurred") |} in
  heap s !! 0%nat = Some d
  /\ heap (run [WsMessage {| type := "message";
                             data := Ok (VObj [("id", VNum 3);
                                               ("result", VStr "hi")]) |};
                WsClose {| e_type := "close" |}] s) !! 0%nat = Some d.
Proof.
  intros s d.
  assert (H : heap s !! 0%nat = Some d) by (vm_compute; reflexivity).
  split; [exact H|].
  exact (settled_future_is_final _ s 0%nat d H eq_refl).
Defined.

(** *** Every future is settled at most once *)

Lemma settled_once_Deferred_new : preserves settled_once Deferred_new.
Proof.
  intros s (Hnd & Hlt & Hheap). unfold settled_once. cbn.
  split; [exact Hnd|]. split.
  - intros l Hl. rewrite length_app. specialize (Hlt l Hl). cbn. lia.
  - intros l d Hl. apply lookup_app_Some in Hl as [Hl|[Hge Hl]].
    + apply Hheap, Hl.
    + apply list_lookup_singleton_Some in Hl as [Hl <-].
      left. split; [reflexivity|]. intros Hin. specialize (Hlt l Hin). lia.
Qed.

Lemma settled_once_Deferred_settle (l : loc) (c : settle) :
  preserves settled_once (Deferred_settle l c).
Proof.
  intros s H. unfold Deferred_settle.
  destruct (heap s !! l) as [d|] eqn:Hl; [|exact H].
  destruct H as (Hnd & Hlt & Hheap).
  destruct (Hheap l d Hl) as [[-> Hfresh]|(c' & Hin & ->)].
  2: { rewrite settle_done by reflexivity. repeat split; assumption. }
  rewrite settle_fresh. unfold settled_once. cbn.
  assert (Hlen : (l < length (heap s))%nat) by (eapply lookup_lt_Some; eauto).
  rewrite map_app. cbn [map fst]. split; [|split].
  - apply NoDup_app. split; [exact Hnd|]. split.
    + intros x Hx Hx'. apply list_elem_of_singleton in Hx'. subst x.
      exact (Hfresh Hx).
    + apply NoDup_singleton.
  - intros x Hx. rewrite length_insert.
    apply elem_of_app in Hx as [Hx|Hx]; [exact (Hlt x Hx)|].
    apply list_elem_of_singleton in Hx. subst x. exact Hlen.
  - intros x d Hx. destruct (decide (l = x)) as [<-|Hne].
    + rewrite list_lookup_insert_eq in Hx by assumption. injection Hx as <-.
      right. exists c. split; [|reflexivity].
      apply elem_of_app. right. apply list_elem_of_singleton. reflexivity.
    + rewrite list_lookup_insert_ne in Hx by assumption.
      destruct (Hheap x d Hx) as [[-> Hf]|(c' & Hin & ->)].
      * left. split; [reflexivity|]. intros Hin.
        apply elem_of_app in Hin as [Hin|Hin]; [exact (Hf Hin)|].
        apply list_elem_of_singleton in Hin. congruence.
      * right. exists c'. split; [|reflexivity].
        apply elem_of_app. left. exact Hin.
Qed.

#[export] Hint Resolve settled_once_Deferred_new settled_once_Deferred_settle
  : inv.

Lemma settled_once_rejectQueue_calls :
  forall q, preserves settled_once (rejectQueue_calls q).
Proof. keep_inv_loop. Qed.
Lemma settled_once_rejectQueue_store :
  forall q, preserves settled_once (rejectQueue_store q).
Proof. keep_inv_loop. Qed.
Lemma settled_once_callEvents_oneTime :
  forall q e, preserves settled_once (callEvents_oneTime e q).
Proof. keep_inv_loop. Qed.
Lemma settled_once_callEvents_durable :
  forall q v, preserves settled_once (callEvents_durable q v).
Proof. keep_inv_loop. Qed.
Lemma settled_once_onclose_store :
  forall q, preserves settled_once (onclose_store q).
Proof. keep_inv_loop. Qed.
Lemma settled_once_onopen_flush :
  forall q, preserves settled_once (onopen_flush q).
Proof. keep_inv_loop. Qed.
Lemma settled_once_onmessage_listeners :
  forall q v, preserves settled_once (onmessage_listeners q v).
Proof. keep_inv_loop. Qed.

#[export] Hint Resolve settled_once_rejectQueue_calls
  settled_once_rejectQueue_store settled_once_callEvents_oneTime
  settled_once_callEvents_durable settled_once_onclose_store
  settled_once_onopen_flush settled_once_onmessage_listeners : inv.

Lemma settled_once_step (o : op) : preserves settled_once (step o).
Proof. destruct o; cbn [step]; keep_inv. Qed.

Lemma settled_once_new : settled_once WSRPC_new.
Proof.
  unfold settled_once. cbn. split; [constructor|]. split.
  - intros l Hl. inversion Hl.
  - intros l d Hl. rewrite lookup_nil in Hl. discriminate.
Qed.

(** X2. In every session, no future is settled twice, a future that was
    settled holds the outcome of its one settlement (so none is both
    resolved and rejected), and every other future is pending. *)
Theorem session_settles_each_future_once (os : list op) :
  settled_once (run os WSRPC_new).
Proof.
  apply (preserves_run settled_once); [|exact settled_once_new].
  exact settled_once_step.
Qed.

(** *** Call ids are odd *)

Lemma odd_id_next (s : WSRPC) : odd_id s -> odd_id (set_id (id s + 2) s).
Proof.
  intros [Ho Hge]. unfold odd_id. cbn [id set_id]. split; [|lia].
  rewrite Z.odd_add, Ho. reflexivity.
Qed.

Lemma odd_id_reset (s : WSRPC) : odd_id s -> odd_id (set_id 1 s).
Proof. intros _. split; [reflexivity|]. cbn. lia. Qed.

#[export] Hint Resolve odd_id_next odd_id_reset : inv.

Lemma odd_id_Deferred_new : preserves odd_id Deferred_new.
Proof. intros s H. exact H. Qed.

Lemma odd_id_Deferred_settle (l : loc) (c : settle) :
  preserves odd_id (Deferred_settle l c).
Proof.
  intros s H. unfold Deferred_settle. repeat case_match; exact H.
Qed.

#[export] Hint Resolve odd_id_Deferred_new odd_id_Deferred_settle : inv.

Lemma odd_id_rejectQueue_calls : forall q, preserves odd_id (rejectQueue_calls q).
Proof. keep_inv_loop. Qed.
Lemma odd_id_rejectQueue_store : forall q, preserves odd_id (rejectQueue_store q).
Proof. keep_inv_loop. Qed.
Lemma odd_id_callEvents_oneTime :
  forall q e, preserves odd_id (callEvents_oneTime e q).
Proof. keep_inv_loop. Qed.
Lemma odd_id_callEvents_durable :
  forall q v, preserves odd_id (callEvents_durable q v).
Proof. keep_inv_loop. Qed.
Lemma odd_id_onclose_store : forall q, preserves odd_id (onclose_store q).
Proof. keep_inv_loop. Qed.
Lemma odd_id_onopen_flush : forall q, preserves odd_id (onopen_flush q).
Proof. keep_inv_loop. Qed.
Lemma odd_id_onmessage_listeners :
  forall q v, preserves odd_id (onmessage_listeners q v).
Proof. keep_inv_loop. Qed.

#[export] Hint Resolve odd_id_rejectQueue_calls odd_id_rejectQueue_store
  odd_id_callEvents_oneTime odd_id_callEvents_durable odd_id_onclose_store
  odd_id_onopen_flush odd_id_onmessage_listeners : inv.

Lemma odd_id_step (o : op) : preserves odd_id (step o).
Proof. destruct o; cbn [step]; keep_inv. Qed.

Lemma call_ids_odd (os : list op) (s : WSRPC) :
  odd_id s ->
  Forall (fun i => Z.odd i = true /\ 3 <= i) (call_ids os s).
Proof.
  revert s. induction os as [|o os IH]; intros s H; cbn [call_ids];
    [constructor|].
  pose proof (odd_id_step o s H) as H'. fold (exec (step o) s) in H'.
  destruct o; try (apply IH; exact H').
  constructor; [|apply IH; exact H'].
  pose proof (step_id (Call func args params) s eq_refl) as Hid.
  cbn [is_call] in Hid. rewrite Hid. destruct H as [Ho Hge].
  split; [|lia]. rewrite Z.odd_add, Ho. reflexivity.
Qed.

(** The counter after a reconnection timer: as it was, or back at 1. *)
Lemma timer_fires_id (ctor : option value) (s : WSRPC) :
  id (exec (timer_fires ctor) s) = id s \/ id (exec (timer_fires ctor) s) = 1.
Proof.
  unfold exec, timer_fires.
  change (bind (gets timers) ?k s) with (k (timers s) s). cbv beta.
  destruct (timers s) as [|n]; [left; reflexivity|].
  change (bind (modify ?g) ?k s) with (k tt (g s)). cbv beta.
  destruct ctor as [exc|]; [left|right; reflexivity].
  unfold reconnect_timeout, try_catch, createSocket.
  unfold throw at 1. unfold bind at 1.
  assert (K : keeps id (callEvents onerror exc ;;
                        modify (set_socket None) ;; console_error exc)%js)
    by frame.
  apply (K (set_timers n s)).
Qed.

(** No id is further from the counter than the calls issued can take
    it. *)
Lemma call_ids_le (os : list op) (s : WSRPC) :
  1 <= id s ->
  Forall (fun i => i <= id s
                        + 2 * Z.of_nat
                                (length (filter (fun o => is_call o = true) os)))
    (call_ids os s).
Proof.
  revert s. induction os as [|o os IH]; intros s H; cbn [call_ids];
    [constructor|].
  rewrite filter_cons.
  assert (Hstep : 1 <= id (exec (step o) s)
                  /\ id (exec (step o) s)
                     <= id s + (if is_call o then 2 else 0)).
  { destruct (resets_id o) eqn:Ho.
    - destruct o; try discriminate Ho. cbn [step is_call].
      destruct (timer_fires_id ctor s) as [E|E]; rewrite E; lia.
    - rewrite (step_id o s Ho). destruct (is_call o); lia. }
  destruct Hstep as [Hlo Hhi].
  specialize (IH (exec (step o) s) Hlo).
  assert (Hrest : Forall
                    (fun i => i <= id s
                                   + 2 * Z.of_nat
                                           (length
                                              (if decide (is_call o = true)
                                               then o :: filter
                                                           (fun o => is_call o
                                                                     = true) os
                                               else filter
                                                      (fun o => is_call o
                                                                = true) os)))
                    (call_ids os (exec (step o) s))).
  { eapply Forall_impl; [exact IH|]. cbv beta. intros i Hi.
    destruct (is_call o); case_decide; try discriminate; try congruence;
      cbn [length]; lia. }
  destruct o; try exact Hrest.
  constructor; [|exact Hrest].
  cbn [is_call] in *. case_decide; [|congruence]. cbn [length]. lia.
Qed.

(** X3. In every session in which the calls are few enough for the
    counter to stay a safe integer, the ids given to calls are odd
    numbers, 3 at least, and safe integers: the counter starts at 1,
    every call adds 2 and a reconnection puts it back to 1, so the even
    ids are never used by this side. *)
Theorem session_call_ids_are_odd (os : list op) :
  safe_integer
    (1 + 2 * Z.of_nat (length (filter (fun o => is_call o = true) os))) ->
  odd_id (run os WSRPC_new)
  /\ Forall (fun i => Z.odd i = true /\ 3 <= i /\ safe_integer i)
       (call_ids os WSRPC_new).
Proof.
  intros Hsafe.
  assert (H0 : odd_id WSRPC_new) by (split; [reflexivity|cbn; lia]).
  split.
  - apply (preserves_run odd_id); [exact odd_id_step|exact H0].
  - pose proof (call_ids_odd os WSRPC_new H0) as Hodd.
    pose proof (call_ids_le os WSRPC_new (proj2 H0)) as Hle.
    change (id WSRPC_new) with 1 in Hle.
    apply Forall_forall. intros i Hin.
    pose proof (proj1 (Forall_forall _ _) Hodd i Hin) as [Ho H3].
    pose proof (proj1 (Forall_forall _ _) Hle i Hin) as Hi.
    cbv beta in Hi.
    split; [exact Ho|]. split; [exact H3|].
    unfold safe_integer in *. lia.
Qed.

Lemma session_call_ids_are_odd_witness :
  let ping := Call (VStr "ping") (VStr "hi") VUndef in
  let os := [Connect None; Transport OPEN; ping; ping; Transport CLOSED;
             WsClose {| e_type := "close" |}; ReconnectTimeout None;
             Transport OPEN; ping] in
  call_ids os WSRPC_new = [3; 5; 3]
  /\ Forall (fun i => Z.odd i = true /\ 3 <= i /\ safe_integer i)
       (call_ids os WSRPC_new).
Proof.
  intros ping os.
  assert (Hsafe : safe_integer
                    (1 + 2 * Z.of_nat
                               (length (filter (fun o => is_call o = true)
                                          os))))
    by (vm_compute; split; reflexivity).
  split; [vm_compute; reflexivity|].
  exact (proj2 (session_call_ids_are_odd os Hsafe)).
Defined.

(** ** Calls and their replies *)

Lemma pretty_eqb_Z (k k' : Z) :
  String.eqb (pretty k) (pretty k') = Z.eqb k k'.
Proof.
  destruct (Z.eqb_spec k k') as [->|Hne].
  - apply String.eqb_refl.
  - apply String.eqb_neq. intros H. apply Hne.
    exact (pretty_Z_inj _ _ H).
Qed.

Lemma obj_get_set_eq {A} (k : Z) (v : A) (o : list (Z * A)) :
  obj_get (pretty k) (obj_set k v o) = Some v.
Proof.
  induction o as [|[k' v'] o IH]; cbn [obj_set obj_get].
  - rewrite String.eqb_refl. reflexivity.
  - destruct (Z.ltb_spec k k') as [Hlt|Hge].
    + cbn [obj_get]. rewrite String.eqb_refl. reflexivity.
    + destruct (Z.eqb_spec k k') as [->|Hne]; cbn [obj_get].
      * rewrite String.eqb_refl. reflexivity.
      * rewrite pretty_eqb_Z.
        destruct (Z.eqb_spec k' k) as [->|_]; [congruence|exact IH].
Qed.

Lemma obj_get_set_ne {A} (k : Z) (v : A) (name : string) (o : list (Z * A)) :
  name <> pretty k ->
  obj_get name (obj_set k v o) = obj_get name o.
Proof.
  intros Hne. induction o as [|[k' v'] o IH]; cbn [obj_set obj_get].
  - destruct (String.eqb_spec (pretty k) name); [congruence|reflexivity].
  - destruct (Z.ltb_spec k k') as [Hlt|Hge].
    + cbn [obj_get].
      destruct (String.eqb_spec (pretty k) name); [congruence|reflexivity].
    + destruct (Z.eqb_spec k k') as [->|Hne']; cbn [obj_get].
      * destruct (String.eqb_spec (pretty k') name); [congruence|reflexivity].
      * rewrite IH. reflexivity.
Qed.

Lemma obj_get_delete_eq {A} (name : string) (o : list (Z * A)) :
  obj_get name (obj_delete name o) = None.
Proof.
  induction o as [|[k v] o IH]; cbn [obj_delete obj_get]; [reflexivity|].
  destruct (String.eqb_spec (pretty k) name) as [He|Hne]; [exact IH|].
  cbn [obj_get].
  destruct (String.eqb_spec (pretty k) name); [congruence|exact IH].
Qed.

Lemma obj_get_delete_ne {A} (name name' : string) (o : list (Z * A)) :
  name <> name' ->
  obj_get name (obj_delete name' o) = obj_get name o.
Proof.
  intros Hne. induction o as [|[k v] o IH]; cbn [obj_delete obj_get];
    [reflexivity|].
  destruct (String.eqb_spec (pretty k) name') as [He|Hne'].
  - destruct (String.eqb_spec (pretty k) name); [congruence|exact IH].
  - cbn [obj_get]. rewrite IH. reflexivity.
Qed.

Lemma state_OPEN (s : WSRPC) :
  state s = "OPEN" ->
  socketStarted s = true /\ socket s = Some {| readyState := OPEN |}.
Proof.
  unfold state, stateCode.
  destruct (socketStarted s), (socket s) as [[[]]|]; simpl;
    intros H; try discriminate H; split; reflexivity.
Qed.

(** A call issued while OPEN. *)
Lemma call_while_open (func args params : value) (s : WSRPC) :
  state s = "OPEN" ->
  exists s',
    call func args params s = (Ok (length (heap s)), s')
    /\ heap s' = heap s ++ [new_Deferred]
    /\ store s' = obj_set (id s + 2) (length (heap s)) (store s)
    /\ sent s' = sent s ++ [JSON_stringify
                              (CallObj_value {| co_id := id s + 2;
                                                co_method := func;
                                                co_params := args |}) 0]
    /\ callQueue s' = callQueue s
    /\ id s' = id s + 2
    /\ settled s' = settled s
    /\ socket s' = socket s
    /\ socketStarted s' = socketStarted s.
Proof.
  intros Hst. destruct (state_OPEN s Hst) as [_ Hsock].
  remember (call func args params s) as R eqn:ER.
  unfold call, makeCall in ER.
  unfold bind, modify, gets, Deferred_new, ret, store_put, socket_send in ER.
  cbn -[state String.eqb obj_set pretty] in ER.
  change (state (set_heap _ _)) with (state s) in ER. rewrite Hst in ER.
  cbn -[state obj_set pretty] in ER. rewrite Hsock in ER.
  cbn -[state obj_set pretty] in ER.
  subst R. eexists. split; [reflexivity|].
  cbn -[state obj_set pretty]. repeat split; reflexivity.
Qed.

Lemma onmessage_try_handleResult (frame : value) (s : WSRPC) (has_error : bool) :
  hasOwnProperty frame "id" = Ok true ->
  hasOwnProperty frame "method" = Ok false ->
  hasOwnProperty frame "error" = Ok has_error ->
  has_error && is_null (member frame "error") = false ->
  exists c, onmessage_try frame s = handleResult frame (set_console c s).
Proof.
  intros Hid Hm He Hnull. unfold onmessage_try.
  destruct (log_runs [frame] s) as [c1 H1].
  rewrite (bind_run _ _ _ _ _ H1).
  unfold lift at 1. unfold bind at 1. rewrite Hid. cbn [negb].
  unfold lift at 1. unfold bind at 1. rewrite Hm.
  unfold lift at 1. unfold bind at 1. rewrite He, Hnull.
  exists c1. reflexivity.
Qed.

Lemma handleResult_found (frame : value) (s : WSRPC) (l : loc) (b : bool) :
  obj_get (to_string (member frame "id")) (store s) = Some l ->
  heap s !! l = Some new_Deferred ->
  hasOwnProperty frame "result" = Ok b ->
  exists s',
    handleResult frame s = (Ok tt, s')
    /\ heap s' = <[l := {| done := true;
                          promise := outcome_of (frame_settle frame b) |}]>
                   (heap s)
    /\ settled s' = settled s ++ [(l, frame_settle frame b)]
    /\ store s' = obj_delete (to_string (member frame "id")) (store s)
    /\ sent s' = sent s.
Proof.
  intros Hget Hl Hres.
  remember (handleResult frame s) as R eqn:ER.
  unfold handleResult in ER.
  unfold lift at 1 in ER. unfold bind at 1 in ER.
  rewrite (key_of_stored _ _ _ Hget) in ER.
  unfold gets at 1 in ER. unfold bind at 1 in ER. rewrite Hget in ER.
  unfold store_delete, modify in ER. unfold bind at 1 in ER.
  unfold lift at 1 in ER. unfold bind at 1 in ER. rewrite Hres in ER.
  unfold Deferred_resolve, Deferred_reject, Deferred_settle in ER.
  destruct b;
    cbn -[lookup insert obj_delete apply_settle member to_string] in ER;
    rewrite Hl in ER;
    cbn -[lookup insert obj_delete member to_string] in ER;
    subst R; eexists; (split; [reflexivity|]);
    cbn -[lookup insert obj_delete member to_string];
    repeat split; reflexivity.
Qed.

Lemma handleResult_unknown (frame : value) (name : string) (s : WSRPC) :
  ToPropertyKey (member frame "id") = Ok name ->
  obj_get name (store s) = None ->
  inherited name = false ->
  handleResult frame s = log [VStr "Confirmation without handler"] s.
Proof.
  intros Hkey Hget Hinh. unfold handleResult.
  unfold lift at 1. unfold bind at 1. rewrite Hkey.
  unfold gets at 1. unfold bind at 1. rewrite Hget, Hinh. reflexivity.
Qed.

(** X4. A reply frame (an [id], no [method], and not an [error] that is
    [null]) whose id names a pending call settles that call: resolved
    with the frame's [result] when it has one, rejected with its [error]
    otherwise; the call leaves the store and nothing is transmitted. *)
Theorem reply_settles_pending_call
    (frame : value) (s : WSRPC) (l : loc) (has_error has_result : bool) :
  hasOwnProperty frame "id" = Ok true ->
  hasOwnProperty frame "method" = Ok false ->
  hasOwnProperty frame "error" = Ok has_error ->
  has_error && is_null (member frame "error") = false ->
  hasOwnProperty frame "result" = Ok has_result ->
  obj_get (to_string (member frame "id")) (store s) = Some l ->
  heap s !! l = Some new_Deferred ->
  let s' := exec (ws_onmessage (message_of frame)) s in
  eval (ws_onmessage (message_of frame)) s = Ok tt
  /\ heap s' !! l = Some {| done := true;
                           promise := outcome_of (frame_settle frame has_result) |}
  /\ settled s' = settled s ++ [(l, frame_settle frame has_result)]
  /\ obj_get (to_string (member frame "id")) (store s') = None
  /\ sent s' = sent s.
Proof.
  intros Hid Hm He Hnull Hres Hget Hl s'. subst s'. unfold exec, eval.
  destruct (ws_onmessage_parsed (message_of frame) frame s eq_refl eq_refl)
    as [c Hrun].
  rewrite Hrun. clear Hrun.
  destruct (onmessage_try_handleResult frame (set_console c s) has_error
              Hid Hm He Hnull) as [c' Htry].
  unfold try_catch. rewrite Htry. clear Htry.
  destruct (handleResult_found frame (set_console c' (set_console c s)) l
              has_result Hget Hl Hres)
    as (s2 & Hrun & Hh & Hst & Hstore & Hsent).
  rewrite Hrun. cbn [fst snd]. rewrite Hh, Hst, Hstore, Hsent.
  split; [reflexivity|]. split.
  - apply list_lookup_insert_eq. eapply lookup_lt_Some. exact Hl.
  - split; [reflexivity|]. split; [apply obj_get_delete_eq|reflexivity].
Qed.

Lemma reply_settles_pending_call_witness :
  let s := run [Connect None; Transport OPEN;
                Call (VStr "ping") (VStr "hi") VUndef] WSRPC_new in
  let frame := VObj [("id", VNum 3); ("result", VStr "hi")] in
  heap s !! 0%nat = Some new_Deferred
  /\ heap (exec (ws_onmessage (message_of frame)) s) !! 0%nat
     = Some {| done := true; promise := Fulfilled (VStr "hi") |}.
Proof.
  intros s frame.
  assert (Hl : heap s !! 0%nat = Some new_Deferred) by (vm_compute; reflexivity).
  assert (Hget : obj_get (to_string (member frame "id")) (store s) = Some 0%nat)
    by (vm_compute; reflexivity).
  split; [exact Hl|].
  pose proof (reply_settles_pending_call frame s 0%nat false true
                eq_refl eq_refl eq_refl eq_refl eq_refl Hget Hl)
    as (_ & H & _).
  exact H.
Defined.

Lemma reply_frame_id (i : Z) (c : settle) :
  to_string (member (reply_frame i c) "id") = pretty i.
Proof. destruct c; reflexivity. Qed.

(** The handler on the reply to call [i], when the store has that call
    and its future is pending. *)
Lemma ws_onmessage_reply (i : Z) (c : settle) (s : WSRPC) (l : loc) :
  obj_get (pretty i) (store s) = Some l ->
  heap s !! l = Some new_Deferred ->
  exists s',
    ws_onmessage (message_of (reply_frame i c)) s = (Ok tt, s')
    /\ heap s' = <[l := {| done := true; promise := outcome_of c |}]> (heap s)
    /\ settled s' = settled s ++ [(l, c)]
    /\ store s' = obj_delete (pretty i) (store s)
    /\ sent s' = sent s.
Proof.
  intros Hget Hl.
  set (frame := reply_frame i c).
  destruct (ws_onmessage_parsed (message_of frame) frame s eq_refl eq_refl)
    as [c0 Hrun].
  rewrite Hrun. clear Hrun. unfold try_catch.
  set (s0 := set_console c0 s).
  assert (Hname : to_string (member frame "id") = pretty i)
    by apply reply_frame_id.
  destruct c as [r|e].
  - destruct (onmessage_try_handleResult frame s0 false
                eq_refl eq_refl eq_refl eq_refl) as [c1 Htry].
    rewrite Htry.
    destruct (handleResult_found frame (set_console c1 s0) l true)
      as (s2 & H2 & Hh & Hst & Hstore & Hsent);
      [rewrite Hname; exact Hget|exact Hl|reflexivity|].
    rewrite H2. exists s2. rewrite Hname in Hstore.
    repeat split; assumption.
  - destruct (is_null e) eqn:Hnull.
    + destruct e; try discriminate Hnull.
      destruct (onmessage_try_handleError frame s0
                  eq_refl eq_refl eq_refl eq_refl) as [c1 Htry].
      rewrite Htry.
      destruct (handleError_found frame (set_console c1 s0) l)
        as (s2 & H2 & Hh & Hst & Hstore & Hsent);
        [rewrite Hname; exact Hget|exact Hl|].
      rewrite H2. exists s2. rewrite Hname in Hstore.
      repeat split; assumption.
    + destruct (onmessage_try_handleResult frame s0 true
                  eq_refl eq_refl eq_refl) as [c1 Htry].
      { cbn. exact Hnull. }
      rewrite Htry.
      destruct (handleResult_found frame (set_console c1 s0) l false)
        as (s2 & H2 & Hh & Hst & Hstore & Hsent);
        [rewrite Hname; exact Hget|exact Hl|reflexivity|].
      rewrite H2. exists s2. rewrite Hname in Hstore.
      repeat split; assumption.
Qed.

(** X5. Round trip of a call. A call issued while OPEN returns a pending
    promise and transmits its envelope; when the reply with the id of
    the call arrives, the promise is resolved with the reply's result,
    or rejected with its error ([null] included), the call is forgotten
    and nothing is sent back. *)
Theorem call_reply_round_trip
    (func args params : value) (c : settle) (s : WSRPC) :
  state s = "OPEN" ->
  let l := length (heap s) in
  let s1 := exec (call func args params) s in
  let reply := message_of (reply_frame (id s + 2) c) in
  let s2 := exec (ws_onmessage reply) s1 in
  eval (call func args params) s = Ok l
  /\ heap s1 !! l = Some new_Deferred
  /\ sent s1 = sent s ++ [JSON_stringify
                            (CallObj_value {| co_id := id s + 2;
                                              co_method := func;
                                              co_params := args |}) 0]
  /\ eval (ws_onmessage reply) s1 = Ok tt
  /\ heap s2 !! l = Some {| done := true; promise := outcome_of c |}
  /\ obj_get (pretty (id s + 2)) (store s2) = None
  /\ sent s2 = sent s1.
Proof.
  intros Hst l s1 reply s2. subst l s1 reply s2. unfold exec, eval.
  destruct (call_while_open func args params s Hst)
    as (s1 & Hcall & Hheap & Hstore & Hsent & _).
  rewrite Hcall. cbn [fst snd].
  assert (Hl : heap s1 !! length (heap s) = Some new_Deferred).
  { rewrite Hheap. apply heap_lookup_fresh. }
  assert (Hget : obj_get (pretty (id s + 2)) (store s1)
                 = Some (length (heap s))).
  { rewrite Hstore. apply obj_get_set_eq. }
  destruct (ws_onmessage_reply (id s + 2) c s1 _ Hget Hl)
    as (s2 & Hrun & Hh2 & _ & Hstore2 & Hsent2).
  rewrite Hrun. cbn [fst snd]. rewrite Hh2, Hstore2, Hsent2.
  split; [reflexivity|]. split; [exact Hl|]. split; [exact Hsent|].
  split; [reflexivity|]. split.
  - apply list_lookup_insert_eq. eapply lookup_lt_Some. exact Hl.
  - split; [apply obj_get_delete_eq|reflexivity].
Qed.

Lemma call_reply_round_trip_witness :
  let s := run [Connect None; Transport OPEN] WSRPC_new in
  let s1 := exec (call (VStr "ping") (VStr "hi") VUndef) s in
  let reply := message_of (reply_frame 3 (Reject (VStr "Route not found"))) in
  state s = "OPEN"
  /\ heap (exec (ws_onmessage reply) s1) !! 0%nat
     = Some {| done := true; promise := Rejected (VStr "Route not found") |}.
Proof.
  intros s s1 reply. split; [reflexivity|].
  pose proof (call_reply_round_trip (VStr "ping") (VStr "hi") VUndef
                (Reject (VStr "Route not found")) s eq_refl)
    as (_ & _ & _ & _ & H & _).
  exact H.
Defined.

(** ** Frames the dispatcher does not act on *)

(** X6. A reply frame whose id converts to a property name, and that
    name is neither one of a call in the store nor one that objects
    inherit (a late or duplicate reply), is dropped: the handler returns,
    no future is touched, the store and the queue stay as they are and
    nothing is transmitted. *)
Theorem late_reply_is_dropped
    (frame : value) (name : string) (s : WSRPC) (has_error : bool) :
  hasOwnProperty frame "id" = Ok true ->
  hasOwnProperty frame "method" = Ok false ->
  hasOwnProperty frame "error" = Ok has_error ->
  has_error && is_null (member frame "error") = false ->
  ToPropertyKey (member frame "id") = Ok name ->
  obj_get name (store s) = None ->
  inherited name = false ->
  let s' := exec (ws_onmessage (message_of frame)) s in
  eval (ws_onmessage (message_of frame)) s = Ok tt
  /\ heap s' = heap s
  /\ settled s' = settled s
  /\ store s' = store s
  /\ callQueue s' = callQueue s
  /\ sent s' = sent s.
Proof.
  intros Hid Hm He Hnull Hkey Hget Hinh s'. subst s'. unfold exec, eval.
  destruct (ws_onmessage_parsed (message_of frame) frame s eq_refl eq_refl)
    as [c Hrun].
  rewrite Hrun. clear Hrun.
  destruct (onmessage_try_handleResult frame (set_console c s) has_error
              Hid Hm He Hnull) as [c' Htry].
  unfold try_catch. rewrite Htry. clear Htry.
  rewrite (handleResult_unknown frame name) by assumption.
  match goal with
  | |- context [log ?args ?st] => destruct (log_runs args st) as [c2 H2]
  end.
  rewrite H2. cbn [fst snd]. repeat split; reflexivity.
Qed.

Lemma late_reply_is_dropped_witness :
  let s := run [Connect None; Transport OPEN] WSRPC_new in
  let frame := VObj [("id", VNum 7); ("result", VStr "late")] in
  let s' := exec (ws_onmessage (message_of frame)) s in
  store s = [] /\ eval (ws_onmessage (message_of frame)) s = Ok tt
  /\ sent s' = sent s.
Proof.
  intros s frame s'.
  assert (Hget : obj_get "7" (store s) = None)
    by (vm_compute; reflexivity).
  pose proof (late_reply_is_dropped frame "7" s false eq_refl eq_refl eq_refl
                eq_refl eq_refl Hget eq_refl) as (He & _ & _ & _ & _ & Hs).
  split; [vm_compute; reflexivity|]. split; [exact He|exact Hs].
Defined.

Lemma trace_message_throws (msg : MessageEvent) (e : value) (s : WSRPC) :
  data msg = Throw e ->
  trace_message msg s = if TRACE s then (Throw e, s) else (Ok tt, s).
Proof.
  intros Hd. unfold trace_message, lift, bind, gets. rewrite Hd.
  destruct (TRACE s); reflexivity.
Qed.

(** X7. A frame whose text does not parse. With tracing off and the
    socket OPEN the handler answers with [{error: message, result: null,
    id: null}] and returns; with tracing on, [trace] parses the text
    first, outside the [try], and the SyntaxError leaves the handler with
    nothing transmitted. *)
Theorem malformed_frame_answered
    (message : MessageEvent) (m : string) (s : WSRPC) :
  type message = "message" ->
  data message = Throw (VError m) ->
  socket s = Some {| readyState := OPEN |} ->
  let s' := exec (ws_onmessage message) s in
  heap s' = heap s /\ store s' = store s
  /\ if TRACE s
     then eval (ws_onmessage message) s = Throw (VError m)
          /\ sent s' = sent s
     else eval (ws_onmessage message) s = Ok tt
          /\ sent s'
             = sent s ++ [JSON_stringify
                            (VObj [("error", VStr m); ("result", VNull);
                                   ("id", VNull)]) 0].
Proof.
  intros Hty Hd Hsock s'. subst s'. unfold exec, eval.
  remember (ws_onmessage message s) as R eqn:ER.
  unfold ws_onmessage in ER.
  change (bind (gets state) ?k s) with (k (state s) s) in ER. cbv beta in ER.
  destruct (log_runs [VStr "ONMESSAGE CALLED"; VStr "STATE"; VStr (state s)] s)
    as [c1 H1].
  rewrite (bind_run _ _ _ _ _ H1) in ER.
  pose proof (trace_message_throws message _ (set_console c1 s) Hd) as Ht.
  change (TRACE (set_console c1 s)) with (TRACE s) in Ht.
  destruct (TRACE s).
  - rewrite (bind_throws _ _ _ _ _ Ht) in ER. subst R.
    repeat split; reflexivity.
  - rewrite (bind_run _ _ _ _ _ Ht) in ER. rewrite Hty, Hd in ER.
    cbn [String.eqb Ascii.eqb Bool.eqb negb] in ER.
    unfold onmessage_catch, exception_message, lift, bind, socket_send,
      console_error, modify in ER.
    cbn -[member truthy] in ER. rewrite Hsock in ER.
    cbn in ER. subst R. repeat split; reflexivity.
Qed.

Lemma malformed_frame_answered_witness :
  let s := run [Connect None; Transport OPEN] WSRPC_new in
  let message := {| type := "message";
                    data := Throw (VError "Unexpected token") |} in
  socket s = Some {| readyState := OPEN |}
  /\ map json (sent (exec (ws_onmessage message) s))
     = [VObj [("error", VStr "Unexpected token"); ("result", VNull);
              ("id", VNull)]].
Proof.
  intros s message. split; [reflexivity|].
  pose proof (malformed_frame_answered message "Unexpected token" s
                eq_refl eq_refl eq_refl) as (_ & _ & H).
  change (TRACE s) with false in H. destruct H as [_ H].
  rewrite H. reflexivity.
Defined.

Lemma set_invoked_same (s : WSRPC) : set_invoked (invoked s) s = s.
Proof. destruct s; reflexivity. Qed.

(** The loop over the server-event listeners calls every one of them:
    what a listener throws only reaches the console. *)
Lemma onmessage_listeners_run (listeners : list fn) (frame : value) (s : WSRPC) :
  exists c,
    onmessage_listeners listeners frame s
    = (Ok tt,
       set_console c
         (set_invoked (invoked s ++ map (fun f => (f, frame)) listeners) s)).
Proof.
  revert s. induction listeners as [|f listeners IH]; intros s;
    cbn [onmessage_listeners map].
  - exists (console s).
    rewrite app_nil_r, set_invoked_same, set_console_same. reflexivity.
  - unfold modify at 1. unfold bind at 1.
    set (s0 := set_invoked (invoked s ++ [(f, frame)]) s).
    assert (H : exists c,
               match fn_call f frame with
               | Ok _ => ret tt
               | Throw e => console_error e
               end s0 = (Ok tt, set_console c s0)).
    { destruct (fn_call f frame) as [r|e].
      - exists (console s0). rewrite set_console_same. reflexivity.
      - eexists. reflexivity. }
    destruct H as [c H]. rewrite (bind_run _ _ _ _ _ H).
    destruct (IH (set_console c s0)) as [c' IH']. rewrite IH'.
    exists c'. subst s0. cbn [invoked set_invoked set_console].
    rewrite <- app_assoc. reflexivity.
Qed.

(** X8. A frame without an [id] is a server event: every server-event
    listener is called with the frame, in the order of the array (the
    built-in logger first), the handler returns, and no call, future or
    route is touched and nothing is transmitted. *)
Theorem event_frame_reaches_every_listener (frame : value) (s : WSRPC) :
  hasOwnProperty frame "id" = Ok false ->
  let s' := exec (ws_onmessage (message_of frame)) s in
  eval (ws_onmessage (message_of frame)) s = Ok tt
  /\ invoked s'
     = invoked s ++ map (fun f => (f, frame)) (socketEventsListeners s)
  /\ sent s' = sent s
  /\ store s' = store s
  /\ heap s' = heap s
  /\ socketEventsListeners s' = socketEventsListeners s.
Proof.
  intros Hid s'. subst s'. unfold exec, eval.
  destruct (ws_onmessage_parsed (message_of frame) frame s eq_refl eq_refl)
    as [c Hrun].
  rewrite Hrun. clear Hrun. unfold try_catch.
  remember (onmessage_try frame (set_console c s)) as R eqn:ER.
  unfold onmessage_try in ER.
  destruct (log_runs [frame] (set_console c s)) as [c1 H1].
  rewrite (bind_run _ _ _ _ _ H1) in ER.
  unfold lift at 1 in ER. unfold bind at 1 in ER. rewrite Hid in ER.
  cbn [negb] in ER.
  unfold modify at 1 in ER. unfold bind at 1 in ER.
  unfold gets at 1 in ER. unfold bind at 1 in ER.
  match type of ER with
  | context [bind (onmessage_listeners ?ls ?d) _ ?st] =>
      destruct (onmessage_listeners_run ls d st) as [c2 H2]
  end.
  rewrite (bind_run _ _ _ _ _ H2) in ER.
  unfold modify in ER. subst R. cbn. repeat split; reflexivity.
Qed.

Lemma event_frame_reaches_every_listener_witness :
  let s := exec (addServerEventListener 5%nat) WSRPC_new in
  let frame := VObj [("event", VStr "tick")] in
  invoked (exec (ws_onmessage (message_of frame)) s)
  = [(console_log_listener, frame); (quiet_listener 5, frame)].
Proof.
  intros s frame.
  pose proof (event_frame_reaches_every_listener frame s eq_refl)
    as (_ & H & _).
  rewrite H. reflexivity.
Defined.

(** ** Inbound calls and their replies *)

Lemma reactions_captured (l : loc) (o : settlement)
    (ts : list (loc * (Z * value))) (P : Z -> Prop) :
  Forall (fun t => P (fst (snd t))) ts ->
  Forall (fun j => P (j_connectionNumber j)) (reactions l o ts).
Proof.
  intros H. unfold reactions. apply Forall_fmap.
  induction ts as [|t ts IH]; [constructor|].
  apply Forall_cons in H as [Ht H]. rewrite filter_cons.
  destruct (decide (fst t = l)); [constructor; [exact Ht|]|]; apply IH, H.
Qed.

Lemma reactions_ok_Deferred_new : preserves reactions_ok Deferred_new.
Proof.
  intros s [Ht Hj]. split; [|exact Hj]. cbn.
  eapply Forall_impl; [exact Ht|]. intros t [H1 H2]. split; [|exact H2].
  rewrite length_app. cbn. lia.
Qed.

Lemma reactions_ok_Deferred_settle (l : loc) (c : settle) :
  preserves reactions_ok (Deferred_settle l c).
Proof.
  intros s H. unfold Deferred_settle.
  destruct (heap s !! l) as [d|]; [|exact H].
  destruct (apply_settle c d) as [[[]|e] d']; [|exact H].
  destruct H as [Ht Hj]. split; cbn.
  - eapply Forall_impl; [exact Ht|]. intros t [H1 H2]. split; [|exact H2].
    rewrite length_insert. exact H1.
  - apply Forall_app. split; [exact Hj|].
    apply (reactions_captured l _ _ (fun z => z <= connectionNumber s)).
    eapply Forall_impl; [exact Ht|]. intros t [_ H2]. exact H2.
Qed.

Lemma reactions_ok_increment (s : WSRPC) :
  reactions_ok s ->
  reactions_ok (set_connectionNumber (connectionNumber s + 1) s).
Proof.
  intros [Ht Hj]. split; cbn.
  - eapply Forall_impl; [exact Ht|]. intros t [H1 H2]. split; [exact H1|lia].
  - eapply Forall_impl; [exact Hj|]. intros j H. cbn in H. lia.
Qed.

#[export] Hint Resolve reactions_ok_Deferred_new reactions_ok_Deferred_settle
  reactions_ok_increment : inv.

Lemma reactions_ok_promise_job : preserves reactions_ok promise_job.
Proof.
  intros s H. unfold promise_job.
  change (bind (gets jobs) ?k s) with (k (jobs s) s). cbv beta.
  destruct (jobs s) as [|j js] eqn:Hjobs; [exact H|].
  change (bind (modify ?g) ?k s) with (k tt (g s)). cbv beta.
  assert (Hk : preserves reactions_ok (run_job j)) by keep_inv.
  apply Hk. destruct H as [Ht Hj]. split; [exact Ht|]. cbn.
  rewrite Hjobs in Hj. apply Forall_cons in Hj as [_ Hj]. exact Hj.
Qed.

(** The route test reads the session and leaves it as it is. *)
Lemma routes_hasOwnProperty_state (v : value) (s : WSRPC) :
  snd (routes_hasOwnProperty v s) = s.
Proof.
  unfold routes_hasOwnProperty.
  change (bind (gets ?g) ?k s) with (k (g s) s). cbv beta.
  destruct (routes s !! "hasOwnProperty") as [h|];
    unfold bind, lift, gets, ret.
  - destruct (h v); reflexivity.
  - destruct (ToPropertyKey v); reflexivity.
Qed.

Lemma reactions_ok_handleCall (frame : value) :
  preserves reactions_ok (handleCall frame).
Proof.
  intros s H. unfold handleCall.
  unfold bind at 1.
  pose proof (routes_hasOwnProperty_state (member frame "method") s) as Hs.
  destruct (routes_hasOwnProperty (member frame "method") s)
    as [[found|e] s0]; cbn [snd] in Hs; subst s0; [|exact H].
  destruct found; cbn [negb]; [|exact H].
  change (bind (gets connectionNumber) ?k s) with (k (connectionNumber s) s).
  cbv beta.
  change (bind Deferred_new ?k s)
    with (k (length (heap s)) (set_heap (heap s ++ [new_Deferred]) s)).
  cbv beta.
  change (bind (modify ?g) ?k ?s0) with (k tt (g s0)). cbv beta.
  match goal with
  | |- reactions_ok (snd (?m ?s0)) =>
      assert (Hk : preserves reactions_ok m) by keep_inv; apply Hk
  end.
  destruct H as [Ht Hj]. split; [|exact Hj]. cbn.
  apply Forall_app. split.
  - eapply Forall_impl; [exact Ht|]. intros t [H1 H2]. split; [|exact H2].
    rewrite length_app. cbn. lia.
  - constructor; [|constructor]. cbn. rewrite length_app. cbn. lia.
Qed.

#[export] Hint Resolve reactions_ok_promise_job reactions_ok_handleCall : inv.

Lemma reactions_ok_rejectQueue_calls :
  forall q, preserves reactions_ok (rejectQueue_calls q).
Proof. keep_inv_loop. Qed.
Lemma reactions_ok_rejectQueue_store :
  forall q, preserves reactions_ok (rejectQueue_store q).
Proof. keep_inv_loop. Qed.
Lemma reactions_ok_callEvents_oneTime :
  forall q e, preserves reactions_ok (callEvents_oneTime e q).
Proof. keep_inv_loop. Qed.
Lemma reactions_ok_callEvents_durable :
  forall q v, preserves reactions_ok (callEvents_durable q v).
Proof. keep_inv_loop. Qed.
Lemma reactions_ok_onclose_store :
  forall q, preserves reactions_ok (onclose_store q).
Proof. keep_inv_loop. Qed.
Lemma reactions_ok_onopen_flush :
  forall q, preserves reactions_ok (onopen_flush q).
Proof. keep_inv_loop. Qed.
Lemma reactions_ok_onmessage_listeners :
  forall q v, preserves reactions_ok (onmessage_listeners q v).
Proof. keep_inv_loop. Qed.

#[export] Hint Resolve reactions_ok_rejectQueue_calls
  reactions_ok_rejectQueue_store reactions_ok_callEvents_oneTime
  reactions_ok_callEvents_durable reactions_ok_onclose_store
  reactions_ok_onopen_flush reactions_ok_onmessage_listeners : inv.

Lemma reactions_ok_step (o : op) : preserves reactions_ok (step o).
Proof. destruct o; cbn [step]; keep_inv. Qed.

Lemma reachable_reactions_ok (s : WSRPC) : reachable s -> reactions_ok s.
Proof.
  intros [os ->]. apply (preserves_run reactions_ok);
    [exact reactions_ok_step|]. split; constructor.
Qed.

Lemma reactions_fresh (l : loc) (o : settlement) (x : Z * value)
    (ts : list (loc * (Z * value))) :
  Forall (fun t => (fst t < l)%nat) ts ->
  reactions l o (ts ++ [(l, x)])
  = [{| j_connectionNumber := fst x; j_id := snd x; j_outcome := o |}].
Proof.
  intros H. unfold reactions. rewrite filter_app.
  assert (Hnil : filter (fun t => fst t = l) ts = []).
  { induction ts as [|t ts IH]; [reflexivity|].
    apply Forall_cons in H as [Ht H]. rewrite filter_cons.
    destruct (decide (fst t = l)) as [e|_]; [|apply IH, H].
    exfalso. unfold loc in *. cbn in Ht. lia. }
  rewrite Hnil. rewrite filter_cons. cbn [fst].
  destruct (decide (l = l)); [|congruence]. reflexivity.
Qed.

(** [handleCall] on a registered route: the common beginning. *)
Lemma handleCall_found
    (frame : value) (name : string) (f : callback) (s : WSRPC) :
  routed frame name f s ->
  handleCall frame s
  = (if asyncRoutes_flag name s then
       modify (fun s0 => set_handed (handed s0 ++ [length (heap s)]) s0) ;;
       _ <- lift (f (member frame "params")) ;; ret tt
     else
       try_catch
         (r <- lift (f (member frame "params")) ;;
          Deferred_resolve (length (heap s)) r)
         (fun e => Deferred_reject (length (heap s)) e ;; console_error e))
      (set_thens (thens s ++ [(length (heap s),
                               (connectionNumber s, member frame "id"))])
         (set_heap (heap s ++ [new_Deferred]) s)).
Proof.
  intros (Hshadow & Hkey & Hroute). unfold handleCall.
  unfold bind at 1.
  rewrite routes_hasOwnProperty_own by exact Hshadow.
  rewrite Hkey. unfold callback in *. rewrite Hroute.
  rewrite bool_decide_eq_true_2 by eauto. cbn [negb].
  change (bind (gets connectionNumber) ?k s) with (k (connectionNumber s) s).
  cbv beta.
  change (bind Deferred_new ?k s)
    with (k (length (heap s)) (set_heap (heap s ++ [new_Deferred]) s)).
  cbv beta.
  change (bind (modify ?g) ?k ?s0) with (k tt (g s0)). cbv beta.
  unfold lift at 1. unfold bind at 1.
  unfold gets at 1. unfold bind at 1.
  change (routes (set_thens _ _)) with (routes s).
  unfold gets at 1. unfold bind at 1.
  change (asyncRoutes_flag ?m (set_thens _ _)) with (asyncRoutes_flag m s).
  rewrite Hroute. reflexivity.
Qed.

Lemma handleCall_sync
    (frame : value) (name : string) (f : callback) (s : WSRPC) :
  routed frame name f s ->
  asyncRoutes_flag name s = false ->
  reactions_ok s ->
  exists s',
    handleCall frame s = (Ok tt, s')
    /\ jobs s'
       = jobs s ++ [{| j_connectionNumber := connectionNumber s;
                       j_id := member frame "id";
                       j_outcome := outcome_of
                                      (handler_settle
                                         (f (member frame "params"))) |}]
    /\ heap s' = heap s ++ [{| done := true;
                              promise := outcome_of
                                           (handler_settle
                                              (f (member frame "params"))) |}]
    /\ sent s' = sent s
    /\ socket s' = socket s
    /\ connectionNumber s' = connectionNumber s
    /\ routes s' = routes s
    /\ store s' = store s.
Proof.
  intros Hroute Hsync [Ht _].
  assert (Hfresh : Forall (fun t => (fst t < length (heap s))%nat) (thens s)).
  { eapply Forall_impl; [exact Ht|]. intros t [H _]. exact H. }
  rewrite (handleCall_found frame name f s Hroute), Hsync.
  unfold try_catch, bind, lift, Deferred_resolve, Deferred_reject,
    Deferred_settle, console_error, modify.
  destruct (f (member frame "params")) as [r|e];
    cbn -[lookup insert reactions]; rewrite heap_lookup_fresh;
    cbn -[lookup insert reactions];
    rewrite heap_insert_fresh, (reactions_fresh _ _ _ _ Hfresh);
    eexists; (split; [reflexivity|]); cbn; repeat split; reflexivity.
Qed.

Lemma onmessage_try_handleCall (frame : value) (s : WSRPC) :
  hasOwnProperty frame "id" = Ok true ->
  hasOwnProperty frame "method" = Ok true ->
  exists c, onmessage_try frame s = handleCall frame (set_console c s).
Proof.
  intros Hid Hm. unfold onmessage_try.
  destruct (log_runs [frame] s) as [c1 H1].
  rewrite (bind_run _ _ _ _ _ H1).
  unfold lift at 1. unfold bind at 1. rewrite Hid. cbn [negb].
  unfold lift at 1. unfold bind at 1. rewrite Hm.
  exists c1. reflexivity.
Qed.



Lemma handleCall_async
    (frame : value) (name : string) (f : callback) (v : value) (s : WSRPC) :
  routed frame name f s ->
  asyncRoutes_flag name s = true ->
  f (member frame "params") = Ok v ->
  handleCall frame s
  = (Ok tt,
     set_handed (handed s ++ [length (heap s)])
       (set_thens (thens s ++ [(length (heap s),
                                (connectionNumber s, member frame "id"))])
          (set_heap (heap s ++ [new_Deferred]) s))).
Proof.
  intros Hroute Hasync Hf.
  rewrite (handleCall_found frame name f s Hroute), Hasync.
  unfold modify, bind, lift. rewrite Hf. reflexivity.
Qed.

(** X10. An inbound call to a registered asynchronous route (with no
    route named [hasOwnProperty] in the table) whose handler returns
    without settling.  The message handler transmits
    nothing and leaves the Deferred it handed over pending.  When the
    handler settles it, the promise job transmits exactly one reply with
    the inbound id and that outcome; a second attempt to settle throws
    'Promise already done' and no second reply is ever transmitted. *)
Theorem async_call_answered_on_settlement
    (frame : value) (name : string) (f : callback) (v : value)
    (c c' : settle) (s : WSRPC) :
  reachable s ->
  hasOwnProperty frame "id" = Ok true ->
  hasOwnProperty frame "method" = Ok true ->
  routed frame name f s ->
  asyncRoutes_flag name s = true ->
  f (member frame "params") = Ok v ->
  socket s = Some {| readyState := OPEN |} ->
  jobs s = [] ->
  let l := length (heap s) in
  let s1 := exec (ws_onmessage (message_of frame)) s in
  let s2 := exec (handler_settles l c) s1 in
  let s3 := run [PromiseJob; PromiseJob] (exec (handler_settles l c') s2) in
  eval (ws_onmessage (message_of frame)) s = Ok tt
  /\ sent s1 = sent s
  /\ heap s1 !! l = Some new_Deferred
  /\ eval (handler_settles l c) s1 = Ok tt
  /\ eval (handler_settles l c') s2 = Throw (VError "Promise already done")
  /\ sent s3 = sent s ++ [inbound_reply frame c]
  /\ jobs s3 = [].
Proof.
  intros Hreach Hid Hm Hroute Hasync Hf Hsock Hjobs l s1 s2 s3.
  subst s3 s2 s1 l. set (l := length (heap s)).
  destruct (reachable_reactions_ok s Hreach) as [Ht _].
  assert (Hfresh : Forall (fun t => (fst t < length (heap s))%nat) (thens s)).
  { eapply Forall_impl; [exact Ht|]. intros t [H _]. exact H. }
  destruct (ws_onmessage_parsed (message_of frame) frame s eq_refl eq_refl)
    as [c0 Hrun].
  destruct (onmessage_try_handleCall frame (set_console c0 s) Hid Hm)
    as [c1 Htry].
  assert (H1 : ws_onmessage (message_of frame) s
               = (Ok tt,
                  set_handed (handed s ++ [l])
                    (set_thens (thens s ++ [(l, (connectionNumber s,
                                                 member frame "id"))])
                       (set_heap (heap s ++ [new_Deferred])
                          (set_console c1 (set_console c0 s)))))).
  { rewrite Hrun. unfold try_catch. rewrite Htry.
    rewrite (handleCall_async frame name f v
               (set_console c1 (set_console c0 s)) Hroute Hasync Hf).
    reflexivity. }
  cbn [run step]. unfold exec, eval. rewrite H1. cbn [fst snd].
  match type of H1 with _ = (_, ?st) => set (s1 := st) in * end.
  assert (Hl : heap s1 !! l = Some new_Deferred) by apply heap_lookup_fresh.
  assert (Hin : bool_decide (l ∈ handed s1) = true).
  { apply bool_decide_eq_true_2. apply elem_of_app. right.
    apply list_elem_of_singleton. reflexivity. }
  assert (H2 : handler_settles l c s1
               = (Ok tt,
                  set_jobs [{| j_connectionNumber := connectionNumber s;
                               j_id := member frame "id";
                               j_outcome := outcome_of c |}]
                    (set_settled (settled s ++ [(l, c)])
                       (set_heap (heap s ++ [{| done := true;
                                                promise := outcome_of c |}])
                          s1)))).
  { unfold handler_settles. unfold gets at 1. unfold bind at 1.
    unfold Deferred_settle. unfold loc in *. rewrite Hin.
    rewrite Hl, settle_fresh.
    cbn [jobs thens settled heap set_handed set_thens set_heap set_console s1].
    unfold l. rewrite Hjobs, heap_insert_fresh.
    rewrite (reactions_fresh _ _ _ _ Hfresh). reflexivity. }
  rewrite H2. cbn [fst snd].
  match type of H2 with _ = (_, ?st) => set (s2 := st) in * end.
  assert (H3 : handler_settles l c' s2
               = (Throw (VError "Promise already done"), s2)).
  { unfold handler_settles. unfold gets at 1. unfold bind at 1.
    unfold Deferred_settle. unfold loc in *.
    change (handed s2) with (handed s1). rewrite Hin.
    change (heap s2) with (heap s ++ [{| done := true;
                                         promise := outcome_of c |}]).
    unfold l. rewrite heap_lookup_fresh, settle_done by reflexivity.
    reflexivity. }
  rewrite H3. cbn [fst snd].
  assert (H4 : promise_job s2
               = (Ok tt, set_sent (sent s ++ [inbound_reply frame c])
                           (set_jobs [] s2))).
  { unfold promise_job.
    change (bind (gets jobs) ?k s2) with (k (jobs s2) s2). cbv beta.
    change (jobs s2) with [{| j_connectionNumber := connectionNumber s;
                             j_id := member frame "id";
                             j_outcome := outcome_of c |}].
    cbv iota.
    change (bind (modify ?g) ?k s2) with (k tt (g s2)). cbv beta.
    unfold run_job.
    change (bind (gets connectionNumber) ?k ?st) with (k (connectionNumber s) st).
    cbv beta. cbn [j_connectionNumber j_outcome j_id].
    rewrite Z.eqb_refl. cbn [negb].
    destruct c; cbn [outcome_of]; unfold socket_send;
      change (socket (set_jobs [] s2)) with (socket s); rewrite Hsock;
      reflexivity. }
  rewrite H4. cbn [fst snd].
  set (s3 := set_sent (sent s ++ [inbound_reply frame c]) (set_jobs [] s2)).
  assert (H5 : promise_job s3 = (Ok tt, s3)) by reflexivity.
  rewrite H5. cbn [fst snd].
  split; [reflexivity|]. split; [reflexivity|]. split; [exact Hl|].
  split; [reflexivity|]. split; [reflexivity|]. split; reflexivity.
Qed.

Lemma async_call_answered_on_settlement_witness :
  let slow : callback := fun p => Ok VUndef in
  let s := run [AddRoute (VStr "slow") slow (VBool true);
                Connect None; Transport OPEN] WSRPC_new in
  let frame := VObj [("id", VNum 2); ("method", VStr "slow");
                     ("params", VNull)] in
  let l := length (heap s) in
  let s1 := exec (ws_onmessage (message_of frame)) s in
  let s2 := exec (handler_settles l (Resolve (VStr "done"))) s1 in
  let s3 := run [PromiseJob; PromiseJob]
              (exec (handler_settles l (Reject (VStr "again"))) s2) in
  reachable s
  /\ sent s3 = sent s ++ [inbound_reply frame (Resolve (VStr "done"))].
Proof.
  intros slow s frame l s1 s2 s3.
  assert (Hr : reachable s) by (eexists; reflexivity).
  assert (Hroute : routed frame "slow" slow s)
    by (split; [|split]; vm_compute; reflexivity).
  assert (Hasync : asyncRoutes_flag "slow" s = true)
    by (vm_compute; reflexivity).
  assert (Hsock : socket s = Some {| readyState := OPEN |})
    by (vm_compute; reflexivity).
  assert (Hjobs : jobs s = []) by (vm_compute; reflexivity).
  pose proof (async_call_answered_on_settlement frame "slow" slow VUndef
                (Resolve (VStr "done")) (Reject (VStr "again")) s Hr
                eq_refl eq_refl Hroute Hasync eq_refl Hsock Hjobs)
    as (_ & _ & _ & _ & _ & H & _).
  split; [exact Hr|exact H].
Defined.

(** *** Replies overtaken by an error event *)

Section Stale.
Context (n : Z).

Lemma stale_Deferred_new : preserves (stale_below n) Deferred_new.
Proof. intros s H. exact H. Qed.

Lemma stale_Deferred_settle (l : loc) (c : settle) :
  preserves (stale_below n) (Deferred_settle l c).
Proof.
  intros s H. unfold Deferred_settle.
  destruct (heap s !! l) as [d|]; [|exact H].
  destruct (apply_settle c d) as [[[]|e] d']; [|exact H].
  destruct H as [Ht Hj]. split; [exact Ht|]. cbn.
  apply Forall_app. split; [exact Hj|].
  apply (reactions_captured l _ _ (fun z => z < n)). exact Ht.
Qed.

Hint Resolve stale_Deferred_new stale_Deferred_settle : inv.

Lemma stale_rejectQueue_calls :
  forall q, preserves (stale_below n) (rejectQueue_calls q).
Proof. keep_inv_loop. Qed.
Lemma stale_rejectQueue_store :
  forall q, preserves (stale_below n) (rejectQueue_store q).
Proof. keep_inv_loop. Qed.
Lemma stale_callEvents_oneTime :
  forall q e, preserves (stale_below n) (callEvents_oneTime e q).
Proof. keep_inv_loop. Qed.
Lemma stale_callEvents_durable :
  forall q v, preserves (stale_below n) (callEvents_durable q v).
Proof. keep_inv_loop. Qed.

Hint Resolve stale_rejectQueue_calls stale_rejectQueue_store
  stale_callEvents_oneTime stale_callEvents_durable : inv.

Lemma stale_ws_onerror (err : Event) :
  preserves (stale_below n) (ws_onerror err).
Proof. keep_inv. Qed.

Lemma stale_handler_settles (l : loc) (c : settle) :
  preserves (stale_below n) (handler_settles l c).
Proof. keep_inv. Qed.
End Stale.

Lemma reactions_ok_stale (s : WSRPC) :
  reactions_ok s -> stale_below (connectionNumber s + 1) s.
Proof.
  intros [Ht Hj]. split.
  - eapply Forall_impl; [exact Ht|]. intros t [_ H]. unfold loc in *.
    cbn in *. lia.
  - eapply Forall_impl; [exact Hj|]. intros j H. cbn in *. lia.
Qed.

Lemma promise_job_stale (s : WSRPC) :
  stale_below (connectionNumber s) s ->
  exists s',
    promise_job s = (Ok tt, s')
    /\ sent s' = sent s
    /\ connectionNumber s' = connectionNumber s
    /\ stale_below (connectionNumber s) s'.
Proof.
  intros [Ht Hj]. unfold promise_job.
  change (bind (gets jobs) ?k s) with (k (jobs s) s). cbv beta.
  destruct (jobs s) as [|j js] eqn:Hjobs.
  - exists s. repeat split; try reflexivity; [exact Ht|].
    rewrite Hjobs. constructor.
  - apply Forall_cons in Hj as [Hstale Hj].
    change (bind (modify ?g) ?k s) with (k tt (g s)). cbv beta.
    unfold run_job.
    change (bind (gets connectionNumber) ?k ?st)
      with (k (connectionNumber s) st).
    cbv beta.
    assert ((j_connectionNumber j =? connectionNumber s) = false) as ->
      by (apply Z.eqb_neq; lia).
    cbn [negb]. eexists. split; [reflexivity|].
    repeat split; try reflexivity; [exact Ht|exact Hj].
Qed.

Lemma handler_settles_frame (l : loc) (c : settle) :
  keeps sent (handler_settles l c)
  /\ keeps connectionNumber (handler_settles l c).
Proof. split; frame. Qed.

(** X11. Replies to inbound calls that were received before an error
    event are never transmitted: after the error event, however the
    handlers still at work settle their Deferreds and however many
    promise jobs run, the frames transmitted stay what they were. *)
Theorem replies_dropped_after_error
    (s : WSRPC) (err : Event) (os : list op) :
  reachable s ->
  forallb settles_or_job os = true ->
  let s1 := exec (step (WsError err)) s in
  sent (run os s1) = sent s1
  /\ connectionNumber (run os s1) = connectionNumber s + 1.
Proof.
  intros Hreach Hos s1.
  assert (Hcn : connectionNumber s1 = connectionNumber s + 1)
    by apply ws_onerror_increments.
  assert (Hstale : stale_below (connectionNumber s1) s1).
  { rewrite Hcn. apply stale_ws_onerror.
    apply reactions_ok_stale, reachable_reactions_ok, Hreach. }
  rewrite <- Hcn. clear Hcn Hreach. revert Hstale. generalize s1. clear s1.
  induction os as [|o os IH]; intros s1 Hstale; cbn [run];
    [split; reflexivity|].
  cbn [forallb] in Hos. apply andb_prop in Hos as [Ho Hos].
  destruct o; try discriminate Ho; cbn [step].
  - destruct (promise_job_stale s1 Hstale) as (s2 & Hrun & Hs & Hc & Hst).
    unfold exec. rewrite Hrun. cbn [snd].
    rewrite <- Hc in Hst. destruct (IH Hos s2 Hst) as [I1 I2].
    rewrite I1, I2, Hs, Hc. split; reflexivity.
  - destruct (handler_settles_frame l c) as [Ks Kc].
    pose proof (stale_handler_settles (connectionNumber s1) l c s1 Hstale)
      as Hst.
    fold (exec (handler_settles l c) s1) in Hst.
    specialize (Ks s1). specialize (Kc s1).
    fold (exec (handler_settles l c) s1) in Ks, Kc.
    rewrite <- Kc in Hst. destruct (IH Hos _ Hst) as [I1 I2].
    rewrite I1, I2, Ks, Kc. split; reflexivity.
Qed.

Lemma replies_dropped_after_error_witness :
  let slow : callback := fun p => Ok VUndef in
  let frame := VObj [("id", VNum 2); ("method", VStr "slow");
                     ("params", VNull)] in
  let s := run [AddRoute (VStr "slow") slow (VBool true);
                Connect None; Transport OPEN;
                WsMessage (message_of frame)] WSRPC_new in
  let os := [HandlerSettles 0%nat (Resolve (VStr "done")); PromiseJob] in
  let s1 := exec (step (WsError {| e_type := "error" |})) s in
  reachable s /\ sent (run os s1) = sent s1.
Proof.
  intros slow frame s os s1.
  assert (Hr : reachable s) by (eexists; reflexivity).
  pose proof (replies_dropped_after_error s {| e_type := "error" |} os Hr
                eq_refl) as [H _].
  split; [exact Hr|exact H].
Defined.

(** ** Lifecycle events *)

Lemma tget_tset_eq {A} (e : evName) (a : A) (t : EventTable A) :
  tget e (tset e a t) = a.
Proof. destruct e; reflexivity. Qed.

Lemma tget_tset_ne {A} (e e' : evName) (a : A) (t : EventTable A) :
  e' <> e -> tget e' (tset e a t) = tget e' t.
Proof. destruct e, e'; intros H; try reflexivity; congruence. Qed.

Lemma durable_obs_callEvents_durable :
  forall q v, keeps durable_obs (callEvents_durable q v).
Proof. frame_loop. Qed.

(** One round of the loop over the one-shot Deferreds. *)
Lemma callEvents_oneTime_cons (e : evName) (l : loc) (q : list loc)
    (s : WSRPC) :
  callEvents_oneTime e (l :: q) s
  = callEvents_oneTime e q
      (snd ((p <- Deferred_isPending l ;;
             if p then Deferred_settle l (Resolve VUndef) else ret tt)
              (set_oneTimeEventStore (tset e q (oneTimeEventStore s)) s))).
Proof.
  cbn [callEvents_oneTime]. unfold modify at 1. unfold bind at 1.
  change (bind (Deferred_isPending l) ?k ?st)
    with (bind (Deferred_isPending l) k st).
  match goal with
  | |- bind ?m ?k ?st = _ =>
      change (bind m k st)
        with (bind (p <- Deferred_isPending l ;;
                    if p then Deferred_settle l (Resolve VUndef) else ret tt)
                (fun _ => callEvents_oneTime e q) st)
  end.
  apply bind_returns_run, settle_if_pending_returns.
Qed.

Lemma resolve_if_pending_effect (l : loc) (s : WSRPC) :
  let s' := snd ((p <- Deferred_isPending l ;;
                  if p then Deferred_settle l (Resolve VUndef) else ret tt) s) in
  oneTimeEventStore s' = oneTimeEventStore s
  /\ invoked s' = invoked s
  /\ sent s' = sent s
  /\ eventStore s' = eventStore s
  /\ (forall l', l' <> l -> heap s' !! l' = heap s !! l')
  /\ (heap s !! l = Some new_Deferred ->
      heap s' !! l = Some {| done := true; promise := Fulfilled VUndef |}).
Proof.
  cbn zeta. unfold Deferred_isPending, Deferred_settle, bind, gets, ret.
  cbn [fst snd].
  destruct (heap s !! l) as [d|] eqn:Hl.
  2: { cbn [snd]. repeat split; try reflexivity. discriminate. }
  destruct (isPending d) eqn:Hp.
  2: { cbn [snd]. repeat split; try reflexivity.
       intros [= ->]. discriminate Hp. }
  rewrite Hl. unfold isPending in Hp. apply negb_true_iff in Hp.
  unfold apply_settle, resolve, wrapper. rewrite Hp.
  cbn [snd oneTimeEventStore invoked sent eventStore heap set_jobs
         set_settled set_heap].
  assert (Hlt : (l < length (heap s))%nat) by (eapply lookup_lt_Some; eauto).
  repeat split; try reflexivity.
  - intros l' Hne. apply list_lookup_insert_ne. congruence.
  - intros [= ->]. rewrite list_lookup_insert_eq by assumption. reflexivity.
Qed.

Lemma callEvents_oneTime_effect (e : evName) (q : list loc) (s : WSRPC) :
  let s' := snd (callEvents_oneTime e q s) in
  tget e (oneTimeEventStore s')
  = match q with [] => tget e (oneTimeEventStore s) | _ => [] end
  /\ (forall e', e' <> e ->
        tget e' (oneTimeEventStore s') = tget e' (oneTimeEventStore s))
  /\ invoked s' = invoked s
  /\ sent s' = sent s
  /\ eventStore s' = eventStore s
  /\ (forall l, l ∈ q -> heap s !! l = Some new_Deferred ->
        heap s' !! l = Some {| done := true; promise := Fulfilled VUndef |}).
Proof.
  revert s. induction q as [|l0 q IH]; intros s; cbn zeta.
  - cbn. repeat split; try reflexivity. intros l Hin. inversion Hin.
  - rewrite callEvents_oneTime_cons.
    set (s0 := set_oneTimeEventStore (tset e q (oneTimeEventStore s)) s).
    destruct (resolve_if_pending_effect l0 s0)
      as (E1 & E2 & E3 & E4 & E5 & E6). cbn zeta in *.
    set (s1 := snd ((p <- Deferred_isPending l0 ;;
                     if p then Deferred_settle l0 (Resolve VUndef)
                     else ret tt) s0)) in *.
    destruct (IH s1) as (I1 & I2 & I3 & I4 & I5 & I6). cbn zeta in *.
    rewrite I1, I3, I4, I5, E1, E2, E3, E4.
    split.
    { destruct q; [|reflexivity]. subst s0. cbn [oneTimeEventStore
        set_oneTimeEventStore]. apply tget_tset_eq. }
    split.
    { intros e' Hne. rewrite (I2 e' Hne), E1. subst s0.
      cbn [oneTimeEventStore set_oneTimeEventStore].
      apply tget_tset_ne, Hne. }
    repeat split; try reflexivity.
    intros l Hin Hl. destruct (decide (l = l0)) as [->|Hne].
    + specialize (E6 Hl).
      exact (final_callEvents_oneTime l0
               {| done := true; promise := Fulfilled VUndef |}
               eq_refl q e s1 E6).
    + apply elem_of_cons in Hin as [?|Hin]; [congruence|].
      apply (I6 l Hin). rewrite (E5 l Hne). exact Hl.
Qed.

(** X12. Firing a lifecycle event.  Every one-shot future waiting for
    the event that is still pending is resolved, with no payload, and the
    queue of the event is left empty, so the next firing settles nothing;
    the one-shot futures of the other events are left alone.  Then the
    durable listeners of the event are called with the event, in the
    order of registration, up to the first whose exception leaves
    [tryCallEvent] (it threw [null] or [undefined]): with no such
    listener [callEvents] returns, otherwise it throws and the later
    listeners are not called.  Nothing is transmitted. *)
Theorem callEvents_fires (e : evName) (v v' : value) (s : WSRPC) :
  let s' := exec (callEvents e v) s in
  let s'' := exec (callEvents e v') s' in
  (if all_handled v (tget e (eventStore s))
   then eval (callEvents e v) s = Ok tt
   else exists x, eval (callEvents e v) s = Throw x)
  /\ tget e (oneTimeEventStore s') = []
  /\ (forall e', e' <> e ->
        tget e' (oneTimeEventStore s') = tget e' (oneTimeEventStore s))
  /\ (forall l, l ∈ tget e (oneTimeEventStore s) ->
        heap s !! l = Some new_Deferred ->
        heap s' !! l = Some {| done := true; promise := Fulfilled VUndef |})
  /\ invoked s'
     = invoked s
       ++ map (fun kv => (snd kv, v)) (called v (tget e (eventStore s)))
  /\ sent s' = sent s
  /\ heap s'' = heap s'
  /\ settled s'' = settled s'.
Proof.
  intros s' s''.
  destruct (callEvents_oneTime_effect e (tget e (oneTimeEventStore s)) s)
    as (E1 & E2 & E3 & E4 & E5 & E6). cbn zeta in *.
  set (st := snd (callEvents_oneTime e (tget e (oneTimeEventStore s)) s)) in *.
  pose proof (durable_obs_callEvents_durable (tget e (eventStore s)) v st) as K.
  assert (Hs' : s' = snd (callEvents_durable (tget e (eventStore s)) v st)).
  { subst s'. unfold exec. rewrite callEvents_run. reflexivity. }
  rewrite <- Hs' in K. unfold durable_obs in K.
  injection K as K1 K2 K3 K4.
  assert (Hempty : tget e (oneTimeEventStore s') = []).
  { rewrite K1, E1. destruct (tget e (oneTimeEventStore s)); reflexivity. }
  pose proof (durable_obs_callEvents_durable (tget e (eventStore s')) v' s')
    as K'.
  assert (Hs'' : s'' = snd (callEvents_durable (tget e (eventStore s')) v' s')).
  { subst s''. unfold exec. rewrite callEvents_run, Hempty. reflexivity. }
  rewrite <- Hs'' in K'. unfold durable_obs in K'.
  injection K' as _ K2' K3' _.
  split.
  { unfold eval. destruct (all_handled v (tget e (eventStore s))) eqn:Hh.
    - apply callEvents_handled, Hh.
    - apply callEvents_unhandled, Hh. }
  split; [exact Hempty|].
  split; [intros e' Hne; rewrite K1; apply E2, Hne|].
  split; [intros l Hin Hl; rewrite K2; apply E6; assumption|].
  split; [subst s'; apply callEvents_invoked|].
  split; [rewrite K4; exact E4|].
  split; [exact K2'|exact K3'].
Qed.

(** *** Durable listeners *)

Lemma obj_set_last {A} (k : Z) (v : A) (o : list (Z * A)) :
  Forall (fun kv => fst kv < k) o -> obj_set k v o = o ++ [(k, v)].
Proof.
  induction o as [|[k' v'] o IH]; intros H; cbn [obj_set app]; [reflexivity|].
  apply Forall_cons in H as [Hk H]. cbn [fst] in Hk.
  destruct (Z.ltb_spec k k') as [?|_]; [lia|].
  destruct (Z.eqb_spec k k') as [?|_]; [lia|].
  rewrite IH by assumption. reflexivity.
Qed.

Lemma obj_delete_absent {A} (k : Z) (o : list (Z * A)) :
  Forall (fun kv => fst kv < k) o -> obj_delete (pretty k) o = o.
Proof.
  induction o as [|[k' v'] o IH]; intros H; cbn [obj_delete]; [reflexivity|].
  apply Forall_cons in H as [Hk H]. cbn [fst] in Hk.
  rewrite pretty_eqb_Z. destruct (Z.eqb_spec k' k) as [?|_]; [lia|].
  rewrite IH by assumption. reflexivity.
Qed.

Lemma obj_get_absent {A} (k : Z) (o : list (Z * A)) :
  Forall (fun kv => fst kv < k) o -> obj_get (pretty k) o = None.
Proof.
  induction o as [|[k' v'] o IH]; intros H; cbn [obj_get]; [reflexivity|].
  apply Forall_cons in H as [Hk H]. cbn [fst] in Hk.
  rewrite pretty_eqb_Z. destruct (Z.eqb_spec k' k) as [?|_]; [lia|].
  apply IH, H.
Qed.

Lemma obj_delete_last {A} (k : Z) (v : A) (o : list (Z * A)) :
  Forall (fun kv => fst kv < k) o ->
  obj_delete (pretty k) (o ++ [(k, v)]) = o.
Proof.
  induction o as [|[k' v'] o IH]; intros H; cbn [obj_delete app].
  - rewrite String.eqb_refl. reflexivity.
  - apply Forall_cons in H as [Hk H]. cbn [fst] in Hk.
    rewrite pretty_eqb_Z. destruct (Z.eqb_spec k' k) as [?|_]; [lia|].
    rewrite IH by assumption. reflexivity.
Qed.

Lemma obj_get_last {A} (k : Z) (v : A) (o : list (Z * A)) :
  Forall (fun kv => fst kv < k) o ->
  obj_get (pretty k) (o ++ [(k, v)]) = Some v.
Proof.
  intros H. rewrite <- (obj_set_last k v o H). apply obj_get_set_eq.
Qed.

Lemma obj_delete_Forall {A} (P : Z * A -> Prop) (name : string)
    (o : list (Z * A)) :
  Forall P o -> Forall P (obj_delete name o).
Proof.
  induction o as [|[k v] o IH]; intros H; cbn [obj_delete]; [constructor|].
  apply Forall_cons in H as [Hk H].
  destruct (String.eqb (pretty k) name); [apply IH, H|].
  constructor; [exact Hk|apply IH, H].
Qed.

Lemma listeners_ok_Deferred_new : preserves listeners_ok Deferred_new.
Proof. intros s H. exact H. Qed.

Lemma listeners_ok_Deferred_settle (l : loc) (c : settle) :
  preserves listeners_ok (Deferred_settle l c).
Proof.
  intros s H. unfold Deferred_settle. repeat case_match; exact H.
Qed.

Lemma listeners_ok_addEventListener (e : evName) (f : fn) :
  preserves listeners_ok (addEventListener e f).
Proof.
  intros s H e'. unfold addEventListener, bind, gets, modify, ret.
  cbn [snd eventId eventStore set_eventId set_eventStore].
  destruct (decide (e' = e)) as [->|Hne].
  - rewrite tget_tset_eq. rewrite obj_set_last by apply H.
    apply Forall_app. split.
    + eapply Forall_impl; [apply H|]. intros kv Hkv. cbn in *. lia.
    + constructor; [cbn; lia|constructor].
  - rewrite tget_tset_ne by assumption.
    eapply Forall_impl; [apply H|]. intros kv Hkv. cbn in *. lia.
Qed.

Lemma listeners_ok_removeEventListener (e : evName) (index : value) :
  preserves listeners_ok (removeEventListener e index).
Proof.
  intros s H e'. unfold removeEventListener, bind, gets, modify, ret, lift.
  destruct (ToPropertyKey index) as [name|x]; [|apply H].
  destruct (obj_has _ _); cbn [snd eventId eventStore set_eventStore];
    [|apply H].
  destruct (decide (e' = e)) as [->|Hne].
  - rewrite tget_tset_eq. apply obj_delete_Forall, H.
  - rewrite tget_tset_ne by assumption. apply H.
Qed.

#[export] Hint Resolve listeners_ok_Deferred_new listeners_ok_Deferred_settle
  listeners_ok_addEventListener listeners_ok_removeEventListener : inv.

Lemma listeners_ok_rejectQueue_calls :
  forall q, preserves listeners_ok (rejectQueue_calls q).
Proof. keep_inv_loop. Qed.
Lemma listeners_ok_rejectQueue_store :
  forall q, preserves listeners_ok (rejectQueue_store q).
Proof. keep_inv_loop. Qed.
Lemma listeners_ok_callEvents_oneTime :
  forall q e, preserves listeners_ok (callEvents_oneTime e q).
Proof. keep_inv_loop. Qed.
Lemma listeners_ok_callEvents_durable :
  forall q v, preserves listeners_ok (callEvents_durable q v).
Proof. keep_inv_loop. Qed.
Lemma listeners_ok_onclose_store :
  forall q, preserves listeners_ok (onclose_store q).
Proof. keep_inv_loop. Qed.
Lemma listeners_ok_onopen_flush :
  forall q, preserves listeners_ok (onopen_flush q).
Proof. keep_inv_loop. Qed.
Lemma listeners_ok_onmessage_listeners :
  forall q v, preserves listeners_ok (onmessage_listeners q v).
Proof. keep_inv_loop. Qed.

#[export] Hint Resolve listeners_ok_rejectQueue_calls
  listeners_ok_rejectQueue_store listeners_ok_callEvents_oneTime
  listeners_ok_callEvents_durable listeners_ok_onclose_store
  listeners_ok_onopen_flush listeners_ok_onmessage_listeners : inv.

Lemma listeners_ok_step (o : op) : preserves listeners_ok (step o).
Proof. destruct o; cbn [step]; keep_inv. Qed.

Lemma reachable_listeners_ok (s : WSRPC) : reachable s -> listeners_ok s.
Proof.
  intros [os ->]. apply (preserves_run listeners_ok);
    [exact listeners_ok_step|]. intros []; constructor.
Qed.

Lemma called_app_last (v : value) (ls : list (Z * fn)) (x : Z * fn) :
  all_handled v ls = true -> called v (ls ++ [x]) = ls ++ [x].
Proof.
  induction ls as [|kv ls IH]; cbn [all_handled forallb called app].
  - intros _. destruct (handled v (snd x)); reflexivity.
  - intros H. apply andb_true_iff in H as [H1 H2]. rewrite H1.
    f_equal. apply IH, H2.
Qed.

(** X13. Durable listeners. In a session whose counter of listener
    ids is a safe integer, [addEventListener] returns the current value
    of the counter and moves the counter on; the listener is the last of
    its event, so the next firing of the event calls it after the ones
    registered before, provided each of those returns or throws
    something the [catch] of [tryCallEvent] can handle.
    [removeEventListener] with the id returned answers [true] and takes
    exactly that listener away, so the next firing does not call it;
    asked again with the same id it answers [false] and changes
    nothing. *)
Theorem durable_listener_round_trip
    (e : evName) (f : fn) (v : value) (s : WSRPC) :
  reachable s ->
  safe_integer (eventId s) ->
  all_handled v (tget e (eventStore s)) = true ->
  let i := eventId s in
  let s1 := exec (addEventListener e f) s in
  let s2 := exec (removeEventListener e (VNum i)) s1 in
  eval (addEventListener e f) s = Ok i
  /\ eventId s1 = i + 1
  /\ invoked (exec (callEvents e v) s1)
     = invoked s ++ map (fun kv => (snd kv, v)) (tget e (eventStore s))
       ++ [(f, v)]
  /\ eval (removeEventListener e (VNum i)) s1 = Ok true
  /\ eventStore s2 = eventStore s
  /\ invoked (exec (callEvents e v) s2)
     = invoked s ++ map (fun kv => (snd kv, v)) (tget e (eventStore s))
  /\ removeEventListener e (VNum i) s2 = (Ok false, s2).
Proof.
  intros Hreach _ Hh i s1 s2.
  pose proof (reachable_listeners_ok s Hreach e) as Hok. fold i in Hok.
  assert (H1 : addEventListener e f s
               = (Ok i, set_eventStore
                          (tset e (tget e (eventStore s) ++ [(i, f)])
                             (eventStore s))
                          (set_eventId (i + 1) s))).
  { unfold addEventListener, bind, gets, modify, ret.
    cbn [eventId eventStore set_eventId]. fold i.
    rewrite obj_set_last by exact Hok. reflexivity. }
  assert (Hs1 : tget e (eventStore s1) = tget e (eventStore s) ++ [(i, f)]).
  { subst s1. unfold exec. rewrite H1. cbn [snd eventStore set_eventStore].
    apply tget_tset_eq. }
  assert (Htable : forall t : EventTable (list (Z * fn)),
             tset e (tget e t) t = t) by (intros t; destruct t, e; reflexivity).
  assert (Htset : forall (a b : list (Z * fn)) t,
             tset e a (tset e b t) = tset e a t)
    by (intros a b t; destruct e; reflexivity).
  assert (H2 : removeEventListener e (VNum i) s1
               = (Ok true, set_eventStore (eventStore s) s1)).
  { unfold removeEventListener.
    change (ToPropertyKey (VNum i)) with (@Ok string (pretty i)).
    unfold lift at 1. unfold bind at 1.
    unfold gets at 1. unfold bind at 1.
    rewrite obj_has_get. rewrite Hs1.
    rewrite obj_get_last by exact Hok.
    rewrite bool_decide_eq_true_2 by eauto.
    unfold modify, bind, ret. rewrite Hs1, obj_delete_last by exact Hok.
    subst s1. unfold exec. rewrite H1. cbn [snd eventStore set_eventStore].
    rewrite Htset, Htable. reflexivity. }
  assert (Hs2 : s2 = set_eventStore (eventStore s) s1).
  { subst s2. unfold exec. rewrite H2. reflexivity. }
  split; [unfold eval; rewrite H1; reflexivity|].
  split; [subst s1; unfold exec; rewrite H1; reflexivity|].
  split.
  { unfold exec at 1. rewrite callEvents_invoked, Hs1.
    rewrite called_app_last by exact Hh. rewrite map_app.
    subst s1. unfold exec. rewrite H1. reflexivity. }
  split; [unfold eval; rewrite H2; reflexivity|].
  split; [rewrite Hs2; reflexivity|].
  split.
  { unfold exec at 1. rewrite callEvents_invoked, Hs2.
    cbn [invoked eventStore set_eventStore].
    rewrite called_all by exact Hh.
    subst s1. unfold exec. rewrite H1. reflexivity. }
  unfold removeEventListener.
  change (ToPropertyKey (VNum i)) with (@Ok string (pretty i)).
  unfold lift at 1. unfold bind at 1.
  unfold gets at 1. unfold bind at 1.
  rewrite obj_has_get. rewrite Hs2.
  cbn [eventStore set_eventStore]. rewrite obj_get_absent by exact Hok.
  rewrite bool_decide_eq_false_2 by (intros [? ?]; discriminate).
  reflexivity.
Qed.

Lemma durable_listener_round_trip_witness :
  let s := exec (addEventListener onclose 4%nat) WSRPC_new in
  let s1 := exec (addEventListener onconnect 9%nat) s in
  reachable s
  /\ eval (addEventListener onconnect 9%nat) s = Ok (eventId s)
  /\ eval (removeEventListener onconnect (VNum (eventId s))) s1 = Ok true.
Proof.
  intros s s1.
  assert (Hr : reachable s).
  { exists [AddEventListener onclose 4%nat]. cbn [run step].
    rewrite exec_discard. reflexivity. }
  assert (Hsafe : safe_integer (eventId s))
    by (vm_compute; split; reflexivity).
  pose proof (durable_listener_round_trip onconnect 9%nat VNull s Hr Hsafe
                eq_refl)
    as (H1 & _ & _ & H2 & _).
  split; [exact Hr|]. split; [exact H1|exact H2].
Defined.

(** ** The close event on a session whose calls are all pending *)

Lemma quiet_rejectQueue_calls : forall q, keeps quiet_obs (rejectQueue_calls q).
Proof. frame_loop. Qed.
Lemma quiet_rejectQueue_store : forall q, keeps quiet_obs (rejectQueue_store q).
Proof. frame_loop. Qed.
Lemma quiet_onclose_store : forall q, keeps quiet_obs (onclose_store q).
Proof. frame_loop. Qed.
Lemma firing_callEvents_oneTime :
  forall q e, keeps firing_obs (callEvents_oneTime e q).
Proof. frame_loop. Qed.
Lemma firing_callEvents_durable :
  forall q v, keeps firing_obs (callEvents_durable q v).
Proof. frame_loop. Qed.

#[export] Hint Resolve quiet_rejectQueue_calls quiet_rejectQueue_store
  quiet_onclose_store firing_callEvents_oneTime firing_callEvents_durable
  : keeps.

Lemma quiet_onclose_rejects (err : Event) : keeps quiet_obs (onclose_rejects err).
Proof. frame. Qed.
Lemma quiet_rejectQueue : keeps quiet_obs rejectQueue.
Proof. frame. Qed.
Lemma firing_callEvents (e : evName) (v : value) :
  keeps firing_obs (callEvents e v).
Proof. frame. Qed.

Lemma final_callEvents (l : loc) (d : Deferred) (e : evName) (v : value) :
  done d = true ->
  preserves (fun s => heap s !! l = Some d) (callEvents e v).
Proof.
  intros Hd. unfold callEvents.
  apply preserves_bind; [apply preserves_gets|intros q].
  apply preserves_bind; [apply final_callEvents_oneTime, Hd|intros _].
  apply preserves_bind; [apply preserves_gets|intros ls].
  apply final_callEvents_durable.
Qed.

(** The loop of [ws.onclose] over calls that are all pending. *)
Lemma onclose_store_pending (entries : list (Z * loc)) (s : WSRPC) :
  (forall k l, (k, l) ∈ entries ->
     obj_get (pretty k) (store s) = Some l
     /\ heap s !! l = Some new_Deferred) ->
  NoDup (map snd entries) ->
  let s' := snd (onclose_store (map (fun kv => pretty (fst kv)) entries) s) in
  fst (onclose_store (map (fun kv => pretty (fst kv)) entries) s) = Ok tt
  /\ store s' = store s
  /\ callQueue s' = callQueue s
  /\ connectionNumber s' = connectionNumber s
  /\ (forall k l, (k, l) ∈ entries ->
        heap s' !! l = Some {| done := true;
                              promise := Rejected (VStr "Connection closed") |})
  /\ (forall l, l ∉ map snd entries -> heap s' !! l = heap s !! l).
Proof.
  revert s. induction entries as [|[k l] entries IH]; intros s Hall Hnd;
    cbn zeta; cbn [map fst].
  - cbn. repeat split; try reflexivity. intros k l Hin. inversion Hin.
  - destruct (Hall k l) as [Hget Hl]; [apply elem_of_cons; left; reflexivity|].
    cbn [map snd] in Hnd. apply NoDup_cons in Hnd as [Hnotin Hnd].
    assert (Hrej : Deferred_reject l (VStr "Connection closed") s
                   = (Ok tt,
                      set_jobs (jobs s ++ reactions l
                                  (Rejected (VStr "Connection closed")) (thens s))
                        (set_settled
                           (settled s ++ [(l, Reject (VStr "Connection closed"))])
                           (set_heap
                              (<[l := {| done := true;
                                         promise := Rejected
                                                      (VStr "Connection closed") |}]>
                                 (heap s)) s)))).
    { unfold Deferred_reject, Deferred_settle. rewrite Hl, settle_fresh.
      reflexivity. }
    match type of Hrej with _ = (_, ?st) => set (s1 := st) in * end.
    assert (Hstep : onclose_store
                      (pretty k :: map (fun kv => pretty (fst kv)) entries) s
                    = onclose_store (map (fun kv => pretty (fst kv)) entries) s1).
    { cbn [onclose_store]. unfold bind at 1. unfold gets. rewrite Hget.
      rewrite (bind_run _ _ _ _ _ Hrej). reflexivity. }
    rewrite Hstep. clear Hstep.
    assert (Hlt : (l < length (heap s))%nat) by (eapply lookup_lt_Some; eauto).
    destruct (IH s1) as (I1 & I2 & I3 & I4 & I5 & I6); [|exact Hnd|].
    { intros k' l' Hin. destruct (Hall k' l') as [Hget' Hl'];
        [apply elem_of_cons; right; exact Hin|].
      split; [exact Hget'|]. subst s1. cbn [heap set_jobs set_settled set_heap].
      rewrite list_lookup_insert_ne; [exact Hl'|].
      intros ->. apply Hnotin. apply list_elem_of_fmap.
      exists (k', l'). split; [reflexivity|exact Hin]. }
    cbn zeta in *. rewrite I2, I3, I4.
    split; [exact I1|]. repeat split; try reflexivity.
    + intros k' l' Hin. apply elem_of_cons in Hin as [[= -> ->]|Hin].
      * rewrite I6 by exact Hnotin. subst s1.
        cbn [heap set_jobs set_settled set_heap].
        apply list_lookup_insert_eq, Hlt.
      * apply (I5 k' l' Hin).
    + intros l' Hl'. cbn [map snd] in Hl'.
      apply not_elem_of_cons in Hl' as [Hne Hl'].
      rewrite I6 by exact Hl'. subst s1.
      cbn [heap set_jobs set_settled set_heap].
      apply list_lookup_insert_ne. congruence.
Qed.

Lemma obj_get_NoDup {A} (o : list (Z * A)) (k : Z) (v : A) :
  NoDup (map fst o) -> (k, v) ∈ o -> obj_get (pretty k) o = Some v.
Proof.
  induction o as [|[k' v'] o IH]; intros Hnd Hin; [inversion Hin|].
  cbn [map fst] in Hnd. apply NoDup_cons in Hnd as [Hnotin Hnd].
  cbn [obj_get]. rewrite pretty_eqb_Z.
  apply elem_of_cons in Hin as [[= -> ->]|Hin].
  - rewrite Z.eqb_refl. reflexivity.
  - destruct (Z.eqb_spec k' k) as [->|_]; [|apply IH; assumption].
    exfalso. apply Hnotin. apply list_elem_of_fmap.
    exists (k, v). split; [reflexivity|exact Hin].
Qed.

Lemma onclose_rejects_pending (err : Event) (s : WSRPC) :
  NoDup (map fst (store s)) ->
  NoDup (map snd (store s)) ->
  (forall k l, (k, l) ∈ store s -> heap s !! l = Some new_Deferred) ->
  let s' := snd (onclose_rejects err s) in
  fst (onclose_rejects err s) = Ok tt
  /\ (forall k l, (k, l) ∈ store s ->
        heap s' !! l = Some {| done := true;
                              promise := Rejected (VStr "Connection closed") |}).
Proof.
  intros Hk Hv Hp. cbn zeta. unfold onclose_rejects.
  change (bind (gets ?g) ?k s) with (k (g s) s). cbv beta.
  destruct (log_runs [VStr "ONCLOSE CALLED"; VStr "STATE"; VStr (state s)] s)
    as [c Hlog].
  rewrite (bind_run _ _ _ _ _ Hlog).
  destruct (trace_event_runs err (set_console c s)) as [c' Htr].
  rewrite (bind_run _ _ _ _ _ Htr).
  change (bind (gets ?g) ?k ?st) with (k (g st) st). cbv beta.
  set (s0 := set_console c' (set_console c s)).
  change (store s0) with (store s). unfold obj_keys.
  destruct (onclose_store_pending (store s) s0) as (I1 & _ & _ & _ & I5 & _).
  - intros k l Hin. split; [apply obj_get_NoDup; assumption|].
    exact (Hp k l Hin).
  - exact Hv.
  - cbn zeta in *. split; [exact I1|exact I5].
Qed.

(** Two firings in a row, as the handlers of the close and the error
    event have them: the second firing and what follows it are reached
    only when no exception leaves the first. *)
Lemma callEvents_twice
    (e1 e2 : evName) (v : value) (k : M unit) (s : WSRPC) :
  let s1 := snd (callEvents e1 v s) in
  let s2 := snd (callEvents e2 v s1) in
  (callEvents e1 v ;; callEvents e2 v ;; k)%js s
  = if all_handled v (tget e1 (eventStore s))
    then if all_handled v (tget e2 (eventStore s))
         then k s2
         else (fst (callEvents e2 v s1), s2)
    else (fst (callEvents e1 v s), s1).
Proof.
  cbn zeta.
  pose proof (keeps_eventStore_callEvents e1 v s) as K. unfold exec in K.
  destruct (all_handled v (tget e1 (eventStore s))) eqn:H1.
  - pose proof (callEvents_handled e1 v s H1) as R1.
    unfold bind at 1.
    destruct (callEvents e1 v s) as [r1 s1]. cbn [fst snd] in *. subst r1.
    destruct (all_handled v (tget e2 (eventStore s))) eqn:H2.
    + rewrite <- K in H2.
      pose proof (callEvents_handled e2 v s1 H2) as R2.
      unfold bind at 1.
      destruct (callEvents e2 v s1) as [r2 s2]. cbn [fst snd] in *.
      subst r2. reflexivity.
    + rewrite <- K in H2.
      destruct (callEvents_unhandled e2 v s1 H2) as [x R2].
      unfold bind at 1.
      destruct (callEvents e2 v s1) as [r2 s2]. cbn [fst snd] in *.
      subst r2. reflexivity.
  - destruct (callEvents_unhandled e1 v s H1) as [x R1].
    unfold bind at 1.
    destruct (callEvents e1 v s) as [r1 s1]. cbn [fst snd] in *.
    subst r1. reflexivity.
Qed.

(** X14. The close event on a session whose stored calls are all pending
    (distinct ids, distinct futures). Whether the listeners return or
    throw, every stored call is rejected with ['Connection closed'], the queue is
    emptied, the connection number goes up by one and nothing is
    transmitted. When every listener of [onclose] and of [onchange]
    returns, or throws something the [catch] of [tryCallEvent] can
    handle, the handler returns, exactly one reconnection timer is armed,
    and the listeners of [onclose], then those of [onchange], are called
    with the event. Otherwise the exception leaves the handler and no
    timer is armed: the connection is not retried. *)
Theorem close_rejects_pending_calls (err : Event) (s : WSRPC) :
  NoDup (map fst (store s)) ->
  NoDup (map snd (store s)) ->
  (forall k l, (k, l) ∈ store s -> heap s !! l = Some new_Deferred) ->
  let s' := exec (ws_onclose err) s in
  let closing := tget onclose (eventStore s) in
  let changing := tget onchange (eventStore s) in
  (forall k l, (k, l) ∈ store s ->
     heap s' !! l = Some {| done := true;
                           promise := Rejected (VStr "Connection closed") |})
  /\ callQueue s' = []
  /\ connectionNumber s' = connectionNumber s + 1
  /\ sent s' = sent s
  /\ if all_handled (Event_value err) closing
        && all_handled (Event_value err) changing
     then eval (ws_onclose err) s = Ok tt
          /\ timers s' = S (timers s)
          /\ invoked s'
             = invoked s
               ++ map (fun kv => (snd kv, Event_value err)) closing
               ++ map (fun kv => (snd kv, Event_value err)) changing
     else (exists x, eval (ws_onclose err) s = Throw x)
          /\ timers s' = timers s.
Proof.
  intros Hk Hv Hp. cbn zeta.
  destruct (onclose_rejects_pending err s Hk Hv Hp) as [A1 A2]. cbn zeta in *.
  pose proof (quiet_onclose_rejects err s) as A3.
  set (s1 := snd (onclose_rejects err s)) in *.
  pose proof (rejectQueue_twice s1) as (B1 & _). cbn zeta in B1.
  pose proof (quiet_rejectQueue s1) as B2.
  pose proof (rejectQueue_increments s1) as B3.
  pose proof (returns_unit _ s1 rejectQueue_returns) as B4.
  unfold exec in B1.
  set (s2 := snd (rejectQueue s1)) in *.
  pose proof (firing_callEvents onclose (Event_value err) s2) as C2.
  pose proof (callEvents_invoked onclose (Event_value err) s2) as C3.
  set (s3 := snd (callEvents onclose (Event_value err) s2)) in *.
  pose proof (firing_callEvents onchange (Event_value err) s3) as D2.
  pose proof (callEvents_invoked onchange (Event_value err) s3) as D3.
  set (s4 := snd (callEvents onchange (Event_value err) s3)) in *.
  assert (Hcn1 : connectionNumber s1 = connectionNumber s).
  { assert (K : keeps connectionNumber (onclose_rejects err)) by frame.
    apply K. }
  unfold quiet_obs in A3, B2. unfold firing_obs in C2, D2.
  injection A3 as A3t A3s A3i A3e _. injection B2 as B2t B2s B2i B2e _.
  injection C2 as C2t C2s C2q C2c _ C2e _.
  injection D2 as D2t D2s D2q D2c _ D2e _.
  assert (Hes : eventStore s2 = eventStore s) by (rewrite B2e; exact A3e).
  set (d := {| done := true;
               promise := Rejected (VStr "Connection closed") |}).
  assert (H2 : forall k l, (k, l) ∈ store s -> heap s2 !! l = Some d).
  { intros k l Hin.
    assert (F : preserves (fun st => heap st !! l = Some d) rejectQueue).
    { unfold rejectQueue.
      apply preserves_bind; [apply preserves_modify; intros ? H; exact H|intros _].
      apply preserves_bind; [apply preserves_gets|intros q].
      apply preserves_bind;
        [apply (final_rejectQueue_calls l _ (eq_refl : done d = true))|intros _].
      apply preserves_bind; [apply preserves_gets|intros keys].
      apply (final_rejectQueue_store l _ (eq_refl : done d = true)). }
    apply (F s1). exact (A2 k l Hin). }
  assert (H3 : forall k l, (k, l) ∈ store s -> heap s3 !! l = Some d).
  { intros k l Hin.
    apply (final_callEvents l d onclose (Event_value err) eq_refl s2).
    exact (H2 k l Hin). }
  assert (H4 : forall k l, (k, l) ∈ store s -> heap s4 !! l = Some d).
  { intros k l Hin.
    apply (final_callEvents l d onchange (Event_value err) eq_refl s3).
    exact (H3 k l Hin). }
  assert (Hrun : ws_onclose err s
                 = if all_handled (Event_value err)
                        (tget onclose (eventStore s))
                   then if all_handled (Event_value err)
                             (tget onchange (eventStore s))
                        then (Ok tt, set_timers (S (timers s4)) s4)
                        else (fst (callEvents onchange (Event_value err) s3), s4)
                   else (fst (callEvents onclose (Event_value err) s2), s3)).
  { unfold ws_onclose.
    rewrite (bind_run _ _ s s1 tt)
      by (apply injective_projections; [exact A1|reflexivity]).
    rewrite (bind_run _ _ s1 s2 tt)
      by (apply injective_projections; [exact B4|reflexivity]).
    rewrite (callEvents_twice onclose onchange (Event_value err) reconnect s2).
    cbn zeta. rewrite Hes. reflexivity. }
  unfold eval, exec. rewrite Hrun. clear Hrun.
  destruct (all_handled (Event_value err) (tget onclose (eventStore s)))
    eqn:Hc.
  - destruct (all_handled (Event_value err) (tget onchange (eventStore s)))
      eqn:Hg; cbn [andb fst snd].
    + change (heap (set_timers (S (timers s4)) s4)) with (heap s4).
      change (callQueue (set_timers (S (timers s4)) s4)) with (callQueue s4).
      change (connectionNumber (set_timers (S (timers s4)) s4))
        with (connectionNumber s4).
      change (timers (set_timers (S (timers s4)) s4)) with (S (timers s4)).
      change (sent (set_timers (S (timers s4)) s4)) with (sent s4).
      change (invoked (set_timers (S (timers s4)) s4)) with (invoked s4).
      split; [exact H4|].
      split; [rewrite D2q, C2q; exact B1|].
      split; [rewrite D2c, C2c, B3, Hcn1; reflexivity|].
      split; [rewrite D2s, C2s, B2s, A3s; reflexivity|].
      split; [reflexivity|].
      split; [rewrite D2t, C2t, B2t, A3t; reflexivity|].
      rewrite D3, C3, C2e, Hes, B2i, A3i.
      rewrite !called_all by assumption.
      rewrite <- app_assoc. reflexivity.
    + split; [exact H4|].
      split; [rewrite D2q, C2q; exact B1|].
      split; [rewrite D2c, C2c, B3, Hcn1; reflexivity|].
      split; [rewrite D2s, C2s, B2s, A3s; reflexivity|].
      split; [|rewrite D2t, C2t, B2t, A3t; reflexivity].
      apply callEvents_unhandled. rewrite C2e, Hes. exact Hg.
  - cbn [andb fst snd].
    split; [exact H3|].
    split; [rewrite C2q; exact B1|].
    split; [rewrite C2c, B3, Hcn1; reflexivity|].
    split; [rewrite C2s, B2s, A3s; reflexivity|].
    split; [|rewrite C2t, B2t, A3t; reflexivity].
    apply callEvents_unhandled. rewrite Hes. exact Hc.
Qed.

Lemma close_rejects_pending_calls_witness :
  let s := run [Connect None; Transport OPEN;
                Call (VStr "ping") (VStr "a") VUndef;
                Call (VStr "ping") (VStr "b") VUndef] WSRPC_new in
  store s = [(3, 0%nat); (5, 1%nat)]
  /\ heap (exec (ws_onclose {| e_type := "close" |}) s) !! 1%nat
     = Some {| done := true; promise := Rejected (VStr "Connection closed") |}.
Proof.
  intros s.
  assert (Hs : store s = [(3, 0%nat); (5, 1%nat)]) by (vm_compute; reflexivity).
  assert (Hh : heap s = [new_Deferred; new_Deferred])
    by (vm_compute; reflexivity).
  split; [exact Hs|].
  assert (Hk : NoDup (map fst (store s))).
  { rewrite Hs. cbn [map fst]. apply NoDup_cons. split.
    - intros H. apply list_elem_of_singleton in H. discriminate H.
    - apply NoDup_singleton. }
  assert (Hv : NoDup (map snd (store s))).
  { rewrite Hs. cbn [map snd]. apply NoDup_cons. split.
    - intros H. apply list_elem_of_singleton in H. discriminate H.
    - apply NoDup_singleton. }
  assert (Hp : forall k l, (k, l) ∈ store s -> heap s !! l = Some new_Deferred).
  { intros k l Hin. rewrite Hs in Hin. rewrite Hh.
    apply elem_of_cons in Hin as [Hin|Hin].
    - injection Hin as -> ->. reflexivity.
    - apply list_elem_of_singleton in Hin. injection Hin as -> ->.
      reflexivity. }
  pose proof (close_rejects_pending_calls {| e_type := "close" |} s Hk Hv Hp)
    as (H & _).
  apply (H 5 1%nat). rewrite Hs. apply elem_of_cons. right.
  apply elem_of_cons. left. reflexivity.
Defined.

(** ** The reconnection timer *)

(** X15. A reconnection timer that fires (lines 123-132). In every
    case the store, the queue, the connection number and the frames
    transmitted are untouched. When the WebSocket constructor succeeds,
    the handler returns, the client holds a fresh CONNECTING socket and
    the id counter is back at 1. When it throws, the [onerror] listeners
    are called with the exception and the id counter is left alone; if
    each of them returns, or throws something the [catch] of
    [tryCallEvent] can handle, the handler returns with the socket
    deleted, so the state reads CLOSED; otherwise the exception leaves
    the handler and the socket is the one there was. In neither case is
    a further timer armed: the connection is not retried. *)
Theorem reconnect_timer_fires (ctor : option value) (s : WSRPC) (n : nat) :
  timers s = S n ->
  let s' := exec (timer_fires ctor) s in
  timers s' = n
  /\ store s' = store s
  /\ callQueue s' = callQueue s
  /\ connectionNumber s' = connectionNumber s
  /\ sent s' = sent s
  /\ match ctor with
     | None =>
         eval (timer_fires ctor) s = Ok tt
         /\ socket s' = Some {| readyState := CONNECTING |}
         /\ id s' = 1
         /\ invoked s' = invoked s
     | Some exc =>
         id s' = id s
         /\ if all_handled exc (tget onerror (eventStore s))
            then eval (timer_fires ctor) s = Ok tt
                 /\ socket s' = None
                 /\ state s' = "CLOSED"
                 /\ invoked s'
                    = invoked s
                      ++ map (fun kv => (snd kv, exc))
                           (tget onerror (eventStore s))
            else (exists x, eval (timer_fires ctor) s = Throw x)
                 /\ socket s' = socket s
     end.
Proof.
  intros Ht. cbn zeta. unfold exec, eval, timer_fires.
  change (bind (gets timers) ?k s) with (k (timers s) s). cbv beta.
  rewrite Ht.
  change (bind (modify ?g) ?k s) with (k tt (g s)). cbv beta.
  set (s0 := set_timers n s).
  destruct ctor as [exc|].
  - pose proof (firing_callEvents onerror exc s0) as F.
    pose proof (callEvents_invoked onerror exc s0) as I.
    assert (K : keeps id (callEvents onerror exc)) by frame.
    specialize (K s0). unfold exec in K.
    unfold firing_obs in F. injection F as Ft Fs Fq Fc Fst _ Fso.
    change (eventStore s) with (eventStore s0).
    destruct (all_handled exc (tget onerror (eventStore s0))) eqn:Hh.
    + assert (Hrun : reconnect_timeout (Some exc) s0
                     = (Ok tt,
                        set_console
                          (console (snd (callEvents onerror exc s0))
                             ++ [CError exc])
                          (set_socket None
                             (snd (callEvents onerror exc s0))))).
      { unfold reconnect_timeout, try_catch, createSocket.
        unfold throw at 1. unfold bind at 1.
        pose proof (callEvents_handled onerror exc s0 Hh) as R.
        unfold bind at 1.
        destruct (callEvents onerror exc s0) as [r s1]. cbn [fst snd] in *.
        subst r. reflexivity. }
      rewrite Hrun. clear Hrun. cbn [fst snd].
      set (s1 := snd (callEvents onerror exc s0)) in *.
      cbn [timers store callQueue connectionNumber sent socket id invoked
           set_console set_socket].
      rewrite Ft, Fs, Fq, Fc, Fst, K, I.
      rewrite called_all by exact Hh.
      repeat split; try reflexivity.
      unfold state, stateCode. cbn [socket socketStarted set_console set_socket].
      destruct (socketStarted s1); reflexivity.
    + destruct (callEvents_unhandled onerror exc s0 Hh) as [x R].
      assert (Hrun : reconnect_timeout (Some exc) s0
                     = (Throw x, snd (callEvents onerror exc s0))).
      { unfold reconnect_timeout, try_catch, createSocket.
        unfold throw at 1. unfold bind at 1.
        unfold bind at 1.
        destruct (callEvents onerror exc s0) as [r s1]. cbn [fst snd] in *.
        subst r. reflexivity. }
      rewrite Hrun. clear Hrun. cbn [fst snd].
      rewrite Ft, Fs, Fq, Fc, Fst, K, Fso.
      repeat split; try reflexivity. exists x. reflexivity.
  - cbn. repeat split; reflexivity.
Qed.

Lemma reconnect_timer_fires_witness :
  let s := run [Connect None; Transport OPEN;
                AddEventListener onerror 7%nat;
                WsClose {| e_type := "close" |}] WSRPC_new in
  timers s = 1%nat
  /\ state (exec (timer_fires (Some (VError "refused"))) s) = "CLOSED"
  /\ timers (exec (timer_fires (Some (VError "refused"))) s) = 0%nat.
Proof.
  intros s.
  assert (Ht : timers s = 1%nat) by (vm_compute; reflexivity).
  pose proof (reconnect_timer_fires (Some (VError "refused")) s 0 Ht)
    as (H1 & _ & _ & _ & _ & _ & H2).
  assert (Hh : all_handled (VError "refused") (tget onerror (eventStore s))
               = true) by (vm_compute; reflexivity).
  rewrite Hh in H2. destruct H2 as (_ & _ & H2 & _).
  split; [exact Ht|]. split; [exact H2|exact H1].
Defined.

(** ** The error event *)

Lemma rejects_only_reject_if_pending
    (r : value) (l : loc) (deferred : option loc) :
  preserves (rejects_only r l) (reject_if_pending deferred r).
Proof.
  intros s H. destruct deferred as [l'|]; [|exact H].
  unfold reject_if_pending, Deferred_isPending, Deferred_reject,
    Deferred_settle, bind, gets, ret.
  destruct (heap s !! l') as [d|] eqn:Hl'; [|exact H].
  destruct (isPending d) eqn:Hp; [|exact H].
  rewrite Hl'. unfold isPending in Hp. apply negb_true_iff in Hp.
  unfold apply_settle, reject, wrapper. rewrite Hp.
  unfold rejects_only in *.
  cbn [snd heap set_jobs set_settled set_heap].
  destruct (decide (l' = l)) as [->|Hne].
  - right. destruct H as [H|H]; rewrite H in Hl'; injection Hl' as <-.
    + apply list_lookup_insert_eq. eapply lookup_lt_Some. exact H.
    + discriminate Hp.
  - rewrite list_lookup_insert_ne by exact Hne. exact H.
Qed.

#[export] Hint Resolve rejects_only_reject_if_pending : inv.

Lemma rejects_only_rejectQueue_calls (l : loc) :
  forall q,
    preserves (rejects_only (VStr "WebSocket error occurred") l)
      (rejectQueue_calls q).
Proof. keep_inv_loop. Qed.

Lemma rejects_only_rejectQueue_store (l : loc) :
  forall q,
    preserves (rejects_only (VStr "WebSocket error occurred") l)
      (rejectQueue_store q).
Proof. keep_inv_loop. Qed.

Lemma rejects_only_rejectQueue (l : loc) :
  preserves (rejects_only (VStr "WebSocket error occurred") l) rejectQueue.
Proof.
  unfold rejectQueue.
  apply preserves_bind; [apply preserves_modify; intros ? H; exact H|intros _].
  apply preserves_bind; [apply preserves_gets|intros q].
  apply preserves_bind; [apply rejects_only_rejectQueue_calls|intros _].
  apply preserves_bind; [apply preserves_gets|intros keys].
  apply rejects_only_rejectQueue_store.
Qed.

(** The queue loop settles the call it removes from the store. *)
Lemma rejectQueue_calls_settles (q : list CallObj) (s : WSRPC)
    (name : string) (l : loc) :
  obj_get name (store s) = Some l ->
  let s' := snd (rejectQueue_calls q s) in
  settled_at (heap s') l \/ obj_get name (store s') = Some l.
Proof.
  revert s. induction q as [|c q IH]; intros s Hget; cbn zeta.
  - right. exact Hget.
  - rewrite rejectQueue_calls_cons.
    set (s0 := set_store (obj_delete (pretty (co_id c)) (store s))
                 (set_callQueue q s)).
    destruct (reject_if_pending_effect (obj_get (pretty (co_id c)) (store s))
                (VStr "WebSocket error occurred") s0) as (E1 & _ & _ & E4).
    cbn zeta in *.
    set (s1 := snd (reject_if_pending (obj_get (pretty (co_id c)) (store s))
                      (VStr "WebSocket error occurred") s0)) in *.
    destruct (String.eqb_spec (pretty (co_id c)) name) as [Heq|Hne].
    + left. rewrite Heq in E4. specialize (E4 l Hget).
      assert (F : forall q0 st, settled_at (heap st) l ->
                    settled_at (heap (snd (rejectQueue_calls q0 st))) l).
      { clear. induction q0 as [|c0 q0 IH0]; intros st Hst; [exact Hst|].
        rewrite rejectQueue_calls_cons. apply IH0.
        match goal with
        | |- context [reject_if_pending ?d ?r ?st0] =>
            destruct (reject_if_pending_effect d r st0) as (_ & _ & E3 & _)
        end.
        cbn zeta in E3. apply E3. exact Hst. }
      apply F. exact E4.
    + apply IH. rewrite E1. subst s0. cbn [store set_store].
      rewrite obj_get_delete_ne by (intros H; apply Hne; symmetry; exact H).
      exact Hget.
Qed.

(** [rejectQueue] rejects every stored call that is pending. *)
Lemma rejectQueue_rejects_pending (s : WSRPC) (name : string) (l : loc) :
  obj_get name (store s) = Some l ->
  heap s !! l = Some new_Deferred ->
  heap (snd (rejectQueue s)) !! l
  = Some {| done := true;
            promise := Rejected (VStr "WebSocket error occurred") |}.
Proof.
  intros Hget Hl.
  assert (Hset : settled_at (heap (snd (rejectQueue s))) l).
  { rewrite rejectQueue_run. cbn zeta.
    set (s0 := set_connectionNumber (connectionNumber s + 1) s).
    pose proof (rejectQueue_calls_settles (callQueue s) s0 name l Hget) as Hq.
    cbn zeta in Hq.
    set (sa := snd (rejectQueue_calls (callQueue s) s0)) in *.
    destruct (rejectQueue_store_effect (obj_keys (store sa)) sa)
      as (_ & _ & E3 & E4). cbn zeta in *.
    destruct Hq as [Hq|Hq]; [apply E3, Hq|].
    apply (E4 name l); [|exact Hq]. eapply obj_get_in_keys. exact Hq. }
  destruct (rejects_only_rejectQueue l s (or_introl Hl)) as [H|H];
    [|exact H].
  unfold settled_at in Hset. rewrite H in Hset. discriminate Hset.
Qed.

(** X16. The error event. Whether the listeners return or throw,
    every stored call that is pending is rejected with ['WebSocket error occurred'],
    the queue is emptied and nothing is transmitted; unlike the close
    event, it arms no reconnection timer and leaves the socket as it is.
    When every listener of [onerror] and of [onchange] returns, or throws
    something the [catch] of [tryCallEvent] can handle, the handler
    returns, and the listeners of [onerror], then those of [onchange],
    are called with the event. Otherwise the exception leaves the
    handler. *)
Theorem error_rejects_pending_calls (err : Event) (s : WSRPC) :
  let s' := exec (ws_onerror err) s in
  let failing := tget onerror (eventStore s) in
  let changing := tget onchange (eventStore s) in
  (forall name l,
     obj_get name (store s) = Some l ->
     heap s !! l = Some new_Deferred ->
     heap s' !! l
     = Some {| done := true;
               promise := Rejected (VStr "WebSocket error occurred") |})
  /\ callQueue s' = []
  /\ timers s' = timers s
  /\ socket s' = socket s
  /\ sent s' = sent s
  /\ if all_handled (Event_value err) failing
        && all_handled (Event_value err) changing
     then eval (ws_onerror err) s = Ok tt
          /\ invoked s'
             = invoked s
               ++ map (fun kv => (snd kv, Event_value err)) failing
               ++ map (fun kv => (snd kv, Event_value err)) changing
     else exists x, eval (ws_onerror err) s = Throw x.
Proof.
  cbn zeta.
  destruct (log_runs [VStr "ONERROR CALLED"; VStr "STATE"; VStr (state s)] s)
    as [c Hlog].
  destruct (trace_event_runs err (set_console c s)) as [c' Htr].
  set (s0 := set_console c' (set_console c s)) in *.
  pose proof (rejectQueue_twice s0) as (B1 & _). cbn zeta in B1.
  pose proof (quiet_rejectQueue s0) as B2.
  pose proof (returns_unit _ s0 rejectQueue_returns) as B4.
  pose proof (fun name l => rejectQueue_rejects_pending s0 name l) as B6.
  unfold exec in B1.
  set (s1 := snd (rejectQueue s0)) in *.
  pose proof (firing_callEvents onerror (Event_value err) s1) as C2.
  pose proof (callEvents_invoked onerror (Event_value err) s1) as C3.
  set (s2 := snd (callEvents onerror (Event_value err) s1)) in *.
  pose proof (firing_callEvents onchange (Event_value err) s2) as D2.
  pose proof (callEvents_invoked onchange (Event_value err) s2) as D3.
  set (s3 := snd (callEvents onchange (Event_value err) s2)) in *.
  destruct (log_runs [VStr "WebSocket has been closed by error: ";
                      Event_value err] s3) as [c'' Hlog'].
  unfold quiet_obs in B2. unfold firing_obs in C2, D2.
  injection B2 as B2t B2s B2i B2e B5.
  injection C2 as C2t C2s C2q _ _ C2e C5.
  injection D2 as D2t D2s D2q _ _ D2e D5.
  assert (Hes : eventStore s1 = eventStore s) by exact B2e.
  assert (Hrun : ws_onerror err s
                 = if all_handled (Event_value err)
                        (tget onerror (eventStore s))
                   then if all_handled (Event_value err)
                             (tget onchange (eventStore s))
                        then (Ok tt, set_console c'' s3)
                        else (fst (callEvents onchange (Event_value err) s2), s3)
                   else (fst (callEvents onerror (Event_value err) s1), s2)).
  { unfold ws_onerror.
    change (bind (gets state) ?k s) with (k (state s) s). cbv beta.
    rewrite (bind_run _ _ _ _ _ Hlog).
    rewrite (bind_run _ _ _ _ _ Htr).
    rewrite (bind_run _ _ s0 s1 tt)
      by (apply injective_projections; [exact B4|reflexivity]).
    rewrite (callEvents_twice onerror onchange (Event_value err) _ s1).
    cbn zeta. rewrite Hes. fold s2. fold s3. rewrite Hlog'. reflexivity. }
  unfold eval, exec. rewrite Hrun. clear Hrun.
  set (d := {| done := true;
               promise := Rejected (VStr "WebSocket error occurred") |}).
  assert (H2 : forall name l,
             obj_get name (store s) = Some l ->
             heap s !! l = Some new_Deferred -> heap s2 !! l = Some d).
  { intros name l Hget Hl.
    apply (final_callEvents l d onerror (Event_value err) eq_refl s1).
    apply (B6 name l); [exact Hget|exact Hl]. }
  assert (H3 : forall name l,
             obj_get name (store s) = Some l ->
             heap s !! l = Some new_Deferred -> heap s3 !! l = Some d).
  { intros name l Hget Hl.
    apply (final_callEvents l d onchange (Event_value err) eq_refl s2).
    exact (H2 name l Hget Hl). }
  destruct (all_handled (Event_value err) (tget onerror (eventStore s)))
    eqn:Hc.
  - destruct (all_handled (Event_value err) (tget onchange (eventStore s)))
      eqn:Hg; cbn [andb fst snd].
    + change (heap (set_console c'' s3)) with (heap s3).
      change (callQueue (set_console c'' s3)) with (callQueue s3).
      change (timers (set_console c'' s3)) with (timers s3).
      change (socket (set_console c'' s3)) with (socket s3).
      change (sent (set_console c'' s3)) with (sent s3).
      change (invoked (set_console c'' s3)) with (invoked s3).
      split; [exact H3|].
      split; [rewrite D2q, C2q; exact B1|].
      split; [rewrite D2t, C2t, B2t; reflexivity|].
      split; [rewrite D5, C5, B5; reflexivity|].
      split; [rewrite D2s, C2s, B2s; reflexivity|].
      split; [reflexivity|].
      rewrite D3, C3, C2e, Hes, B2i.
      rewrite !called_all by assumption.
      rewrite <- app_assoc. reflexivity.
    + split; [exact H3|].
      split; [rewrite D2q, C2q; exact B1|].
      split; [rewrite D2t, C2t, B2t; reflexivity|].
      split; [rewrite D5, C5, B5; reflexivity|].
      split; [rewrite D2s, C2s, B2s; reflexivity|].
      apply callEvents_unhandled. rewrite C2e, Hes. exact Hg.
  - cbn [andb fst snd].
    split; [exact H2|].
    split; [rewrite C2q; exact B1|].
    split; [rewrite C2t, B2t; reflexivity|].
    split; [rewrite C5, B5; reflexivity|].
    split; [rewrite C2s, B2s; reflexivity|].
    apply callEvents_unhandled. rewrite Hes. exact Hc.
Qed.

Lemma error_rejects_pending_calls_witness :
  let s := run [Connect None; Transport OPEN;
                Call (VStr "ping") (VStr "a") VUndef] WSRPC_new in
  obj_get "3" (store s) = Some 0%nat
  /\ heap s !! 0%nat = Some new_Deferred
  /\ heap (exec (ws_onerror {| e_type := "error" |}) s) !! 0%nat
     = Some {| done := true;
               promise := Rejected (VStr "WebSocket error occurred") |}.
Proof.
  intros s.
  assert (Hget : obj_get "3" (store s) = Some 0%nat)
    by (vm_compute; reflexivity).
  assert (Hl : heap s !! 0%nat = Some new_Deferred)
    by (vm_compute; reflexivity).
  pose proof (error_rejects_pending_calls {| e_type := "error" |} s)
    as (H & _).
  split; [exact Hget|]. split; [exact Hl|].
  exact (H "3" 0%nat Hget Hl).
Defined.

(** ** Server-event listeners: registration and removal *)

(** X17. [addServerEventListener] returns the position the listener
    takes, the old length of the list; removing that position at once
    returns 1 and gives back the list as it was. *)
Theorem serverEventListener_add_remove (callable : fn) (s : WSRPC) :
  let k := Z.of_nat (length (socketEventsListeners s)) in
  let s1 := exec (addServerEventListener callable) s in
  let s2 := exec (removeServerEventListener k) s1 in
  eval (addServerEventListener callable) s = Ok k
  /\ socketEventsListeners s1 !! length (socketEventsListeners s)
     = Some callable
  /\ eval (removeServerEventListener k) s1 = Ok 1
  /\ socketEventsListeners s2 = socketEventsListeners s.
Proof.
  cbn zeta.
  assert (H1 : addServerEventListener callable s
               = (Ok (Z.of_nat (length (socketEventsListeners s))),
                  set_socketEventsListeners
                    (socketEventsListeners s ++ [callable]) s)).
  { unfold addServerEventListener, bind, modify, gets, ret.
    cbn [fst snd socketEventsListeners set_socketEventsListeners].
    rewrite length_app. cbn [length]. do 2 f_equal. lia. }
  unfold exec, eval. rewrite H1. cbn [fst snd].
  rewrite removeServerEventListener_run.
  cbn [fst snd socketEventsListeners set_socketEventsListeners].
  set (a := socketEventsListeners s).
  rewrite (splice1_in_range (length a) (a ++ [callable]))
    by (rewrite length_app; cbn; lia).
  cbn [fst snd].
  split; [reflexivity|].
  split; [apply list_lookup_middle; reflexivity|].
  rewrite drop_app_length. cbn [take length].
  split; [reflexivity|].
  rewrite take_app_length.
  rewrite drop_ge by (rewrite length_app; cbn; lia).
  apply app_nil_r.
Qed.

(** X18. [removeServerEventListener] at the edges of [splice]: an index
    at or past the end removes nothing and returns 0; a negative index
    counts from the end, so [-1] removes the last listener, and one below
    minus the length removes the first. The number returned is the number
    of listeners removed. *)
Theorem removeServerEventListener_edges (index : Z) (s : WSRPC) :
  let before := socketEventsListeners s in
  let len := Z.of_nat (length before) in
  let after := socketEventsListeners (exec (removeServerEventListener index) s) in
  (exists n, eval (removeServerEventListener index) s = Ok n
             /\ Z.of_nat (length after) = len - n)
  /\ (len <= index ->
      eval (removeServerEventListener index) s = Ok 0 /\ after = before)
  /\ (index < 0 -> 0 < len ->
      let i := Z.to_nat (Z.max (len + index) 0) in
      eval (removeServerEventListener index) s = Ok 1
      /\ after = take i before ++ drop (S i) before).
Proof.
  cbn zeta. unfold exec, eval. rewrite removeServerEventListener_run.
  cbn [fst snd socketEventsListeners set_socketEventsListeners].
  set (a := socketEventsListeners s). unfold splice1. cbn [fst snd].
  split; [|split].
  - eexists. split; [reflexivity|].
    rewrite length_app, !length_take, !length_drop.
    destruct (Z.ltb_spec index 0); lia.
  - intros Hge.
    assert ((index <? 0) = false) as -> by lia.
    replace (Z.min index (Z.of_nat (length a))) with (Z.of_nat (length a))
      by lia.
    rewrite Z.sub_diag. change (Z.min 1 0) with 0.
    change (Z.to_nat 0) with 0%nat. rewrite Nat2Z.id, Nat.add_0_r.
    rewrite drop_all, firstn_all. cbn [take length].
    split; [reflexivity|apply app_nil_r].
  - intros Hneg Hlen.
    assert ((index <? 0) = true) as -> by lia.
    set (i := Z.to_nat (Z.max (Z.of_nat (length a) + index) 0)).
    replace (Z.min 1 (Z.of_nat (length a)
                      - Z.max (Z.of_nat (length a) + index) 0)) with 1 by lia.
    change (Z.to_nat 1) with 1%nat.
    replace (i + 1)%nat with (S i) by lia.
    split; [|reflexivity].
    rewrite length_take, length_drop. f_equal. lia.
Qed.

Lemma removeServerEventListener_edges_witness :
  let s := exec (addServerEventListener 7%nat ;; addServerEventListener 8%nat)
             WSRPC_new in
  socketEventsListeners (exec (removeServerEventListener 3) s)
  = [console_log_listener; quiet_listener 7; quiet_listener 8]
  /\ socketEventsListeners (exec (removeServerEventListener (-1)) s)
     = [console_log_listener; quiet_listener 7].
Proof.
  intros s.
  pose proof (removeServerEventListener_edges 3 s) as (_ & H1 & _).
  pose proof (removeServerEventListener_edges (-1) s) as (_ & _ & H2).
  cbn zeta in H1, H2.
  split.
  - apply H1. vm_compute. discriminate.
  - destruct H2 as [_ H2]; [reflexivity|reflexivity|].
    rewrite H2. reflexivity.
Defined.

(** ** Calls issued before the connection *)

Lemma call_while_closed (func args params : value) (s : WSRPC) :
  state s = "CLOSED" ->
  truthy params && truthy (member params "noWait") = false ->
  exists c,
    call func args params s
    = (Ok (length (heap s)),
       set_callQueue
         (callQueue s ++ [{| co_id := id s + 2; co_method := func;
                             co_params := args |}])
         (set_store (obj_set (id s + 2) (length (heap s)) (store s))
            (set_console c
               (set_heap (heap s ++ [new_Deferred]) (set_id (id s + 2) s))))).
Proof.
  intros Hst Hn. unfold call, makeCall.
  change (bind (modify ?g) ?k s) with (k tt (g s)). cbv beta.
  set (s0 := set_id (id s + 2) s).
  change (bind Deferred_new ?k s0)
    with (k (length (heap s)) (set_heap (heap s ++ [new_Deferred]) s0)).
  cbv beta.
  set (s1 := set_heap (heap s ++ [new_Deferred]) s0).
  change (bind (gets ?g) ?k s1) with (k (g s1) s1). cbv beta.
  change (bind (gets state) ?k s1) with (k (state s) s1). cbv beta.
  rewrite Hst. cbn [String.eqb Ascii.eqb Bool.eqb].
  destruct (log_runs [VStr "SOCKET IS"; VStr "CLOSED"] s1) as [c Hlog].
  exists c.
  unfold bind at 1. unfold bind at 1. rewrite Hlog. rewrite Hn.
  reflexivity.
Qed.

(** X19. A call issued while the state is CLOSED, without a truthy
    [noWait]: the promise returned is pending, the call is stored under
    its id and appended to the queue, and nothing is transmitted. When
    [connect()] is called next and the transport opens, the open handler
    transmits the queue, this call last, and empties it. *)
Theorem call_before_connect_sent_on_open
    (func args params : value) (ev : Event) (s : WSRPC) :
  state s = "CLOSED" ->
  truthy params && truthy (member params "noWait") = false ->
  let l := length (heap s) in
  let callObj := {| co_id := id s + 2; co_method := func;
                    co_params := args |} in
  let s1 := exec (call func args params) s in
  let s2 := run [Connect None; Transport OPEN; WsOpen ev] s1 in
  eval (call func args params) s = Ok l
  /\ heap s1 !! l = Some new_Deferred
  /\ obj_get (pretty (id s + 2)) (store s1) = Some l
  /\ callQueue s1 = callQueue s ++ [callObj]
  /\ sent s1 = sent s
  /\ sent s2
     = sent s ++ map (fun c => JSON_stringify (CallObj_value c) 1)
                     (callQueue s ++ [callObj])
  /\ callQueue s2 = [].
Proof.
  intros Hst Hn. cbn zeta.
  destruct (call_while_closed func args params s Hst Hn) as [c Hcall].
  unfold exec at 1 2 3 4, eval. rewrite Hcall. cbn [fst snd].
  match goal with
  | |- context [run _ (exec _ s)] =>
      replace (exec (call func args params) s)
        with (snd (call func args params s)) by reflexivity
  end.
  rewrite Hcall. cbn [snd].
  match goal with |- context [run _ ?st] => set (s1 := st) end.
  split; [reflexivity|].
  split; [apply heap_lookup_fresh|].
  split; [apply obj_get_set_eq|].
  split; [reflexivity|]. split; [reflexivity|].
  cbn [run step]. unfold exec.
  set (s2 := snd (transport OPEN (snd (connect None s1)))).
  assert (Hs2 : socket s2 = Some {| readyState := OPEN |}) by reflexivity.
  destruct (ws_onopen_flushes ev s2 Hs2) as (_ & F1 & F2).
  rewrite F1, F2. split; reflexivity.
Qed.
Lemma call_before_connect_sent_on_open_witness :
  let s1 := exec (call (VStr "ping") (VStr "early") VUndef) WSRPC_new in
  let s2 := run [Connect None; Transport OPEN; WsOpen {| e_type := "open" |}]
              s1 in
  state WSRPC_new = "CLOSED"
  /\ sent s2
     = sent WSRPC_new
       ++ map (fun c => JSON_stringify (CallObj_value c) 1)
            (callQueue WSRPC_new
             ++ [{| co_id := id WSRPC_new + 2; co_method := VStr "ping";
                    co_params := VStr "early" |}]).
Proof.
  intros s1 s2.
  assert (Hst : state WSRPC_new = "CLOSED") by (vm_compute; reflexivity).
  assert (Hn : truthy VUndef && truthy (member VUndef "noWait") = false)
    by reflexivity.
  pose proof (call_before_connect_sent_on_open (VStr "ping") (VStr "early")
                VUndef {| e_type := "open" |} WSRPC_new Hst Hn)
    as (_ & _ & _ & _ & _ & H & _).
  split; [exact Hst|exact H].
Defined.

(** ** Routes: registration, dispatch and removal *)

(** An inbound call to a synchronous route and the promise job after it. *)
Lemma sync_call_run
    (frame : value) (name : string) (f : callback) (s : WSRPC) :
  reactions_ok s ->
  hasOwnProperty frame "id" = Ok true ->
  hasOwnProperty frame "method" = Ok true ->
  routed frame name f s ->
  asyncRoutes_flag name s = false ->
  socket s = Some {| readyState := OPEN |} ->
  jobs s = [] ->
  let s2 := run [WsMessage (message_of frame); PromiseJob] s in
  sent s2
  = sent s ++ [inbound_reply frame (handler_settle (f (member frame "params")))]
  /\ jobs s2 = []
  /\ routes s2 = routes s
  /\ socket s2 = socket s.
Proof.
  intros Hok0 Hid Hm Hroute Hsync Hsock Hjobs. cbn zeta. cbn [run step].
  unfold exec.
  destruct (ws_onmessage_parsed (message_of frame) frame s eq_refl eq_refl)
    as [c Hrun].
  rewrite Hrun. clear Hrun. unfold try_catch.
  destruct (onmessage_try_handleCall frame (set_console c s) Hid Hm)
    as [c' Htry].
  rewrite Htry. clear Htry.
  set (s0 := set_console c' (set_console c s)).
  assert (Hok : reactions_ok s0) by exact Hok0.
  destruct (handleCall_sync frame name f s0 Hroute Hsync Hok)
    as (s1 & H1 & Hj1 & _ & Hsent1 & Hsock1 & Hcn1 & Hr1 & _).
  rewrite H1. cbn [fst snd].
  change (jobs s0) with (jobs s) in Hj1. rewrite Hjobs in Hj1. cbn in Hj1.
  change (sent s0) with (sent s) in Hsent1.
  change (socket s0) with (socket s) in Hsock1.
  change (connectionNumber s0) with (connectionNumber s) in Hcn1.
  change (routes s0) with (routes s) in Hr1.
  remember (promise_job s1) as R eqn:ER.
  unfold promise_job in ER.
  change (bind (gets jobs) ?k s1) with (k (jobs s1) s1) in ER. cbv beta in ER.
  rewrite Hj1 in ER.
  change (bind (modify ?g) ?k s1) with (k tt (g s1)) in ER. cbv beta in ER.
  unfold run_job in ER.
  unfold gets at 1 in ER. unfold bind at 1 in ER.
  cbn [connectionNumber set_jobs j_connectionNumber j_outcome j_id] in ER.
  rewrite Hcn1, Z.eqb_refl in ER. cbn [negb] in ER.
  unfold socket_send in ER.
  destruct (f (member frame "params")) as [r|e];
    cbn [handler_settle outcome_of socket set_jobs] in ER;
    rewrite Hsock1, Hsock in ER; cbn [readyState] in ER; subst R;
    cbn [fst snd sent set_sent jobs set_jobs routes socket];
    rewrite Hsent1, Hr1, Hsock1, Hsock; repeat split; reflexivity.
Qed.

(** An inbound call whose method names no route. *)
Lemma route_missing_run (frame : value) (name : string) (s : WSRPC) :
  hasOwnProperty frame "id" = Ok true ->
  hasOwnProperty frame "method" = Ok true ->
  routes s !! "hasOwnProperty" = None ->
  ToPropertyKey (member frame "method") = Ok name ->
  routes s !! name = None ->
  socket s = Some {| readyState := OPEN |} ->
  let s' := exec (ws_onmessage (message_of frame)) s in
  sent s'
  = sent s ++ [JSON_stringify
                 (VObj [("error", VStr "Route not found");
                        ("result", VNull);
                        ("id", member frame "id")]) 0]
  /\ jobs s' = jobs s
  /\ heap s' = heap s.
Proof.
  intros Hid Hm Hshadow Hkey Hroute Hsock. cbn zeta. unfold exec.
  destruct (onmessage_route_missing (message_of frame) frame s eq_refl eq_refl
              Hid Hm Hshadow) as (m & c & Hrun & Hmsg); [|exact Hsock|].
  { intros n Hn. rewrite Hkey in Hn. injection Hn as <-. exact Hroute. }
  rewrite Hrun, (Hmsg name Hkey). repeat split; reflexivity.
Qed.

(** X20. Registering, calling and removing a route, in a session with
    no route named [hasOwnProperty]. The route and the method of the
    frame convert to the same property name, which is neither
    ['__proto__'] nor ['hasOwnProperty']. After
    [addRoute(route, cb, isAsync)] with a falsy flag, an inbound call
    naming the route is answered, by the promise job, with what [cb]
    returned or threw, whatever was registered under that name before.
    [deleteRoute] then returns [true], and the same frame is answered
    with the failure reply 'Route not found'. *)
Theorem route_round_trip
    (route : value) (name : string) (cb : callback) (isAsync : value)
    (frame : value) (s : WSRPC) :
  reachable s ->
  socket s = Some {| readyState := OPEN |} ->
  jobs s = [] ->
  routes s !! "hasOwnProperty" = None ->
  hasOwnProperty frame "id" = Ok true ->
  hasOwnProperty frame "method" = Ok true ->
  ToPropertyKey route = Ok name ->
  ToPropertyKey (member frame "method") = Ok name ->
  name <> "__proto__" ->
  name <> "hasOwnProperty" ->
  truthy isAsync = false ->
  let s1 := exec (addRoute route cb isAsync) s in
  let s2 := run [WsMessage (message_of frame); PromiseJob] s1 in
  let s3 := exec (deleteRoute route) s2 in
  let s4 := exec (ws_onmessage (message_of frame)) s3 in
  sent s2
  = sent s ++ [inbound_reply frame (handler_settle (cb (member frame "params")))]
  /\ eval (deleteRoute route) s2 = Ok true
  /\ sent s4
     = sent s2 ++ [JSON_stringify
                     (VObj [("error", VStr "Route not found");
                            ("result", VNull);
                            ("id", member frame "id")]) 0]
  /\ jobs s4 = [].
Proof.
  intros Hreach Hsock Hjobs Hshadow Hid Hm Hkey Hmkey Hproto Hown Hsync.
  cbn zeta.
  pose proof (reachable_reactions_ok s Hreach) as Hok.
  set (s1 := exec (addRoute route cb isAsync) s).
  assert (Hs1 : s1 = set_routes (<[name := cb]> (routes s))
                       (set_asyncRoutes
                          (<[name := VBool false]> (asyncRoutes s))
                          s)).
  { subst s1. unfold exec, addRoute, bind, modify, lift. rewrite Hkey.
    apply String.eqb_neq in Hproto. rewrite Hproto. cbn [snd].
    rewrite Hsync. reflexivity. }
  assert (Hroute : routed frame name cb s1).
  { split; [|split; [exact Hmkey|]].
    - rewrite Hs1. cbn [routes set_routes].
      rewrite lookup_insert_ne by exact Hown. exact Hshadow.
    - rewrite Hs1. cbn [routes set_routes]. apply lookup_insert_eq. }
  assert (Hflag : asyncRoutes_flag name s1 = false).
  { rewrite Hs1. unfold asyncRoutes_flag.
    cbn [asyncRoutes set_routes set_asyncRoutes].
    rewrite lookup_insert_eq. reflexivity. }
  assert (Hok1 : reactions_ok s1) by (rewrite Hs1; exact Hok).
  assert (Hsock1 : socket s1 = Some {| readyState := OPEN |})
    by (rewrite Hs1; exact Hsock).
  assert (Hjobs1 : jobs s1 = []) by (rewrite Hs1; exact Hjobs).
  destruct (sync_call_run frame name cb s1 Hok1 Hid Hm Hroute Hflag Hsock1
              Hjobs1)
    as (A1 & A2 & A3 & A4).
  cbn zeta in *.
  set (s2 := run [WsMessage (message_of frame); PromiseJob] s1) in *.
  assert (Hsent1 : sent s1 = sent s) by (rewrite Hs1; reflexivity).
  rewrite Hsent1 in A1.
  split; [exact A1|].
  split; [apply (deleteRoute_returns_true route name s2 Hkey)|].
  set (s3 := exec (deleteRoute route) s2).
  assert (Hs3 : s3 = set_routes (delete name (routes s2))
                       (set_asyncRoutes (delete name (asyncRoutes s2)) s2)).
  { subst s3. unfold exec, deleteRoute, bind, modify, lift. rewrite Hkey.
    reflexivity. }
  assert (Hgone : routes s3 !! name = None).
  { rewrite Hs3. cbn [routes set_routes]. apply lookup_delete_eq. }
  assert (Hshadow3 : routes s3 !! "hasOwnProperty" = None).
  { rewrite Hs3. cbn [routes set_routes].
    rewrite lookup_delete_ne by exact Hown. rewrite A3.
    destruct Hroute as [H _]. exact H. }
  assert (Hsock3 : socket s3 = Some {| readyState := OPEN |}).
  { rewrite Hs3. cbn [socket set_routes set_asyncRoutes].
    rewrite A4. exact Hsock1. }
  destruct (route_missing_run frame name s3 Hid Hm Hshadow3 Hmkey Hgone Hsock3)
    as (B1 & B2 & _).
  cbn zeta in *.
  rewrite B1, B2, Hs3. split; [reflexivity|exact A2].
Qed.

Lemma route_round_trip_witness :
  let s := run [Connect None; Transport OPEN] WSRPC_new in
  let frame := VObj [("id", VNum 2); ("method", VStr "ping");
                     ("params", VStr "hi")] in
  let s1 := exec (addRoute (VStr "ping") (fun _ => Ok (VStr "pong")) VUndef) s in
  let s2 := run [WsMessage (message_of frame); PromiseJob] s1 in
  reachable s
  /\ sent s2
     = sent s ++ [inbound_reply frame (handler_settle (Ok (VStr "pong")))].
Proof.
  intros s frame s1 s2.
  assert (Hr : reachable s) by (eexists; reflexivity).
  assert (Hsock : socket s = Some {| readyState := OPEN |})
    by (vm_compute; reflexivity).
  assert (Hjobs : jobs s = []) by (vm_compute; reflexivity).
  assert (Hshadow : routes s !! "hasOwnProperty" = None)
    by (vm_compute; reflexivity).
  pose proof (route_round_trip (VStr "ping") "ping"
                (fun _ => Ok (VStr "pong")) VUndef
                frame s Hr Hsock Hjobs Hshadow eq_refl eq_refl eq_refl eq_refl
                ltac:(discriminate) ltac:(discriminate) eq_refl)
    as (H & _).
  split; [exact Hr|exact H].
Defined.

(** ** Reply frames whose id names a member of Object.prototype *)

(** X21. A reply frame whose [id] is the name of a member every object
    inherits (['toString'], ['constructor'], ...), received while the
    socket is OPEN. [handleError] asks [hasOwnProperty] and drops the
    frame; [handleResult] reads [self.store[data.id]] without asking,
    finds the inherited member, and the call of its missing [resolve] or
    [reject] is answered with a failure reply carrying that id. No
    future and no stored call is touched either way. *)
Theorem prototype_id_reply
    (frame : value) (s : WSRPC) (has_error has_result : bool) :
  hasOwnProperty frame "id" = Ok true ->
  hasOwnProperty frame "method" = Ok false ->
  hasOwnProperty frame "error" = Ok has_error ->
  hasOwnProperty frame "result" = Ok has_result ->
  inherited (to_string (member frame "id")) = true ->
  obj_get (to_string (member frame "id")) (store s) = None ->
  socket s = Some {| readyState := OPEN |} ->
  let s' := exec (ws_onmessage (message_of frame)) s in
  eval (ws_onmessage (message_of frame)) s = Ok tt
  /\ heap s' = heap s
  /\ store s' = store s
  /\ if has_error && is_null (member frame "error")
     then sent s' = sent s
     else exists m,
            sent s'
            = sent s ++ [JSON_stringify
                           (VObj [("error", m); ("result", VNull);
                                  ("id", member frame "id")]) 0].
Proof.
  intros Hid Hm He Hres Hinh Hget Hsock. cbn zeta. unfold exec, eval.
  pose proof (key_of_inherited _ Hinh) as Hkey.
  destruct (ws_onmessage_parsed (message_of frame) frame s eq_refl eq_refl)
    as [c Hrun].
  rewrite Hrun. clear Hrun.
  destruct (has_error && is_null (member frame "error")) eqn:Hnull.
  - assert (Htry : exists c' c'',
                     onmessage_try frame (set_console c s)
                     = (Ok tt, set_console c'' (set_console c' (set_console c s)))).
    { unfold onmessage_try.
      destruct (log_runs [frame] (set_console c s)) as [c1 H1].
      rewrite (bind_run _ _ _ _ _ H1).
      unfold lift at 1. unfold bind at 1. rewrite Hid. cbn [negb].
      unfold lift at 1. unfold bind at 1. rewrite Hm.
      unfold lift at 1. unfold bind at 1. rewrite He, Hnull.
      rewrite (handleError_unknown frame _ _ Hkey) by exact Hget.
      destruct (log_runs [VStr "Unknown callback"]
                  (set_console c1 (set_console c s))) as [c2 H2].
      rewrite H2. exists c1, c2. reflexivity. }
    destruct Htry as (c' & c'' & Htry). unfold try_catch. rewrite Htry.
    cbn [fst snd]. repeat split; reflexivity.
  - destruct (onmessage_try_handleResult frame (set_console c s) has_error
                Hid Hm He Hnull) as [c' Htry].
    unfold try_catch. rewrite Htry. clear Htry.
    set (s0 := set_console c' (set_console c s)).
    assert (Hh : exists m, handleResult frame s0 = (Throw (VError m), s0)).
    { unfold handleResult. cbv zeta.
      unfold lift at 1. unfold bind at 1. rewrite Hkey.
      unfold gets at 1. unfold bind at 1.
      change (store s0) with (store s). rewrite Hget, Hinh.
      unfold lift at 1. unfold bind at 1. rewrite Hres.
      destruct has_result; eexists; reflexivity. }
    destruct Hh as [m Hh]. rewrite Hh.
    unfold onmessage_catch, exception_message, lift, bind,
      socket_send, console_error, modify.
    cbn -[member truthy]. rewrite Hsock.
    rewrite (hasOwnProperty_true _ _ Hid).
    cbn -[member]. split; [reflexivity|]. split; [reflexivity|].
    split; [reflexivity|]. eexists. reflexivity.
Qed.

Lemma prototype_id_reply_witness :
  let s := run [Connect None; Transport OPEN] WSRPC_new in
  let frame := VObj [("id", VStr "toString"); ("result", VNum 1)] in
  obj_get (to_string (member frame "id")) (store s) = None
  /\ exists m,
       sent (exec (ws_onmessage (message_of frame)) s)
       = sent s ++ [JSON_stringify
                      (VObj [("error", m); ("result", VNull);
                             ("id", member frame "id")]) 0].
Proof.
  intros s frame.
  assert (Hget : obj_get (to_string (member frame "id")) (store s) = None)
    by (vm_compute; reflexivity).
  assert (Hsock : socket s = Some {| readyState := OPEN |})
    by (vm_compute; reflexivity).
  pose proof (prototype_id_reply frame s false true eq_refl eq_refl eq_refl
                eq_refl eq_refl Hget Hsock) as (_ & _ & _ & H).
  split; [exact Hget|exact H].
Defined.

(** ** destroy *)

(** X22. [destroy()] on a client that is OPEN or CONNECTING returns and
    only starts the closing handshake: the state reads CLOSING, and no
    future is settled, no stored or queued call is dropped, no listener
    is called and no timer is armed until the transport reports the
    close. A call with a truthy [noWait] issued after it is rejected at
    once with 'Socket is: CLOSING' and is neither stored, queued nor
    transmitted. *)
Theorem noWait_call_after_destroy
    (func args params : value) (s : WSRPC) :
  state s = "OPEN" \/ state s = "CONNECTING" ->
  truthy params = true ->
  truthy (member params "noWait") = true ->
  let s1 := exec destroy s in
  let l := length (heap s) in
  let s2 := exec (call func args params) s1 in
  eval destroy s = Ok tt
  /\ state s1 = "CLOSING"
  /\ (heap s1, settled s1, store s1, callQueue s1, invoked s1, timers s1,
      sent s1)
     = (heap s, settled s, store s, callQueue s, invoked s, timers s, sent s)
  /\ eval (call func args params) s1 = Ok l
  /\ heap s2 = heap s ++ [{| done := true;
                            promise := Rejected (VStr "Socket is: CLOSING") |}]
  /\ store s2 = store s
  /\ callQueue s2 = callQueue s
  /\ sent s2 = sent s.
Proof.
  intros Hst Hp Hn. cbn zeta.
  assert (Hd : destroy s
               = (Ok tt, set_socket (Some {| readyState := CLOSING |}) s)
               /\ socketStarted s = true).
  { destruct Hst as [Hst|Hst];
      [apply state_OPEN in Hst as [Hstart Hsock]
      |apply state_CONNECTING in Hst as [Hstart Hsock]];
      unfold destroy, socket_close; rewrite Hsock; split;
        try reflexivity; exact Hstart. }
  destruct Hd as [Hd Hstart].
  unfold exec at 1 2 3 4 5 6 7 8, eval at 1. rewrite Hd. cbn [fst snd].
  replace (exec destroy s) with (snd (destroy s)) by reflexivity.
  rewrite Hd. cbn [snd].
  set (s1 := set_socket (Some {| readyState := CLOSING |}) s).
  assert (Hst1 : state s1 = "CLOSING").
  { unfold state, stateCode. subst s1. cbn [socketStarted socket set_socket].
    rewrite Hstart. reflexivity. }
  split; [reflexivity|]. split; [exact Hst1|]. split; [reflexivity|].
  unfold exec, eval, call, makeCall.
  unfold bind, modify, gets, Deferred_new, ret, log, logGroup.
  cbn -[state String.eqb obj_set pretty truthy member].
  change (state (set_heap _ _)) with (state s1). rewrite Hst1.
  cbn -[state obj_set pretty truthy member].
  rewrite Hp, Hn.
  unfold Deferred_reject, Deferred_settle.
  destruct (DEBUG s);
    cbn -[state obj_set pretty truthy member lookup insert];
    rewrite heap_lookup_fresh;
    cbn -[state obj_set pretty truthy member lookup insert];
    rewrite heap_insert_fresh; repeat split; reflexivity.
Qed.

Lemma noWait_call_after_destroy_witness :
  let s := run [Connect None; Transport OPEN] WSRPC_new in
  let params := VObj [("noWait", VBool true)] in
  state s = "OPEN"
  /\ state (exec destroy s) = "CLOSING"
  /\ eval (call (VStr "ping") (VStr "hi") params) (exec destroy s)
     = Ok (length (heap s)).
Proof.
  intros s params.
  assert (Hst : state s = "OPEN") by (vm_compute; reflexivity).
  pose proof (noWait_call_after_destroy (VStr "ping") (VStr "hi") params s
                (or_introl Hst) eq_refl eq_refl) as (_ & H1 & _ & H2 & _).
  split; [exact Hst|]. split; [exact H1|exact H2].
Defined.

(** ** The URL of the socket *)

Lemma strip_slashes_no_terminator (u : jsstring) :
  Forall (fun c => is_line_terminator c = false) u ->
  strip_slashes false u = u.
Proof.
  induction u as [|c u IH]; intros H; [reflexivity|].
  apply Forall_cons in H as [Hc H]. cbn [strip_slashes andb].
  rewrite Hc, IH by exact H. reflexivity.
Qed.

(** X23. [getAbsoluteWsUrl] returns a URL that has a scheme, so it
    returns that URL unchanged when applied again, with or without a
    [window]: a URL with a scheme is never rewritten. *)
Theorem getAbsoluteWsUrl_idempotent
    (window window' : option Location) (url r : jsstring) :
  getAbsoluteWsUrl window url = Ok r ->
  test_scheme r = true /\ getAbsoluteWsUrl window' r = Ok r.
Proof.
  intros H.
  assert (Hr : test_scheme r = true).
  { unfold getAbsoluteWsUrl in H.
    destruct (test_scheme url) eqn:Ht; [injection H as <-; exact Ht|].
    destruct window as [location|]; [|discriminate H].
    cbv zeta in H. injection H as <-.
    destruct (bool_decide (protocol location = units "https:"));
      reflexivity. }
  split; [exact Hr|]. unfold getAbsoluteWsUrl. rewrite Hr. reflexivity.
Qed.

Lemma getAbsoluteWsUrl_idempotent_witness :
  let location := {| protocol := units "https:"; host := units "example.org";
                     port := [] |} in
  getAbsoluteWsUrl (Some location) (units "/ws/")
  = Ok (units "wss://example.org:/ws/")
  /\ getAbsoluteWsUrl None (units "wss://example.org:/ws/")
     = Ok (units "wss://example.org:/ws/").
Proof.
  intros location.
  assert (H : getAbsoluteWsUrl (Some location) (units "/ws/")
              = Ok (units "wss://example.org:/ws/"))
    by (vm_compute; reflexivity).
  split; [exact H|].
  exact (proj2 (getAbsoluteWsUrl_idempotent (Some location) None _ _ H)).
Defined.

(** X24. A URL without a scheme. With a [window] the function never
    throws (the guard of lines 50-53 cannot fire): the result is the
    scheme [wss:] under [https:] and [ws:] otherwise, [//], the host,
    then a bare colon exactly when [location.port] is empty (a port that
    is set is left to [location.host]), a slash and the path. The path
    does not start with a slash; when the URL has no line terminator it
    is the URL without its leading slashes. Without a [window] the
    function throws a ReferenceError. *)
Theorem getAbsoluteWsUrl_relative (location : Location) (url : jsstring) :
  test_scheme url = false ->
  let scheme := if bool_decide (protocol location = units "https:")
                then units "wss:" else units "ws:" in
  let colon := if bool_decide (port location = []) then units ":" else [] in
  let path := strip_slashes true url in
  getAbsoluteWsUrl (Some location) url
  = Ok (scheme ++ units "//" ++ host location ++ colon ++ units "/" ++ path)
  /\ head path <> Some 47
  /\ (Forall (fun c => is_line_terminator c = false) url ->
      path = drop_slashes url)
  /\ getAbsoluteWsUrl None url = Throw (VError "window is not defined").
Proof.
  intros Ht. cbn zeta. unfold getAbsoluteWsUrl. rewrite Ht. cbv zeta.
  split; [|split; [|split; [|reflexivity]]].
  - destruct (bool_decide_reflect (port location = [])) as [->|_];
      [rewrite app_nil_r|]; reflexivity.
  - clear Ht. induction url as [|c url IH]; [discriminate|].
    cbn [strip_slashes andb].
    destruct (Z.eqb_spec c 47) as [->|Hne]; [exact IH|].
    cbn [head]. congruence.
  - clear Ht. intros Hnt. induction url as [|c url IH]; [reflexivity|].
    apply Forall_cons in Hnt as [Hc Hnt].
    cbn [strip_slashes andb drop_slashes].
    destruct (Z.eqb_spec c 47) as [->|Hne].
    + apply IH, Hnt.
    + rewrite Hc, strip_slashes_no_terminator by exact Hnt. reflexivity.
Qed.

Lemma getAbsoluteWsUrl_relative_witness :
  let location := {| protocol := units "http:"; host := units "localhost:8080";
                     port := units "8080" |} in
  test_scheme (units "//ws/") = false
  /\ getAbsoluteWsUrl (Some location) (units "//ws/")
     = Ok (units "ws://localhost:8080/ws/").
Proof.
  intros location.
  assert (Ht : test_scheme (units "//ws/") = false) by reflexivity.
  pose proof (getAbsoluteWsUrl_relative location (units "//ws/") Ht)
    as (H & _).
  split; [exact Ht|]. rewrite H. vm_compute. reflexivity.
Defined.

(** ** One-shot subscriptions *)

Lemma callEvents_durable_obs (e : evName) (v : value) (s : WSRPC) :
  durable_obs (snd (callEvents e v s))
  = durable_obs (snd (callEvents_oneTime e (tget e (oneTimeEventStore s)) s)).
Proof. rewrite callEvents_run. apply durable_obs_callEvents_durable. Qed.

(** X25. [onEvent(event)] returns a fresh pending promise and puts it
    last in the one-shot queue of the event, whatever the queue holds.
    The next firing of the event resolves it, with no payload, and
    empties the queue, whether the durable listeners return or throw;
    the firing
    after that leaves the promise as it is, and it returns when each
    durable listener of the event returns or throws something the
    [catch] of [tryCallEvent] can handle. A firing of another event in
    between does not take it out of its queue. *)
Theorem onEvent_round_trip (e e' : evName) (v v' : value) (s : WSRPC) :
  let l := length (heap s) in
  let s1 := exec (onEvent e) s in
  let s2 := exec (callEvents e v) s1 in
  let s3 := exec (callEvents e v') s2 in
  eval (onEvent e) s = Ok l
  /\ heap s1 !! l = Some new_Deferred
  /\ tget e (oneTimeEventStore s1) = tget e (oneTimeEventStore s) ++ [l]
  /\ (e' <> e ->
      tget e (oneTimeEventStore (exec (callEvents e' v) s1))
      = tget e (oneTimeEventStore s) ++ [l])
  /\ heap s2 !! l = Some {| done := true; promise := Fulfilled VUndef |}
  /\ tget e (oneTimeEventStore s2) = []
  /\ (all_handled v' (tget e (eventStore s)) = true ->
      eval (callEvents e v') s2 = Ok tt)
  /\ heap s3 !! l = Some {| done := true; promise := Fulfilled VUndef |}.
Proof.
  cbn zeta.
  assert (H1 : onEvent e s
               = (Ok (length (heap s)),
                  set_oneTimeEventStore
                    (tset e (tget e (oneTimeEventStore s) ++ [length (heap s)])
                       (oneTimeEventStore s))
                    (set_heap (heap s ++ [new_Deferred]) s))) by reflexivity.
  unfold exec at 1 2 3, eval at 1. rewrite H1. cbn [fst snd].
  replace (exec (onEvent e) s) with (snd (onEvent e s)) by reflexivity.
  rewrite H1. cbn [snd].
  match goal with
  | |- context [exec (callEvents e v) ?st] => set (s1 := st)
  end.
  assert (Hq : tget e (oneTimeEventStore s1)
               = tget e (oneTimeEventStore s) ++ [length (heap s)]).
  { subst s1. cbn [oneTimeEventStore set_oneTimeEventStore set_heap].
    apply tget_tset_eq. }
  assert (Hl : heap s1 !! length (heap s) = Some new_Deferred)
    by apply heap_lookup_fresh.
  split; [reflexivity|]. split; [exact Hl|]. split; [exact Hq|].
  split.
  { intros Hne. unfold exec.
    pose proof (f_equal (fun t => fst (fst (fst t)))
                  (callEvents_durable_obs e' v s1)) as K1.
    cbn [durable_obs fst] in K1. rewrite K1.
    destruct (callEvents_oneTime_effect e' (tget e' (oneTimeEventStore s1)) s1)
      as (_ & E2 & _). cbn zeta in E2.
    rewrite (E2 e) by (intros H; apply Hne; symmetry; exact H). exact Hq. }
  assert (H2 : heap (exec (callEvents e v) s1) !! length (heap s)
               = Some {| done := true; promise := Fulfilled VUndef |}
               /\ tget e (oneTimeEventStore (exec (callEvents e v) s1)) = []).
  { unfold exec.
    pose proof (f_equal (fun t => fst (fst (fst t)))
                  (callEvents_durable_obs e v s1)) as K1.
    pose proof (f_equal (fun t => snd (fst (fst t)))
                  (callEvents_durable_obs e v s1)) as K2.
    cbn [durable_obs fst snd] in K1, K2. rewrite K1, K2.
    destruct (callEvents_oneTime_effect e (tget e (oneTimeEventStore s1)) s1)
      as (E1 & _ & _ & _ & _ & E6). cbn zeta in *.
    split.
    - apply E6; [|exact Hl]. rewrite Hq. apply elem_of_app. right.
      apply list_elem_of_singleton. reflexivity.
    - rewrite E1, Hq. destruct (tget e (oneTimeEventStore s)); reflexivity. }
  destruct H2 as [H2 H3].
  split; [exact H2|]. split; [exact H3|].
  split.
  { intros Hh. unfold eval. apply callEvents_handled.
    unfold exec. rewrite keeps_eventStore_callEvents. exact Hh. }
  set (d := {| done := true; promise := Fulfilled VUndef |}) in *.
  apply (final_callEvents (length (heap s)) d e v' eq_refl). exact H2.
Qed.

Lemma onEvent_round_trip_witness :
  let s1 := exec (onEvent onclose) WSRPC_new in
  onerror <> onclose
  /\ tget onclose (oneTimeEventStore (exec (callEvents onerror VNull) s1))
     = tget onclose (oneTimeEventStore WSRPC_new) ++ [length (heap WSRPC_new)]
  /\ heap (exec (callEvents onclose VNull) s1) !! length (heap WSRPC_new)
     = Some {| done := true; promise := Fulfilled VUndef |}.
Proof.
  intros s1.
  assert (Hne : onerror <> onclose) by discriminate.
  pose proof (onEvent_round_trip onclose onerror VNull VNull WSRPC_new)
    as (_ & _ & _ & H1 & H2 & _).
  split; [exact Hne|]. split; [exact (H1 Hne)|exact H2].
Defined.

Lemma callEvents_fires_witness :
  let s := exec (onEvent onconnect) WSRPC_new in
  0%nat ∈ tget onconnect (oneTimeEventStore s)
  /\ heap s !! 0%nat = Some new_Deferred
  /\ heap (exec (callEvents onconnect VNull) s) !! 0%nat
     = Some {| done := true; promise := Fulfilled VUndef |}.
Proof.
  intros s.
  assert (Hin : 0%nat ∈ tget onconnect (oneTimeEventStore s)).
  { apply list_elem_of_singleton. reflexivity. }
  assert (Hl : heap s !! 0%nat = Some new_Deferred) by reflexivity.
  pose proof (callEvents_fires onconnect VNull VNull s) as (_ & _ & _ & H & _).
  split; [exact Hin|]. split; [exact Hl|]. exact (H 0%nat Hin Hl).
Defined.
